(** * openhiven.py: the gateway session engine

  A shallow embedding of
    - [openhivenpy/events/__init__.py]  (listener registry and dispatcher)
    - [openhivenpy/gateway/websocket.py] (keep-alive loop, handshake, senders)
  together with the properties of the engine that are stated in the
  specification of the repository.

  Conventions of the embedding.
    - Python values are the inductive [PyVal]; a [dict] is a [gmap].
    - A Python object with mutable attributes lives in a store and is
      referred to by its identity (a number); attributes that are written
      once by [__init__] travel with the reference.
    - A coroutine that mutates state and may raise is a function
      [state -> state * result]; what was mutated before a [raise] stays
      mutated, as in Python.
    - asyncio runs one task at a time and switches only at an [await] that
      really suspends; callbacks of listeners are taken to run without
      suspending, so the tasks of one [asyncio.gather] run one after the
      other, in the order of the argument list.
    - A [PyExc] is an instance of [Exception].  A callback of a listener
      may also raise an instance of a class that derives from
      [BaseException] only ([asyncio.CancelledError]); [except Exception]
      does not catch it.  What the transport raises on a write is an
      instance of [Exception]. *)

From stdpp Require Import gmap strings list.
From Stdlib Require Import ZArith Ascii String.

(* ===================================================================== *)
(** * Python values, exceptions, results *)
(* ===================================================================== *)

Module Py.

#[warnings="-register-all"]
Inductive PyVal : Type :=
| VNone
| VInt (z : Z)
| VStr (s : string)
| VList (l : list PyVal)
| VDict (m : gmap string PyVal).

(** The exception classes that occur in the two modules. *)
Inductive ExcClass : Type :=
| KeyError | ValueError | AttributeError | TypeError | JSONDecodeError
| TimeoutError
| UnknownEventError | ExpectedAsyncFunction
| RestartSessionError | SessionCreateError | WebSocketClosedError
| UserException (name : string).

(** [type(e).__name__] *)
Definition class_name (c : ExcClass) : string :=
  match c with
  | KeyError => "KeyError" | ValueError => "ValueError"
  | AttributeError => "AttributeError" | TypeError => "TypeError"
  | JSONDecodeError => "JSONDecodeError" | TimeoutError => "TimeoutError"
  | UnknownEventError => "UnknownEventError"
  | ExpectedAsyncFunction => "ExpectedAsyncFunction"
  | RestartSessionError => "RestartSessionError"
  | SessionCreateError => "SessionCreateError"
  | WebSocketClosedError => "WebSocketClosedError"
  | UserException n => n
  end.

Record PyExc : Type := mkExc { exc_class : ExcClass; exc_msg : string }.

Inductive result (A : Type) : Type :=
| Ok (a : A)
| Raise (e : PyExc).
Arguments Ok {A} a.
Arguments Raise {A} e.

(** [x == "lit"] and [x == n] for a value that came out of a JSON document *)
Definition str_eq (v : PyVal) (s : string) : bool :=
  match v with VStr s' => String.eqb s' s | _ => false end.

Definition int_eq (v : PyVal) (n : Z) : bool :=
  match v with VInt z => Z.eqb z n | _ => false end.

(** [str.replace('on_', '')]: scanning from the left, every occurrence of
    ['on_'] that does not overlap an earlier one is dropped. *)
Fixpoint replace_on_ (s : string) : string :=
  match s with
  | EmptyString => EmptyString
  | String c1 r1 =>
      match r1 with
      | String c2 (String c3 r3) =>
          if (Ascii.eqb c1 "o" && Ascii.eqb c2 "n" && Ascii.eqb c3 "_")%char%bool
          then replace_on_ r3
          else String c1 (replace_on_ r1)
      | _ => String c1 (replace_on_ r1)
      end
  end.

End Py.
Import Py.

(* ===================================================================== *)
(** * events/__init__.py *)
(* ===================================================================== *)

Module Events.

(** The classes that derive from [BaseException] and not from [Exception]:
    [asyncio.CancelledError], [GeneratorExit] and classes of the user.  A
    clause [except Exception] lets their instances through.
    ([KeyboardInterrupt] and [SystemExit] end the event loop itself, and
    the run that this module describes with it.) *)
Inductive BaseOnly : Type :=
| CancelledError
| GeneratorExit
| UserBaseException (name : string).

(** How a call of this module ends: it returns, it raises an instance of
    [Exception], or it raises an instance of one of the classes above.
    From here on [result], [Ok] and [Raise] are the ones of this module. *)
Inductive result (A : Type) : Type :=
| Ok (a : A)
| Raise (e : PyExc)
| RaiseBase (b : BaseOnly).
Arguments Ok {A} a.
Arguments Raise {A} e.
Arguments RaiseBase {A} b.

(** A callable handed to the registry.  [fn_async] is
    [inspect.iscoroutinefunction]; [fn_body args kwargs] is how awaiting
    the call ends. *)
Record Function : Type := mkFunction {
  fn_name  : string;
  fn_async : bool;
  fn_body  : list PyVal → gmap string PyVal → result unit
}.

(** A reference to a listener object.  [lid] is the identity of the
    object; [single] tells the class ([SingleDispatchEventListener] or
    [MultiDispatchEventListener]); [coro] and [event_name] are the
    attributes set by [__init__] and never assigned again. *)
Record Listener : Type := mkListener {
  lid        : nat;
  single     : bool;
  coro       : option Function;
  event_name : string
}.

(** The attributes of a [SingleDispatchEventListener] that [dispatch]
    assigns. *)
Record SingleState : Type := mkSingleState {
  _dispatched : bool;
  _event_data : PyVal;
  _args       : PyVal;
  _kwargs     : PyVal
}.

(** One call of [utils.log_traceback(msg=..., suffix=...)]. *)
Record LogRecord : Type := mkLog { log_msg : string; log_suffix : string }.

(** One [await self.coro] on the positional and keyword arguments. *)
Record Call : Type := mkCall {
  call_listener : nat;
  call_args     : list PyVal;
  call_kwargs   : gmap string PyVal
}.

(** The event handler (the client): the store of listener objects, the
    registry [_active_listeners], and what went out to the log and to the
    callbacks. *)
Record HivenEventHandler : Type := mkHandler {
  next_id           : nat;
  objects           : gmap nat SingleState;
  _active_listeners : gmap string (list Listener);
  log               : list LogRecord;
  calls             : list Call
}.

Definition empty_handler : HivenEventHandler :=
  {| next_id := 0; objects := ∅; _active_listeners := ∅; log := []; calls := [] |}.

(** [self._events], as written in [__init__]: there is no comma after
    ['house_entity_update'], so Python joins it with the next literal. *)
Definition _events : list string :=
  [ "connection_start"; "init"; "ready"; "user_update";
    "house_join"; "house_remove"; "house_update"; "house_delete"; "house_delete";
    "house_downtime";
    "room_create"; "room_update"; "room_delete";
    "house_member_join"; "house_member_leave"; "house_member_enter";
    "house_member_exit"; "member_update";
    "house_member_chunk"; "batch_house_member_update";
    "house_entity_update" +:+ "relationship_update";
    "presence_update";
    "message_create"; "message_update"; "message_delete";
    "typing_start" ].

(** ** The state-and-exception monad of the module *)

Definition M (A : Type) : Type := HivenEventHandler → HivenEventHandler * result A.

Definition ret {A} (a : A) : M A := fun c => (c, Ok a).
Definition raise {A} (e : PyExc) : M A := fun c => (c, Raise e).
Definition bind {A B} (m : M A) (k : A → M B) : M B :=
  fun c => match m c with
           | (c1, Ok a) => k a c1
           | (c1, Raise e) => (c1, Raise e)
           | (c1, RaiseBase b) => (c1, RaiseBase b)
           end.
Definition modify (f : HivenEventHandler → HivenEventHandler) : M unit :=
  fun c => (f c, Ok tt).

Notation "m ;;; k" := (bind m (fun _ => k))
  (at level 100, k at level 200, right associativity).

(** ** Field updates *)

Definition set_listeners (r : gmap string (list Listener)) (c : HivenEventHandler) :=
  {| next_id := next_id c; objects := objects c; _active_listeners := r;
     log := log c; calls := calls c |}.

Definition set_objects (o : gmap nat SingleState) (c : HivenEventHandler) :=
  {| next_id := next_id c; objects := o; _active_listeners := _active_listeners c;
     log := log c; calls := calls c |}.

(** an assignment [self.<attr> = v] on the listener object [i] *)
Definition set_attr (i : nat) (f : SingleState → SingleState) (c : HivenEventHandler) :=
  set_objects (alter f i (objects c)) c.

Definition log_traceback (msg suffix : string) (c : HivenEventHandler) :=
  {| next_id := next_id c; objects := objects c;
     _active_listeners := _active_listeners c;
     log := log c ++ [mkLog msg suffix]; calls := calls c |}.

Definition record_call (i : nat) (args : list PyVal) (kwargs : gmap string PyVal)
    (c : HivenEventHandler) :=
  {| next_id := next_id c; objects := objects c;
     _active_listeners := _active_listeners c;
     log := log c; calls := calls c ++ [mkCall i args kwargs] |}.

(** ** [add_listener], [remove_listener] *)

(** [if client.active_listeners.get(name):] is true for a bucket that
    exists and is not empty. *)
Definition add_listener (listener : Listener) (c : HivenEventHandler) : HivenEventHandler :=
  match _active_listeners c !! event_name listener with
  | Some (x :: l) =>
      set_listeners (<[event_name listener := (x :: l) ++ [listener]]> (_active_listeners c)) c
  | _ =>
      set_listeners (<[event_name listener := [listener]]> (_active_listeners c)) c
  end.

(** [list.remove(x)]: drops the first element that is [x] (the classes
    define no [__eq__], so [==] is identity); [None] is [ValueError]. *)
Fixpoint list_remove (x : Listener) (l : list Listener) : option (list Listener) :=
  match l with
  | [] => None
  | y :: l' =>
      if Nat.eqb (lid y) (lid x) then Some l'
      else match list_remove x l' with
           | Some r => Some (y :: r)
           | None => None
           end
  end.

Definition remove_listener (listener : Listener) : M unit := fun c =>
  match _active_listeners c !! event_name listener with
  | Some (x :: l) =>
      match list_remove listener (x :: l) with
      | Some l' =>
          (set_listeners (<[event_name listener := l']> (_active_listeners c)) c, Ok tt)
      | None =>
          (c, Raise (mkExc ValueError "list.remove(x): x not in list"))
      end
  | _ =>
      (c, Raise (mkExc KeyError
                   "The listener does not exist with the event_name in the HivenClient"))
  end.

(** ** The two listener classes *)

Definition iscoroutinefunction (coro : option Function) : bool :=
  match coro with Some f => fn_async f | None => false end.

Definition failed_msg (event_name : string) : string :=
  "[EVENTS] EventListener for the event '" +:+ event_name
    +:+ "' failed to execute due to an exception:".

Definition failed_suffix (e : PyExc) : string :=
  class_name (exc_class e) +:+ ": " +:+ exc_msg e +:+ "!".

(** [await self.coro] on [args] and [kwargs], inside
    [try: ... except Exception as e: utils.log_traceback(...)]: an instance
    of [Exception] is logged and the method goes on; an instance of another
    class leaves the method. *)
Definition await_coro_logged (self : Listener) (args : list PyVal)
    (kwargs : gmap string PyVal) : M unit := fun c =>
  match coro self with
  | Some f =>
      let c1 := record_call (lid self) args kwargs c in
      match fn_body f args kwargs with
      | Ok _ => (c1, Ok tt)
      | Raise e =>
          (log_traceback (failed_msg (event_name self)) (failed_suffix e) c1, Ok tt)
      | RaiseBase b => (c1, RaiseBase b)
      end
  | None => (c, Ok tt)
  end.

(** [SingleDispatchEventListener.__init__] *)
Definition new_SingleDispatchEventListener (event_name : string)
    (coro : option Function) : M Listener := fun c =>
  let self := mkListener (next_id c) true coro event_name in
  let c1 := {| next_id := S (next_id c);
               objects := <[next_id c := mkSingleState false VNone VNone VNone]> (objects c);
               _active_listeners := _active_listeners c;
               log := log c; calls := calls c |} in
  (add_listener self c1, Ok self).

(** [SingleDispatchEventListener.dispatch] *)
Definition Single_dispatch (self : Listener) (event_data : PyVal)
    (args : list PyVal) (kwargs : gmap string PyVal) : M PyVal :=
  modify (set_attr (lid self)
            (fun s => mkSingleState (_dispatched s) event_data (_args s) (_kwargs s))) ;;;
  (if iscoroutinefunction (coro self) then
     modify (set_attr (lid self)
               (fun s => mkSingleState (_dispatched s) (_event_data s) (VList args) (_kwargs s))) ;;;
     modify (set_attr (lid self)
               (fun s => mkSingleState (_dispatched s) (_event_data s) (_args s) (VDict kwargs))) ;;;
     await_coro_logged self args kwargs
   else ret tt) ;;;
  modify (set_attr (lid self)
            (fun s => mkSingleState true (_event_data s) (_args s) (_kwargs s))) ;;;
  remove_listener self ;;;
  ret event_data.

(** [MultiDispatchEventListener.__init__] *)
Definition new_MultiDispatchEventListener (event_name : string)
    (coro : option Function) : M Listener := fun c =>
  let self := mkListener (next_id c) false coro event_name in
  let c1 := {| next_id := S (next_id c); objects := objects c;
               _active_listeners := _active_listeners c;
               log := log c; calls := calls c |} in
  (add_listener self c1, Ok self).

(** [MultiDispatchEventListener.dispatch] *)
Definition Multi_dispatch (self : Listener) (event_data : PyVal)
    (args : list PyVal) (kwargs : gmap string PyVal) : M PyVal :=
  (if iscoroutinefunction (coro self) then await_coro_logged self args kwargs
   else ret tt) ;;;
  ret event_data.

(** [__call__]: calling a listener object is calling its [dispatch] *)
Definition Listener_call (e : Listener) (event_data : PyVal)
    (args : list PyVal) (kwargs : gmap string PyVal) : M PyVal :=
  if single e then Single_dispatch e event_data args kwargs
  else Multi_dispatch e event_data args kwargs.

(** [asyncio.gather] on [tasks]: every task runs, also after one of them
    has raised; the first exception, if any, is the one that comes out (a
    task that ends with [CancelledError] makes [gather] raise
    [CancelledError]). *)
Fixpoint gather {A} (tasks : list (M A)) : M (list A) := fun c =>
  match tasks with
  | [] => (c, Ok [])
  | t :: ts =>
      let '(c1, r1) := t c in
      let '(c2, r2) := gather ts c1 in
      (c2, match r1, r2 with
           | Raise e, _ => Raise e
           | RaiseBase b, _ => RaiseBase b
           | Ok _, Raise e => Raise e
           | Ok _, RaiseBase b => RaiseBase b
           | Ok a, Ok l => Ok (a :: l)
           end)
  end.

(** ** [HivenEventHandler] *)

(** [HivenEventHandler.dispatch] *)
Definition dispatch (event_name : string) (event_data : PyVal)
    (args : list PyVal) (kwargs : gmap string PyVal) : M unit := fun c =>
  match _active_listeners c !! replace_on_ event_name with
  | Some (x :: l) =>
      let events := x :: l in
      let tasks := (fun e => Listener_call e event_data args kwargs) <$> events in
      (gather tasks ;;; ret tt) c
  | _ => (c, Ok tt)
  end.

(** [if self.active_listeners.get(event_name) is None: ... = []] *)
Definition ensure_bucket (event_name : string) (c : HivenEventHandler) :=
  match _active_listeners c !! event_name with
  | None => set_listeners (<[event_name := []]> (_active_listeners c)) c
  | Some _ => c
  end.

(** [HivenEventHandler.add_new_multi_event_listener] *)
Definition add_new_multi_event_listener (event_name : string)
    (coro : option Function) : M Listener :=
  let event_name := replace_on_ event_name in
  modify (ensure_bucket event_name) ;;;
  new_MultiDispatchEventListener event_name coro.

(** [HivenEventHandler.add_new_single_event_listener] *)
Definition add_new_single_event_listener (event_name : string)
    (coro : option Function) : M Listener :=
  let event_name := replace_on_ event_name in
  modify (ensure_bucket event_name) ;;;
  new_SingleDispatchEventListener event_name coro.

(** The inner [decorator] of [HivenEventHandler.event]; [event(coro)] is
    [decorator(coro)] and [event()] returns [decorator] itself. *)
Definition event_decorator (coro : Function) : M Function :=
  if negb (fn_async coro) then
    raise (mkExc ExpectedAsyncFunction "The decorated event_listener requires to be async!")
  else if negb (bool_decide (replace_on_ (fn_name coro) ∈ _events)) then
    raise (mkExc UnknownEventError
             "The passed event_listener was not found in the available events!")
  else
    let func_name := replace_on_ (fn_name coro) in
    add_new_multi_event_listener func_name (Some coro) ;;;
    ret coro.

(** ** [wait_for] *)

(** One call of [HivenEventHandler.dispatch] made by some other task. *)
Record DispatchCall : Type := mkDispatch {
  d_event  : string;
  d_data   : PyVal;
  d_args   : list PyVal;
  d_kwargs : gmap string PyVal
}.

Definition run_dispatch (d : DispatchCall) (c : HivenEventHandler) : HivenEventHandler :=
  fst (dispatch (d_event d) (d_data d) (d_args d) (d_kwargs d) c).

(** the dispatches that happen during one sleep of [wait_for], in order *)
Definition run_dispatches (ds : list DispatchCall) (c : HivenEventHandler) :=
  foldl (fun c d => run_dispatch d c) c ds.

(** the properties [dispatched], [args] and [kwargs] of a single listener;
    [dispatched] is [getattr(self, '_dispatched', False)] *)
Definition dispatched (l : Listener) (c : HivenEventHandler) : bool :=
  match objects c !! lid l with Some s => _dispatched s | None => false end.

Definition listener_args (l : Listener) (c : HivenEventHandler) : PyVal :=
  match objects c !! lid l with Some s => _args s | None => VNone end.

Definition listener_kwargs (l : Listener) (c : HivenEventHandler) : PyVal :=
  match objects c !! lid l with Some s => _kwargs s | None => VNone end.

(** The polling loop [while not listener.dispatched: await asyncio.sleep(.05)]
    followed by [return listener.args, listener.kwargs].  [env] lists, for
    each sleep, the dispatches that other tasks make while [wait_for] is
    asleep; [None] means that [wait_for] is still suspended when [env] is
    used up. *)
Fixpoint wait_for_loop (listener : Listener) (env : list (list DispatchCall))
    (c : HivenEventHandler) : HivenEventHandler * option (PyVal * PyVal) :=
  if dispatched listener c
  then (c, Some (listener_args listener c, listener_kwargs listener c))
  else match env with
       | [] => (c, None)
       | ds :: env' => wait_for_loop listener env' (run_dispatches ds c)
       end.

(** [HivenEventHandler.wait_for] *)
Definition wait_for (event_name : string) (coro : option Function)
    (env : list (list DispatchCall)) (c : HivenEventHandler)
    : HivenEventHandler * result (option (PyVal * PyVal)) :=
  let event_name := replace_on_ event_name in
  match add_new_single_event_listener event_name coro c with
  | (c1, Ok listener) =>
      let '(c2, r) := wait_for_loop listener env c1 in (c2, Ok r)
  | (c1, Raise e) => (c1, Raise e)
  | (c1, RaiseBase b) => (c1, RaiseBase b)
  end.

(** ** What one dispatch hands to the callbacks and to the log *)

(** the call that the listener [x] makes to its callback *)
Definition call_of (args : list PyVal) (kwargs : gmap string PyVal)
    (x : Listener) : list Call :=
  if iscoroutinefunction (coro x) then [mkCall (lid x) args kwargs] else [].

(** how the callback of [x] ends on these arguments, when [x] has one
    that is awaited *)
Definition outcome_of (args : list PyVal) (kwargs : gmap string PyVal)
    (x : Listener) : result unit :=
  match coro x with
  | Some f => if fn_async f then fn_body f args kwargs else Ok tt
  | None => Ok tt
  end.

(** the instance of [Exception], if any, that the callback of [x] raises
    on these arguments *)
Definition failure_of (args : list PyVal) (kwargs : gmap string PyVal)
    (x : Listener) : option PyExc :=
  match outcome_of args kwargs x with
  | Raise e => Some e
  | _ => None
  end.

(** the instance of a class outside [Exception], if any, that the callback
    of [x] raises on these arguments: it leaves the [dispatch] of [x] *)
Definition escape_of (args : list PyVal) (kwargs : gmap string PyVal)
    (x : Listener) : option BaseOnly :=
  match outcome_of args kwargs x with
  | RaiseBase b => Some b
  | _ => None
  end.

(** the first of the listeners [ls] whose callback leaves its [dispatch]
    in this way *)
Fixpoint first_escape (args : list PyVal) (kwargs : gmap string PyVal)
    (ls : list Listener) : option BaseOnly :=
  match ls with
  | [] => None
  | x :: ls' =>
      match escape_of args kwargs x with
      | Some b => Some b
      | None => first_escape args kwargs ls'
      end
  end.

(** the log record written for the listener [x] *)
Definition log_of (args : list PyVal) (kwargs : gmap string PyVal)
    (x : Listener) : list LogRecord :=
  match failure_of args kwargs x with
  | Some e => [mkLog (failed_msg (event_name x)) (failed_suffix e)]
  | None => []
  end.

(** the attributes of a single listener after its [dispatch]:
    [_dispatched] is set unless the callback left the method *)
Definition fired (event_data : PyVal) (args : list PyVal)
    (kwargs : gmap string PyVal) (x : Listener) (s : SingleState) : SingleState :=
  if iscoroutinefunction (coro x)
  then mkSingleState (match escape_of args kwargs x with
                      | Some _ => _dispatched s
                      | None => true
                      end) event_data (VList args) (VDict kwargs)
  else mkSingleState true event_data (_args s) (_kwargs s).


(** the listeners that [dispatch] finds for an event name *)
Definition snapshot (event_name : string) (c : HivenEventHandler) : list Listener :=
  default [] (_active_listeners c !! replace_on_ event_name).

(** ** Well-formed handlers

    Every listener sits in the bucket of its own [event_name], was
    created by this handler, and occurs once; a single listener has its
    attributes in the store. *)
Definition listener_ok (c : HivenEventHandler) (name : string) (x : Listener) : Prop :=
  event_name x = name ∧ lid x < next_id c ∧
  (single x = true → is_Some (objects c !! lid x)).

Definition wf (c : HivenEventHandler) : Prop :=
  ∀ name B, _active_listeners c !! name = Some B →
    NoDup (lid <$> B) ∧ Forall (listener_ok c name) B.

(** the handler after the body of a listener's [dispatch], before a single
    listener takes itself out of the registry *)
Definition after_body (event_data : PyVal) (args : list PyVal)
    (kwargs : gmap string PyVal) (x : Listener) (c : HivenEventHandler) :=
  {| next_id := next_id c;
     objects := if single x
                then alter (fired event_data args kwargs x) (lid x) (objects c)
                else objects c;
     _active_listeners := _active_listeners c;
     log := log c ++ log_of args kwargs x;
     calls := calls c ++ call_of args kwargs x |}.

(** the handler and the new listener after a registration under the bucket
    name [n]: the listener is appended to the bucket *)
Definition registered (s : bool) (n : string) (coro : option Function)
    (c : HivenEventHandler) : HivenEventHandler * Listener :=
  let self := mkListener (next_id c) s coro n in
  ({| next_id := S (next_id c);
      objects := if s
                 then <[next_id c := mkSingleState false VNone VNone VNone]> (objects c)
                 else objects c;
      _active_listeners :=
        <[n := default [] (_active_listeners c !! n) ++ [self]]> (_active_listeners c);
      log := log c;
      calls := calls c |}, self).

(** What running the listeners [ls] of the bucket [name], whose content is
    [B], makes of the handler [c]: [c'] is the handler afterwards and [B']
    the bucket afterwards. *)
Record run_post (name : string) (event_data : PyVal) (args : list PyVal)
    (kwargs : gmap string PyVal) (ls B : list Listener)
    (c c' : HivenEventHandler) (B' : list Listener) : Prop := mkRunPost {
  post_next  : next_id c' = next_id c;
  post_reg   : _active_listeners c' = <[name := B']> (_active_listeners c);
  post_sub   : ∀ y, y ∈ B' → y ∈ B;
  post_nodup : NoDup (lid <$> B');
  post_gone  : ∀ x, x ∈ ls → single x = true → escape_of args kwargs x = None →
                 lid x ∉ lid <$> B';
  post_kept  : ∀ y, y ∈ B →
                 (∀ x, x ∈ ls → single x = true → escape_of args kwargs x = None →
                    lid x ≠ lid y) → y ∈ B';
  post_calls : calls c' = calls c ++ (ls ≫= call_of args kwargs);
  post_log   : log c' = log c ++ (ls ≫= log_of args kwargs);
  post_fired : ∀ x, x ∈ ls → single x = true →
                 objects c' !! lid x = fired event_data args kwargs x <$> objects c !! lid x;
  post_other : ∀ j, (∀ x, x ∈ ls → single x = true → lid x ≠ j) →
                 objects c' !! j = objects c !! j;
  post_dom   : ∀ j, is_Some (objects c !! j) → is_Some (objects c' !! j)
}.

(** the calls made to callbacks between the handler [c1] and the later
    handler [c2] *)
Definition new_calls (c1 c2 : HivenEventHandler) : list Call :=
  drop (List.length (calls c1)) (calls c2).

(** The listener [L] is registered: it sits in the bucket of its name and
    nowhere else. *)
Definition registered_in (L : Listener) (c : HivenEventHandler) : Prop :=
  L ∈ default [] (_active_listeners c !! event_name L)
  ∧ ∀ name B, _active_listeners c !! name = Some B → name ≠ event_name L →
      lid L ∉ lid <$> B.

(** The listener [L] is in no bucket any more. *)
Definition unregistered (L : Listener) (c : HivenEventHandler) : Prop :=
  ∀ name B, _active_listeners c !! name = Some B → lid L ∉ lid <$> B.

(** a dispatch that does not look into the bucket [n] *)
Definition misses (n : string) (d : DispatchCall) : Prop :=
  replace_on_ (d_event d) ≠ n.

(** [wait_for] is asleep on the listener [L]: [L] is registered and has not
    been dispatched. *)
Definition waiting (L : Listener) (c : HivenEventHandler) : Prop :=
  wf c ∧ registered_in L c
  ∧ objects c !! lid L = Some (mkSingleState false VNone VNone VNone).

(** The listener [L] has fired and left the registry with the attributes [s]. *)
Definition finished (L : Listener) (s : SingleState) (c : HivenEventHandler) : Prop :=
  wf c ∧ unregistered L c ∧ objects c !! lid L = Some s.

(** ** A small handler used to exercise the statements *)

Definition demo_ok : Function :=
  mkFunction "on_message_create" true (fun _ _ => Ok tt).

Definition demo_failing : Function :=
  mkFunction "on_ready" true
    (fun _ _ => Raise (mkExc (UserException "RuntimeError") "boom")).

(** a callback that ends with [asyncio.CancelledError] *)
Definition demo_cancelled : Function :=
  mkFunction "on_ready" true (fun _ _ => RaiseBase CancelledError).

(** a failing persistent listener, a failing one-shot listener and a
    well-behaved persistent listener, all for [ready] *)
Definition demo_handler : HivenEventHandler :=
  fst (add_new_multi_event_listener "ready" (Some demo_ok)
    (fst (add_new_single_event_listener "on_ready" (Some demo_failing)
      (fst (add_new_multi_event_listener "on_ready" (Some demo_failing)
              empty_handler))))).

Definition demo_single : Listener := mkListener 1 true (Some demo_failing) "ready".

Definition demo_dispatch : DispatchCall :=
  mkDispatch "message_create" (VStr "payload") [VInt 1] ∅.

(** ** [HivenEventHandler.__init__]

    [members] are the attributes of the object that are functions, as
    [inspect.getmembers] lists them (by name); the predicate
    [inspect.iscoroutinefunction] keeps the async ones.  Each of them whose
    normalized name is a supported event becomes a persistent listener. *)
Definition scan_member (c : HivenEventHandler) (listener : string * Function)
    : HivenEventHandler :=
  let func_name := replace_on_ (fst listener) in
  let coro := snd listener in
  if bool_decide (func_name ∈ _events)
  then fst (add_new_multi_event_listener func_name (Some coro) c)
  else c.

Definition HivenEventHandler_init (members : list (string * Function))
    : HivenEventHandler :=
  foldl scan_member empty_handler (filter (fun m => fn_async (snd m) = true) members).

(** the members that [__init__] turns into listeners *)
Definition scanned (members : list (string * Function)) : list (string * Function) :=
  filter (fun m => replace_on_ (fst m) ∈ _events)
    (filter (fun m => fn_async (snd m) = true) members).

(** the content of the bucket [n], empty when there is none *)
Definition bucket (n : string) (c : HivenEventHandler) : list Listener :=
  default [] (_active_listeners c !! n).

(** a class body with two handlers of supported events, a handler of an
    unknown event and a plain method *)
Definition demo_members : list (string * Function) :=
  [ ("dispatch", mkFunction "dispatch" true (fun _ _ => Ok tt));
    ("helper", mkFunction "helper" false (fun _ _ => Ok tt));
    ("on_message_create", demo_ok);
    ("on_ready", demo_failing) ].

End Events.

(* ===================================================================== *)
(** * gateway/websocket.py *)
(* ===================================================================== *)

Module Gateway.

(** [aiohttp.WSMsgType] *)
Inductive WSMsgType : Type :=
| CONTINUATION | TEXT | BINARY | PING | PONG | CLOSE | CLOSING | CLOSED | ERROR.

(** A message delivered by [socket.receive()].  [msg_json] is what
    [msg.json()] returns, [None] when it raises. *)
Record WSMessage : Type := mkMsg {
  msg_type : WSMsgType;
  msg_json : option PyVal
}.

(** [HivenWebSocket.OPCode] *)
Definition OP_EVENT : Z := 0.
Definition OP_CONNECTION_START : Z := 1.
Definition OP_AUTH : Z := 2.
Definition OP_HEARTBEAT : Z := 3.

(** [dict.get(key)]: [None] when the key is missing *)
Definition dict_get (key : string) (m : gmap string PyVal) : PyVal :=
  default VNone (m !! key).

(** [len(x)]; [None] stands for the [TypeError] of an object without length *)
Definition py_len (v : PyVal) : option nat :=
  match v with
  | VDict m => Some (size m)
  | VList l => Some (List.length l)
  | VStr s => Some (String.length s)
  | _ => None
  end.

(** The collaborators that the websocket reaches through [self.client] and
    [self.parsers]; their code is not part of the module.  [houses_len s]
    is [len(storage['houses'])]. *)
Class Client (Storage : Type) : Type := mkClient {
  update_all          : PyVal → Storage → Storage;
  add_or_update_house : PyVal → Storage → Storage;
  houses_len          : Storage → nat;
  parsers_dispatch    : PyVal → PyVal → Storage → Storage
}.

(** What the websocket asks of its collaborators, in order. *)
Inductive Action : Type :=
| CallListeners (name : string)
| ParsersDispatch (event data : PyVal).

(** How a coroutine of the websocket ends: with a value, with an exception,
    suspended for ever in [socket.receive()] because no frame is left, or
    cut off by the bound on nested handshakes. *)
Inductive outcome (A : Type) : Type :=
| Done (a : A)
| Raised (e : PyExc)
| Blocked
| OutOfFuel.
Arguments Done {A} a.
Arguments Raised {A} e.
Arguments Blocked {A}.
Arguments OutOfFuel {A}.

(** The state of a keep-alive task created by [asyncio.create_task]. *)
Inductive TaskState : Type :=
| Pending
| Finished (r : result unit)
| Cancelled.

(** What happens while [KeepAlive.run] is asleep: the event loop runs the
    heartbeat task [i], whose write takes [elapsed] time units; another task
    awaits [KeepAlive.stop()]; the read loop changes [ws._open]. *)
Inductive EnvEvent : Type :=
| RunTask (i : nat) (elapsed : Z)
| CallStop
| SetOpen (b : bool).

(** One [await asyncio.sleep(...)] of the keep-alive loop: what happens in
    the meantime, and whether the sleep ends with [CancelledError]. *)
Record Tick : Type := mkTick {
  during    : list EnvEvent;
  cancelled : bool
}.

(** How [KeepAlive.run] stands when the ticks are used up. *)
Inductive RunState : Type :=
| Returned
| Sleeping.

Section WithClient.

Context {Storage : Type} `{Client Storage}.

(** The websocket object.  [socket_outcomes] scripts the next writes of the
    transport ([Some e]: [send_str] raises [e]); [socket_sent] collects what
    was written, each text by the JSON value it encodes; [clock] is what
    [time.time()] returns; [trace] collects the calls to the collaborators.
    The frames that [socket.receive()] will deliver are passed to the
    functions as a list. *)
Record HivenWebSocket : Type := mkWs {
  _open             : bool;
  _ready            : bool;
  _startup_time     : option Z;
  _connection_start : option Z;
  _token            : PyVal;
  _heartbeat        : Z;
  storage           : Storage;
  clock             : Z;
  trace             : list Action;
  socket_outcomes   : list (option PyExc);
  socket_sent       : list PyVal
}.

Definition set_open (b : bool) (ws : HivenWebSocket) : HivenWebSocket :=
  mkWs b (_ready ws) (_startup_time ws) (_connection_start ws) (_token ws)
    (_heartbeat ws) (storage ws) (clock ws) (trace ws)
    (socket_outcomes ws) (socket_sent ws).

Definition set_ready (b : bool) (ws : HivenWebSocket) : HivenWebSocket :=
  mkWs (_open ws) b (_startup_time ws) (_connection_start ws) (_token ws)
    (_heartbeat ws) (storage ws) (clock ws) (trace ws)
    (socket_outcomes ws) (socket_sent ws).

Definition set_startup_time (t : Z) (ws : HivenWebSocket) : HivenWebSocket :=
  mkWs (_open ws) (_ready ws) (Some t) (_connection_start ws) (_token ws)
    (_heartbeat ws) (storage ws) (clock ws) (trace ws)
    (socket_outcomes ws) (socket_sent ws).

Definition set_connection_start (t : Z) (ws : HivenWebSocket) : HivenWebSocket :=
  mkWs (_open ws) (_ready ws) (_startup_time ws) (Some t) (_token ws)
    (_heartbeat ws) (storage ws) (clock ws) (trace ws)
    (socket_outcomes ws) (socket_sent ws).

Definition set_storage (s : Storage) (ws : HivenWebSocket) : HivenWebSocket :=
  mkWs (_open ws) (_ready ws) (_startup_time ws) (_connection_start ws) (_token ws)
    (_heartbeat ws) s (clock ws) (trace ws)
    (socket_outcomes ws) (socket_sent ws).

Definition emit (a : Action) (ws : HivenWebSocket) : HivenWebSocket :=
  mkWs (_open ws) (_ready ws) (_startup_time ws) (_connection_start ws) (_token ws)
    (_heartbeat ws) (storage ws) (clock ws) (trace ws ++ [a])
    (socket_outcomes ws) (socket_sent ws).

Definition set_socket (o : list (option PyExc)) (sent : list PyVal)
    (ws : HivenWebSocket) : HivenWebSocket :=
  mkWs (_open ws) (_ready ws) (_startup_time ws) (_connection_start ws) (_token ws)
    (_heartbeat ws) (storage ws) (clock ws) (trace ws) o sent.

(** ** Sending *)

(** [await self.socket.send_str(text)] *)
Definition socket_send_str (text : PyVal) (ws : HivenWebSocket)
    : HivenWebSocket * result unit :=
  match socket_outcomes ws with
  | Some e :: rest => (set_socket rest (socket_sent ws) ws, Raise e)
  | None :: rest => (set_socket rest (socket_sent ws ++ [text]) ws, Ok tt)
  | [] => (set_socket [] (socket_sent ws ++ [text]) ws, Ok tt)
  end.

(** [HivenWebSocket.send_heartbeat] *)
Definition send_heartbeat (ws : HivenWebSocket) : HivenWebSocket * result unit :=
  match socket_send_str (VDict {[ "op" := VInt OP_HEARTBEAT ]}) ws with
  | (ws', Ok _) => (ws', Ok tt)
  | (ws', Raise e) =>
      (ws', Raise (mkExc RestartSessionError "Failed to send heartbeat to WebSocket host!"))
  end.

(** [HivenWebSocket.send_auth] *)
Definition send_auth (ws : HivenWebSocket) : HivenWebSocket * result unit :=
  let auth := VDict (<[ "op" := VInt OP_AUTH ]>
                       {[ "d" := VDict {[ "token" := _token ws ]} ]}) in
  match socket_send_str auth ws with
  | (ws', Ok _) => (ws', Ok tt)
  | (ws', Raise e) =>
      (ws', Raise (mkExc SessionCreateError
                     ("Failed to send auth to the host due to exception: " +:+ exc_msg e)))
  end.

(** ** The keep-alive loop *)

(** The [KeepAlive] object, the websocket it watches, and the tasks made by
    [asyncio.create_task]; a task is referred to by its index. *)
Record KeepAlive : Type := mkKeepAlive {
  ws      : HivenWebSocket;
  _task   : option nat;
  _active : bool;
  tasks   : list TaskState
}.

(** [asyncio.wait_for(self.ws.send_heartbeat(), 30)], run by the event loop:
    a write that is not through after 30 time units is cancelled and the
    task ends with [TimeoutError]. *)
Definition run_heartbeat_task (elapsed : Z) (w : HivenWebSocket)
    : HivenWebSocket * result unit :=
  if (30 <? elapsed)%Z
  then (set_socket (tail (socket_outcomes w)) (socket_sent w) w,
        Raise (mkExc TimeoutError ""))
  else send_heartbeat w.

(** [task.cancel()]: only a task that is not done yet is cancelled *)
Definition task_cancel (i : nat) (ts : list TaskState) : list TaskState :=
  match ts !! i with
  | Some Pending => <[i := Cancelled]> ts
  | _ => ts
  end.

(** [task.cancelled()] *)
Definition task_cancelled (i : nat) (ts : list TaskState) : bool :=
  match ts !! i with
  | Some Cancelled => true
  | _ => false
  end.

(** [KeepAlive.stop] *)
Definition stop (k : KeepAlive) : KeepAlive :=
  let ts := match _task k with
            | Some i => if task_cancelled i (tasks k) then task_cancel i (tasks k)
                        else tasks k
            | None => tasks k
            end in
  mkKeepAlive (ws k) None false ts.

Definition env_step (ev : EnvEvent) (k : KeepAlive) : KeepAlive :=
  match ev with
  | RunTask i elapsed =>
      match tasks k !! i with
      | Some Pending =>
          let '(w, r) := run_heartbeat_task elapsed (ws k) in
          mkKeepAlive w (_task k) (_active k) (<[i := Finished r]> (tasks k))
      | _ => k
      end
  | CallStop => stop k
  | SetOpen b => mkKeepAlive (set_open b (ws k)) (_task k) (_active k) (tasks k)
  end.

(** [self._task = asyncio.create_task(...)] *)
Definition create_heartbeat_task (k : KeepAlive) : KeepAlive :=
  mkKeepAlive (ws k) (Some (List.length (tasks k))) (_active k) (tasks k ++ [Pending]).

(** The [while] loop of [KeepAlive.run], from its test on. *)
Fixpoint run_loop (ticks : list Tick) (k : KeepAlive) : KeepAlive * RunState :=
  if _open (ws k) && _active k then
    let k1 := create_heartbeat_task k in
    match ticks with
    | [] => (k1, Sleeping)
    | t :: ticks' =>
        let k2 := foldl (fun k ev => env_step ev k) k1 (during t) in
        if cancelled t then (k2, Returned) else run_loop ticks' k2
    end
  else (k, Returned).

(** [KeepAlive.run] *)
Definition run (ticks : list Tick) (k : KeepAlive) : KeepAlive * RunState :=
  run_loop ticks (mkKeepAlive (ws k) (_task k) true (tasks k)).

(** ** Receiving *)

(** [HivenWebSocket.extract_event] *)
Definition extract_event (msg : gmap string PyVal) : PyVal * PyVal * PyVal :=
  (dict_get "op" msg, dict_get "e" msg, dict_get "d" msg).

Definition json_error : PyExc := mkExc JSONDecodeError "Expecting value".
Definition no_get : PyExc := mkExc AttributeError "object has no attribute 'get'".
Definition none_json : PyExc :=
  mkExc AttributeError "'NoneType' object has no attribute 'json'".

(** [msg.json()] followed by a [.get] on the result *)
Definition json_dict (msg : WSMessage) : result (gmap string PyVal) :=
  match msg_json msg with
  | None => Raise json_error
  | Some (VDict m) => Ok m
  | Some _ => Raise no_get
  end.

(** [HivenWebSocket.received_init_event]: the message is handed back
    whatever its op-code is. *)
Definition received_init_event (msg : WSMessage) : result WSMessage :=
  match json_dict msg with
  | Ok _ => Ok msg
  | Raise e => Raise e
  end.

(** [HivenWebSocket.wait_for_event] with a [handler] that works on the
    message alone, for the message [msg] that [socket.receive()] delivered.
    A [BINARY] message is dropped, since [type(msg) is bytes] never holds
    for a message object; the other message types without a branch run off
    the end of the method. *)
Definition wait_for_event (handler : WSMessage → result WSMessage) (msg : WSMessage)
    (w : HivenWebSocket) : HivenWebSocket * result (option WSMessage) :=
  match msg_type msg with
  | TEXT =>
      match handler msg with
      | Ok m => (w, Ok (Some m))
      | Raise e => (w, Raise e)
      end
  | BINARY => (w, Ok None)
  | CLOSE | CLOSING => (w, Raise (mkExc RestartSessionError ""))
  | CLOSED => (set_open false w, Raise (mkExc WebSocketClosedError ""))
  | ERROR =>
      (w, Raise (mkExc WebSocketClosedError
                   "[WEBSOCKET] Encountered an Exception in the Websocket!"))
  | _ => (w, Ok None)
  end.

(** The [while] loop of [received_init].  [expected] is
    [len(house_memberships)], [msg_truthy] the test [if msg:], [additional]
    the list [additional_events] so far, [inbox] the frames still to come.
    The result carries the frames that were not received. *)
Fixpoint init_loop (expected : nat) (msg_truthy : bool) (additional : list WSMessage)
    (inbox : list WSMessage) (w : HivenWebSocket)
    : list WSMessage * HivenWebSocket * outcome (list WSMessage) :=
  if negb (Nat.eqb expected (houses_len (storage w))) then
    match inbox with
    | [] => ([], w, Blocked)
    | m :: inbox' =>
        match wait_for_event received_init_event m w with
        | (w1, Raise e) => (inbox', w1, Raised e)
        | (w1, Ok ws_event) =>
            if msg_truthy then
              match ws_event with
              | None => (inbox', w1, Raised none_json)
              | Some ev =>
                  match json_dict ev with
                  | Raise e => (inbox', w1, Raised e)
                  | Ok j =>
                      let '(_, event, d) := extract_event j in
                      if str_eq event "HOUSE_JOIN" then
                        init_loop expected msg_truthy additional inbox'
                          (set_storage (add_or_update_house d (storage w1)) w1)
                      else
                        init_loop expected msg_truthy (additional ++ [ev]) inbox' w1
                  end
              end
            else init_loop expected msg_truthy additional inbox' w1
        end
    end
  else (inbox, w, Done additional).

(** The type of [received_message], used for the replay. *)
Definition Handler : Type :=
  WSMessage → list WSMessage → HivenWebSocket →
  list WSMessage * HivenWebSocket * outcome unit.

(** [for event in additional_events: await self.received_message(event)] *)
Fixpoint replay (handle : Handler) (events : list WSMessage) (inbox : list WSMessage)
    (w : HivenWebSocket) : list WSMessage * HivenWebSocket * outcome unit :=
  match events with
  | [] => (inbox, w, Done tt)
  | ev :: events' =>
      match handle ev inbox w with
      | (inbox1, w1, Done _) => replay handle events' inbox1 w1
      | r => r
      end
  end.

(** What [received_init] does when its loops are over. *)
Definition init_epilogue (inbox : list WSMessage) (w : HivenWebSocket)
    : list WSMessage * HivenWebSocket * outcome unit :=
  match _connection_start w with
  | None =>
      (inbox, w, Raised (mkExc TypeError
                           "unsupported operand type(s) for -: 'float' and 'NoneType'"))
  | Some t0 =>
      let w1 := set_startup_time (clock w - t0) w in
      let w2 := emit (CallListeners "ready") w1 in
      (inbox, set_ready true w2, Done tt)
  end.

(** [HivenWebSocket.received_init]; [handle] is [self.received_message]. *)
Definition received_init_with (handle : Handler) (msg : gmap string PyVal)
    (inbox : list WSMessage) (w : HivenWebSocket)
    : list WSMessage * HivenWebSocket * outcome unit :=
  let w := emit (CallListeners "init") w in
  match msg !! "d" with
  | None => (inbox, w, Raised (mkExc KeyError "'d'"))
  | Some data =>
      match data with
      | VDict dm =>
          let house_memberships := default (VDict ∅) (dm !! "house_memberships") in
          let w := set_storage (update_all data (storage w)) w in
          match py_len house_memberships with
          | None => (inbox, w, Raised (mkExc TypeError "object has no len()"))
          | Some expected =>
              match init_loop expected (bool_decide (msg ≠ ∅)) [] inbox w with
              | (inbox1, w1, Done additional_events) =>
                  match replay handle additional_events inbox1 w1 with
                  | (inbox2, w2, Done _) => init_epilogue inbox2 w2
                  | r => r
                  end
              | (inbox1, w1, Raised e) => (inbox1, w1, Raised e)
              | (inbox1, w1, Blocked) => (inbox1, w1, Blocked)
              | (inbox1, w1, OutOfFuel) => (inbox1, w1, OutOfFuel)
              end
          end
      | _ => (inbox, w, Raised no_get)
      end
  end.

(** [HivenWebSocket.received_message].  [fuel] bounds how deep handshakes
    may nest: a queued [INIT_STATE] frame starts a handshake inside the
    replay of the one that queued it. *)
Fixpoint received_message (fuel : nat) (msg : WSMessage) (inbox : list WSMessage)
    (w : HivenWebSocket) : list WSMessage * HivenWebSocket * outcome unit :=
  match fuel with
  | 0 => (inbox, w, OutOfFuel)
  | S fuel' =>
      match json_dict msg with
      | Raise e => (inbox, w, Raised e)
      | Ok m =>
          let '(op, event, data) := extract_event m in
          if int_eq op OP_CONNECTION_START then
            (inbox, set_open true (set_connection_start (clock w) w), Done tt)
          else if int_eq op OP_EVENT then
            if str_eq event "INIT_STATE" then
              received_init_with (received_message fuel') m inbox w
            else
              (inbox,
               set_storage (parsers_dispatch event data (storage w))
                 (emit (ParsersDispatch event data) w),
               Done tt)
          else (inbox, w, Done tt)
      end
  end.

(** [HivenWebSocket.received_init] *)
Definition received_init (fuel : nat) (msg : gmap string PyVal)
    (inbox : list WSMessage) (w : HivenWebSocket)
    : list WSMessage * HivenWebSocket * outcome unit :=
  received_init_with (received_message fuel) msg inbox w.

(** [HivenWebSocket.wait_for_event] as the listening loop calls it, without
    a handler: the next frame of [inbox] is received and, when it is a
    [TEXT] frame, handed to [received_message].  Without a frame the call
    stays suspended in [socket.receive()]. *)
Definition wait_for_event_default (fuel : nat) (inbox : list WSMessage)
    (w : HivenWebSocket) : list WSMessage * HivenWebSocket * outcome unit :=
  match inbox with
  | [] => ([], w, Blocked)
  | msg :: inbox' =>
      match msg_type msg with
      | TEXT => received_message fuel msg inbox' w
      | BINARY => (inbox', w, Done tt)
      | CLOSE | CLOSING => (inbox', w, Raised (mkExc RestartSessionError ""))
      | CLOSED => (inbox', set_open false w, Raised (mkExc WebSocketClosedError ""))
      | ERROR =>
          (inbox', w, Raised (mkExc WebSocketClosedError
                                "[WEBSOCKET] Encountered an Exception in the Websocket!"))
      | _ => (inbox', w, Done tt)
      end
  end.

(** [HivenWebSocket.listening_loop]: [while True] around [wait_for_event].
    [steps] bounds the number of turns that are followed. *)
Fixpoint listening_loop (fuel steps : nat) (inbox : list WSMessage)
    (w : HivenWebSocket) : list WSMessage * HivenWebSocket * outcome unit :=
  match steps with
  | 0 => (inbox, w, OutOfFuel)
  | S steps' =>
      match wait_for_event_default fuel inbox w with
      | (inbox1, w1, Done _) => listening_loop fuel steps' inbox1 w1
      | r => r
      end
  end.

(** ** What the handshake loop is expected to compute *)

(** a [TEXT] frame whose JSON document is an object *)
Definition text_dict (m : WSMessage) : bool :=
  match msg_type m, msg_json m with
  | TEXT, Some (VDict _) => true
  | _, _ => false
  end.

(** the event name and the payload of a frame *)
Definition frame_event (m : WSMessage) : PyVal :=
  match msg_json m with Some (VDict j) => dict_get "e" j | _ => VNone end.

Definition frame_data (m : WSMessage) : PyVal :=
  match msg_json m with Some (VDict j) => dict_get "d" j | _ => VNone end.

Definition frame_op (m : WSMessage) : PyVal :=
  match msg_json m with Some (VDict j) => dict_get "op" j | _ => VNone end.

(** the per-entity sync frame *)
Definition is_house_join (m : WSMessage) : bool := str_eq (frame_event m) "HOUSE_JOIN".

(** an [EVENT] frame *)
Definition is_event (m : WSMessage) : bool := int_eq (frame_op m) OP_EVENT.

(** an [EVENT] frame that starts a handshake *)
Definition is_init_state (m : WSMessage) : bool :=
  is_event m && str_eq (frame_event m) "INIT_STATE".

(** the storage after the [HOUSE_JOIN] frames among [frames] *)
Definition apply_joins (frames : list WSMessage) (s : Storage) : Storage :=
  foldl (fun s m => if is_house_join m then add_or_update_house (frame_data m) s else s)
        s frames.

(** the frames among [frames] that go to the spillover queue, in order *)
Definition queued (frames : list WSMessage) : list WSMessage :=
  filter (fun m => is_house_join m = false) frames.

(** the handshake is complete after exactly the frames [pre] *)
Definition completes_after (expected : nat) (pre : list WSMessage) (s : Storage) : Prop :=
  Forall (fun m => text_dict m = true) pre
  ∧ (∀ k, k < List.length pre → houses_len (apply_joins (take k pre) s) ≠ expected)
  ∧ houses_len (apply_joins pre s) = expected.

(** [received_message] on a frame that does not start a handshake *)
Definition handle_plain (m : WSMessage) (w : HivenWebSocket) : HivenWebSocket :=
  if int_eq (frame_op m) OP_CONNECTION_START then
    set_open true (set_connection_start (clock w) w)
  else if int_eq (frame_op m) OP_EVENT then
    set_storage (parsers_dispatch (frame_event m) (frame_data m) (storage w))
      (emit (ParsersDispatch (frame_event m) (frame_data m)) w)
  else w.

(** the calls to [parsers.dispatch] that a replay of [events] makes *)
Definition dispatches_of (events : list WSMessage) : list Action :=
  (fun m => ParsersDispatch (frame_event m) (frame_data m)) <$> filter is_event events.

(** A handler that is within the bound on nested handshakes whenever fewer
    than [bound] frames are still to come, and that only consumes frames. *)
Definition within_bound (bound : nat) (handle : Handler) : Prop :=
  ∀ (m : WSMessage) (inbox : list WSMessage) (w : HivenWebSocket),
    List.length inbox < bound →
    (handle m inbox w).2 ≠ OutOfFuel
    ∧ List.length (handle m inbox w).1.1 ≤ List.length inbox.

(** a frame for which [wait_for_event] has nothing to do *)
Definition is_dropped (m : WSMessage) : bool :=
  match msg_type m with
  | BINARY | PING | PONG | CONTINUATION => true
  | _ => false
  end.

(** a frame on which [wait_for_event] raises *)
Definition is_closing (m : WSMessage) : bool :=
  match msg_type m with
  | CLOSE | CLOSING | CLOSED | ERROR => true
  | _ => false
  end.

(** a frame of the steady state: dropped, or a well-formed [TEXT] frame that
    does not start a handshake *)
Definition steady (m : WSMessage) : bool :=
  is_dropped m || (text_dict m && negb (is_init_state m)).

(** the frames among [frames] that reach [received_message], in order *)
Definition texts (frames : list WSMessage) : list WSMessage :=
  filter (fun m => is_dropped m = false) frames.

(** a tick during which the event loop only runs heartbeat tasks and the
    sleep is not cancelled *)
Definition quiet_event (ev : EnvEvent) : bool :=
  match ev with RunTask _ _ => true | _ => false end.

Definition quiet (t : Tick) : bool :=
  forallb quiet_event (during t) && negb (cancelled t).

End WithClient.

Arguments HivenWebSocket Storage : clear implicits.
Arguments KeepAlive Storage : clear implicits.

(** ** A client used to exercise the statements

    The storage is the list of the ids of the houses it knows;
    [update_all] and the parsers leave the houses alone. *)

Definition demo_add_house (d : PyVal) (s : list string) : list string :=
  match d with
  | VDict m =>
      match m !! "id" with
      | Some (VStr i) => if bool_decide (i ∈ s) then s else s ++ [i]
      | _ => s
      end
  | _ => s
  end.

#[export] Instance demo_client : Client (list string) :=
  mkClient (list string) (fun _ s => s) demo_add_house (fun s => List.length s) (fun _ _ s => s).

Definition demo_ws (houses : list string) (outcomes : list (option PyExc))
    : HivenWebSocket (list string) :=
  mkWs false false None (Some 0%Z) (VStr "token") 30000 houses 5%Z [] outcomes [].

(** the JSON object of an [EVENT] frame *)
Definition event_dict (e : string) (d : PyVal) : gmap string PyVal :=
  <[ "op" := VInt OP_EVENT ]> (<[ "e" := VStr e ]> {[ "d" := d ]}).

Definition event_frame (e : string) (d : PyVal) : WSMessage :=
  mkMsg TEXT (Some (VDict (event_dict e d))).

Definition house_join (i : string) : WSMessage :=
  event_frame "HOUSE_JOIN" (VDict {[ "id" := VStr i ]}).

(** the payload of an [INIT_STATE] frame that announces the houses [ids] *)
Definition manifest (ids : list string) : gmap string PyVal :=
  {[ "house_memberships" := VDict (list_to_map ((fun i => (i, VDict ∅)) <$> ids)) ]}.

Definition init_state (ids : list string) : WSMessage :=
  event_frame "INIT_STATE" (VDict (manifest ids)).

(** A handshake for two houses: a message arrives between the two
    [HOUSE_JOIN] frames, and one more frame follows the handshake. *)
Definition demo_pre : list WSMessage :=
  [ house_join "h1"; event_frame "MESSAGE_CREATE" VNone; house_join "h2" ].

Definition demo_post : list WSMessage := [ event_frame "TYPING_START" VNone ].

(** A handshake for one house during which a second [INIT_STATE] frame,
    for two houses, arrives. *)
Definition demo_nested : list WSMessage :=
  [ init_state ["h1"; "h2"]; event_frame "MESSAGE_CREATE" VNone; house_join "h1";
    event_frame "TYPING_START" VNone; house_join "h2" ].

(** the names of the events handed to [parsers.dispatch], in order *)
Definition dispatched_names (tr : list Action) : list PyVal :=
  omap (fun a => match a with ParsersDispatch e _ => Some e | _ => None end) tr.

Definition demo_keep_alive (outcomes : list (option PyExc)) : KeepAlive (list string) :=
  mkKeepAlive (set_open true (demo_ws [] outcomes)) None false [].

(** a write error of the transport *)
Definition connection_reset : PyExc :=
  mkExc (UserException "ConnectionResetError") "Cannot write to closing transport".

(** Two keep-alive objects that differ at most in what the transport did
    with the heartbeats: in the socket of the websocket and in the results
    stored in the tasks. *)
Definition same_control {Storage : Type} (k k' : KeepAlive Storage) : Prop :=
  _open (ws k) = _open (ws k') ∧ _active k = _active k' ∧ _task k = _task k'
  ∧ Forall2 (fun t t' => match t, t' with
                         | Pending, Pending => True
                         | Cancelled, Cancelled => True
                         | Finished _, Finished _ => True
                         | _, _ => False
                         end) (tasks k) (tasks k').

(** the keep-alive object with another script for the transport *)
Definition with_outcomes {Storage : Type} (o : list (option PyExc))
    (k : KeepAlive Storage) : KeepAlive Storage :=
  mkKeepAlive (set_socket o (socket_sent (ws k)) (ws k)) (_task k) (_active k) (tasks k).

End Gateway.

(* ===================================================================== *)
(** * Facts about events/__init__.py *)
(* ===================================================================== *)

Module EventsFacts.
Import Events.

(** ** [str.replace('on_', '')] *)

Lemma replace_on__prefix (s : string) :
  replace_on_ ("on_" +:+ s) = replace_on_ s.
Proof. reflexivity. Qed.

(** the three cases of one step of the scan *)
Lemma replace_on__step (c1 : ascii) (r1 : string) :
  (∃ r3, c1 = "o"%char ∧ r1 = String "n" (String "_" r3) ∧
         replace_on_ (String c1 r1) = replace_on_ r3)
  ∨ (replace_on_ (String c1 r1) = String c1 (replace_on_ r1) ∧
     ∀ r3, ¬ (c1 = "o"%char ∧ r1 = String "n" (String "_" r3))).
Proof.
  destruct r1 as [|c2 [|c3 r3]].
  - right. split; [reflexivity|]. intros r3 [_ H]. discriminate.
  - right. split; [reflexivity|]. intros r3 [_ H]. discriminate.
  - cbn [replace_on_].
    destruct (Ascii.eqb_spec c1 "o"); cbn [andb].
    + destruct (Ascii.eqb_spec c2 "n"); cbn [andb].
      * destruct (Ascii.eqb_spec c3 "_"); subst.
        -- left. eauto.
        -- right. split; [reflexivity|]. intros r [_ H]. congruence.
      * right. split; [reflexivity|]. intros r [_ H]. congruence.
    + right. split; [reflexivity|]. intros r [H _]. congruence.
Qed.

(** An occurrence of ['on_'] is dropped wherever it stands: the scan of
    what precedes it never runs into it, because no proper suffix of
    ['on_'] starts another ['on_']. *)
Lemma replace_on__anywhere (x y : string) :
  replace_on_ (x +:+ "on_" +:+ y) = replace_on_ x +:+ replace_on_ y.
Proof.
  remember (String.length x) as n eqn:Hn.
  revert x Hn. induction (lt_wf n) as [n _ IH]. intros x Hn.
  destruct x as [|c1 r1].
  - reflexivity.
  - destruct (replace_on__step c1 r1) as [(r3 & -> & -> & E)|[E N]].
    + rewrite E.
      change (replace_on_ (String "o" (String "n" (String "_" r3)) +:+ "on_" +:+ y))
        with (replace_on_ (r3 +:+ "on_" +:+ y)).
      apply (IH (String.length r3)); [|reflexivity].
      subst n. cbn [String.length]. lia.
    + rewrite E.
      change (String c1 r1 +:+ "on_" +:+ y) with (String c1 (r1 +:+ "on_" +:+ y)).
      change (String c1 (replace_on_ r1) +:+ replace_on_ y)
        with (String c1 (replace_on_ r1 +:+ replace_on_ y)).
      destruct (replace_on__step c1 (r1 +:+ "on_" +:+ y)) as [(r3 & -> & Hr & _)|[E' _]].
      * exfalso.
        destruct r1 as [|c2 [|c3 r4]].
        -- discriminate Hr.
        -- discriminate Hr.
        -- injection Hr as -> -> _. apply (N r4). split; reflexivity.
      * rewrite E'. f_equal.
        apply (IH (String.length r1)); [|reflexivity].
        subst n. cbn [String.length]. lia.
Qed.

(** ** [list.remove] *)

Lemma list_remove_is_Some (x : Listener) (l : list Listener) :
  lid x ∈ lid <$> l → is_Some (list_remove x l).
Proof.
  induction l as [|y l IH]; cbn [list_remove fmap list_fmap].
  - intros H. apply elem_of_nil in H. destruct H.
  - intros H. destruct (Nat.eqb_spec (lid y) (lid x)) as [E|E]; [eauto|].
    apply elem_of_cons in H as [H|H]; [congruence|].
    destruct (IH H) as [r ->]. eauto.
Qed.

Lemma list_remove_elem (x : Listener) (l l' : list Listener) (y : Listener) :
  list_remove x l = Some l' → y ∈ l' → y ∈ l.
Proof.
  revert l'. induction l as [|z l IH]; cbn [list_remove]; intros l' H Hy.
  - discriminate.
  - destruct (Nat.eqb_spec (lid z) (lid x)) as [E|E].
    + inversion H; subst. apply elem_of_cons; auto.
    + destruct (list_remove x l) as [r|] eqn:Hr; [|discriminate].
      inversion H; subst.
      apply elem_of_cons in Hy as [->|Hy]; apply elem_of_cons; eauto.
Qed.

Lemma list_remove_keeps (x : Listener) (l l' : list Listener) (y : Listener) :
  list_remove x l = Some l' → y ∈ l → lid y ≠ lid x → y ∈ l'.
Proof.
  revert l'. induction l as [|z l IH]; cbn [list_remove]; intros l' H Hy Hne.
  - discriminate.
  - destruct (Nat.eqb_spec (lid z) (lid x)) as [E|E].
    + inversion H; subst.
      apply elem_of_cons in Hy as [->|Hy]; [congruence|assumption].
    + destruct (list_remove x l) as [r|] eqn:Hr; [|discriminate].
      inversion H; subst.
      apply elem_of_cons in Hy as [->|Hy]; apply elem_of_cons; eauto.
Qed.

Lemma list_remove_ids (x : Listener) (l l' : list Listener) (i : nat) :
  list_remove x l = Some l' → i ∈ lid <$> l' → i ∈ lid <$> l.
Proof.
  intros H Hi. apply list_elem_of_fmap in Hi as (y & -> & Hy).
  apply list_elem_of_fmap_2. eapply list_remove_elem; eauto.
Qed.

Lemma list_remove_NoDup (x : Listener) (l l' : list Listener) :
  list_remove x l = Some l' → NoDup (lid <$> l) →
  NoDup (lid <$> l') ∧ lid x ∉ lid <$> l'.
Proof.
  revert l'. induction l as [|z l IH]; cbn [list_remove fmap list_fmap]; intros l' H Hnd.
  - discriminate.
  - apply NoDup_cons in Hnd as [Hz Hnd].
    destruct (Nat.eqb_spec (lid z) (lid x)) as [E|E].
    + inversion H; subst. split; [assumption|]. rewrite <- E. exact Hz.
    + destruct (list_remove x l) as [r|] eqn:Hr; [|discriminate].
      inversion H; subst. destruct (IH r eq_refl Hnd) as [Hnd' Hx].
      split.
      * cbn [fmap list_fmap]. apply NoDup_cons. split; [|assumption].
        intros Hin. apply Hz. eapply list_remove_ids; eauto.
      * cbn [fmap list_fmap]. apply not_elem_of_cons. split; [congruence|assumption].
Qed.

(** ** One listener *)

Lemma handler_eq (c c' : HivenEventHandler) :
  next_id c = next_id c' → objects c = objects c' →
  _active_listeners c = _active_listeners c' →
  log c = log c' → calls c = calls c' → c = c'.
Proof. destruct c, c'; cbn; intros; subst; reflexivity. Qed.

Lemma alter_twice (f g : SingleState → SingleState) (i : nat)
    (m : gmap nat SingleState) :
  alter f i (alter g i m) = alter (fun s => f (g s)) i m.
Proof.
  apply map_eq. intros j.
  destruct (decide (i = j)) as [->|Hne].
  - rewrite !lookup_alter_eq. destruct (m !! j); reflexivity.
  - rewrite !lookup_alter_ne by assumption. reflexivity.
Qed.

Lemma Multi_dispatch_eq (x : Listener) (event_data : PyVal) (args : list PyVal)
    (kwargs : gmap string PyVal) (c : HivenEventHandler) :
  single x = false →
  Multi_dispatch x event_data args kwargs c
  = (after_body event_data args kwargs x c,
     match escape_of args kwargs x with
     | Some b => RaiseBase b
     | None => Ok event_data
     end).
Proof.
  intros Hs.
  unfold Multi_dispatch, bind, ret, await_coro_logged, after_body,
    call_of, log_of, failure_of, escape_of, outcome_of, iscoroutinefunction,
    record_call, log_traceback.
  rewrite Hs.
  destruct (coro x) as [f|]; [destruct (fn_async f); [destruct (fn_body f args kwargs)|]|];
    cbn; f_equal; apply handler_eq; cbn; rewrite ?app_nil_r; reflexivity.
Qed.

Lemma Single_dispatch_eq (x : Listener) (event_data : PyVal) (args : list PyVal)
    (kwargs : gmap string PyVal) (c : HivenEventHandler) :
  single x = true →
  Single_dispatch x event_data args kwargs c
  = match escape_of args kwargs x with
    | Some b => (after_body event_data args kwargs x c, RaiseBase b)
    | None =>
        match remove_listener x (after_body event_data args kwargs x c) with
        | (c2, Ok _) => (c2, Ok event_data)
        | (c2, Raise e) => (c2, Raise e)
        | (c2, RaiseBase b) => (c2, RaiseBase b)
        end
    end.
Proof.
  intros Hs.
  assert (E : ∀ c1 c2, c1 = c2 →
            (remove_listener x;;; ret event_data) c1
            = match remove_listener x c2 with
              | (c3, Ok _) => (c3, Ok event_data)
              | (c3, Raise e) => (c3, Raise e)
              | (c3, RaiseBase b) => (c3, RaiseBase b)
              end).
  { intros c1 c2 ->. unfold bind, ret.
    destruct (remove_listener x c2) as [c3 [[]|e|b]]; reflexivity. }
  unfold Single_dispatch, after_body, fired, call_of, log_of, failure_of, escape_of,
    outcome_of, iscoroutinefunction, await_coro_logged.
  rewrite Hs.
  destruct (coro x) as [f|];
    [destruct (fn_async f); [destruct (fn_body f args kwargs) as [[]|e|b]|]|];
    cbv [bind modify ret] in E |- *;
    first [ apply E; apply handler_eq; cbn; rewrite ?app_nil_r, ?alter_twice; reflexivity
          | f_equal; apply handler_eq; cbn; rewrite ?app_nil_r, ?alter_twice; reflexivity ].
Qed.

Lemma bind_singleton {A B} (f : A → list B) (x : A) : [x] ≫= f = f x.
Proof. cbn. apply app_nil_r. Qed.

Lemma in_singleton {A} (x y : A) : x ∈ [y] → x = y.
Proof. intros H. apply list_elem_of_singleton in H. exact H. Qed.

(** a listener that is called while it sits in its own bucket *)
Lemma Listener_call_spec (name : string) (event_data : PyVal) (args : list PyVal)
    (kwargs : gmap string PyVal) (x : Listener) (B : list Listener)
    (c : HivenEventHandler) :
  event_name x = name →
  _active_listeners c !! name = Some B →
  NoDup (lid <$> B) →
  (single x = true → lid x ∈ lid <$> B) →
  ∃ c' B', Listener_call x event_data args kwargs c
           = (c', match escape_of args kwargs x with
                  | Some b => RaiseBase b
                  | None => Ok event_data
                  end)
           ∧ run_post name event_data args kwargs [x] B c c' B'.
Proof.
  intros Hname HB Hnd Hin. unfold Listener_call.
  destruct (single x) eqn:Hs.
  - (* single *)
    rewrite Single_dispatch_eq by assumption.
    specialize (Hin eq_refl).
    destruct (escape_of args kwargs x) as [b|] eqn:Hesc.
    + (* the callback leaves the method: the listener stays *)
      eexists _, B. split; [reflexivity|].
      constructor; cbn; rewrite ?Hs.
      * reflexivity.
      * symmetry. apply insert_id. assumption.
      * auto.
      * assumption.
      * intros z Hz _ Hnone. apply in_singleton in Hz. subst z. congruence.
      * auto.
      * rewrite app_nil_r. reflexivity.
      * rewrite app_nil_r. reflexivity.
      * intros z Hz _. apply in_singleton in Hz. subst z. apply lookup_alter_eq.
      * intros j Hj. apply lookup_alter_ne.
        apply Hj; [apply list_elem_of_singleton; reflexivity|assumption].
      * intros j Hj. apply lookup_alter_is_Some. assumption.
    + destruct (list_remove_is_Some x B Hin) as [B' HB'].
      destruct (list_remove_NoDup x B B' HB' Hnd) as [Hnd' Hx].
      unfold remove_listener. cbn [_active_listeners after_body].
      rewrite Hname, HB.
      destruct B as [|y l]; [apply elem_of_nil in Hin; destruct Hin|].
      rewrite HB'.
      eexists _, B'. split; [reflexivity|].
      constructor; cbn; rewrite ?Hs.
      * reflexivity.
      * reflexivity.
      * intros z Hz. eapply list_remove_elem; eauto.
      * assumption.
      * intros z Hz _ _. apply in_singleton in Hz. subst z. assumption.
      * intros z Hz Hne. eapply list_remove_keeps; eauto.
        intros E. apply (Hne x); [apply list_elem_of_singleton; reflexivity
                                  |assumption|assumption|].
        symmetry. exact E.
      * rewrite app_nil_r. reflexivity.
      * rewrite app_nil_r. reflexivity.
      * intros z Hz _. apply in_singleton in Hz. subst z. apply lookup_alter_eq.
      * intros j Hj. apply lookup_alter_ne.
        apply Hj; [apply list_elem_of_singleton; reflexivity|assumption].
      * intros j Hj. apply lookup_alter_is_Some. assumption.
  - (* multi *)
    rewrite Multi_dispatch_eq by assumption.
    eexists _, B. split; [reflexivity|].
    constructor; cbn; rewrite ?Hs.
    + reflexivity.
    + symmetry. apply insert_id. assumption.
    + auto.
    + assumption.
    + intros z Hz Hz'. apply in_singleton in Hz. subst z. congruence.
    + auto.
    + rewrite app_nil_r. reflexivity.
    + rewrite app_nil_r. reflexivity.
    + intros z Hz Hz'. apply in_singleton in Hz. subst z. congruence.
    + reflexivity.
    + auto.
Qed.

Lemma run_post_nil (name : string) (event_data : PyVal) (args : list PyVal)
    (kwargs : gmap string PyVal) (B : list Listener) (c : HivenEventHandler) :
  _active_listeners c !! name = Some B → NoDup (lid <$> B) →
  run_post name event_data args kwargs [] B c c B.
Proof.
  intros HB Hnd. constructor; cbn; rewrite ?app_nil_r; auto.
  - symmetry. apply insert_id. assumption.
  - intros x Hx. apply elem_of_nil in Hx. destruct Hx.
  - intros x Hx. apply elem_of_nil in Hx. destruct Hx.
Qed.

Lemma run_post_cons (name : string) (event_data : PyVal) (args : list PyVal)
    (kwargs : gmap string PyVal) (x : Listener) (ls B B1 B' : list Listener)
    (c c1 c' : HivenEventHandler) :
  lid x ∉ lid <$> ls →
  run_post name event_data args kwargs [x] B c c1 B1 →
  run_post name event_data args kwargs ls B1 c1 c' B' →
  run_post name event_data args kwargs (x :: ls) B c c' B'.
Proof.
  intros Hx [n1 r1 s1 d1 g1 k1 ca1 lo1 f1 o1 dm1] [n2 r2 s2 d2 g2 k2 ca2 lo2 f2 o2 dm2].
  assert (Hsing : x ∈ [x]) by (apply list_elem_of_singleton; reflexivity).
  constructor.
  - congruence.
  - rewrite r2, r1. apply insert_insert_eq.
  - auto.
  - assumption.
  - intros z Hz Hs Hn. apply elem_of_cons in Hz as [->|Hz]; [|auto].
    intros Hin. apply (g1 x Hsing Hs Hn).
    apply list_elem_of_fmap in Hin as (y & E & Hy).
    rewrite E. apply list_elem_of_fmap_2. auto.
  - intros y Hy Hne. apply k2.
    + apply k1; [assumption|]. intros z Hz Hs Hn. apply in_singleton in Hz. subst z.
      apply Hne; [apply elem_of_cons; auto|assumption|assumption].
    + intros z Hz Hs Hn. apply Hne; [apply elem_of_cons; auto|assumption|assumption].
  - rewrite ca2, ca1, bind_singleton, bind_cons, app_assoc. reflexivity.
  - rewrite lo2, lo1, bind_singleton, bind_cons, app_assoc. reflexivity.
  - intros z Hz Hs. apply elem_of_cons in Hz as [->|Hz].
    + rewrite o2; [apply f1; assumption|].
      intros y Hy _ E. apply Hx. rewrite <- E. apply list_elem_of_fmap_2. assumption.
    + rewrite f2 by assumption. f_equal. apply o1.
      intros y Hy _ E. apply in_singleton in Hy. subst y.
      apply Hx. rewrite E. apply list_elem_of_fmap_2. assumption.
  - intros j Hj. rewrite o2.
    + apply o1. intros y Hy Hs. apply in_singleton in Hy. subst y.
      apply Hj; [apply elem_of_cons; auto|assumption].
    + intros y Hy Hs. apply Hj; [apply elem_of_cons; auto|assumption].
  - auto.
Qed.

(** ** All the listeners of one dispatch *)

Lemma gather_cons {A} (t : M A) (ts : list (M A)) (c c1 c2 : HivenEventHandler)
    (r1 : result A) (r2 : result (list A)) :
  t c = (c1, r1) → gather ts c1 = (c2, r2) →
  gather (t :: ts) c
  = (c2, match r1, r2 with
         | Raise e, _ => Raise e
         | RaiseBase b, _ => RaiseBase b
         | Ok _, Raise e => Raise e
         | Ok _, RaiseBase b => RaiseBase b
         | Ok a, Ok l => Ok (a :: l)
         end).
Proof. intros H1 H2. cbn [gather]. rewrite H1, H2. reflexivity. Qed.

Lemma run_listeners_spec (name : string) (event_data : PyVal) (args : list PyVal)
    (kwargs : gmap string PyVal) (ls : list Listener) :
  ∀ (B : list Listener) (c : HivenEventHandler),
    _active_listeners c !! name = Some B →
    NoDup (lid <$> B) →
    NoDup (lid <$> ls) →
    (∀ x, x ∈ ls → event_name x = name ∧ (single x = true → lid x ∈ lid <$> B)) →
    ∃ c' B',
      gather ((fun e => Listener_call e event_data args kwargs) <$> ls) c
        = (c', match first_escape args kwargs ls with
               | Some b => RaiseBase b
               | None => Ok ((fun _ => event_data) <$> ls)
               end)
      ∧ run_post name event_data args kwargs ls B c c' B'.
Proof.
  induction ls as [|x ls IH]; intros B c HB HndB Hnd Hls.
  - exists c, B. split; [reflexivity|]. apply run_post_nil; assumption.
  - cbn [fmap list_fmap] in Hnd. apply NoDup_cons in Hnd as [Hx Hnd].
    destruct (Hls x) as [Hname Hin]; [apply elem_of_cons; auto|].
    destruct (Listener_call_spec name event_data args kwargs x B c Hname HB HndB Hin)
      as (c1 & B1 & Hcall & Hpost1).
    destruct (IH B1 c1) as (c' & B' & Hrun & Hpost2).
    + rewrite (post_reg _ _ _ _ _ _ _ _ _ Hpost1). apply lookup_insert_eq.
    + exact (post_nodup _ _ _ _ _ _ _ _ _ Hpost1).
    + assumption.
    + intros y Hy. destruct (Hls y) as [Hn Hi]; [apply elem_of_cons; auto|].
      split; [assumption|]. intros Hs.
      specialize (Hi Hs). apply list_elem_of_fmap in Hi as (z & E & Hz).
      rewrite E. apply list_elem_of_fmap_2.
      apply (post_kept _ _ _ _ _ _ _ _ _ Hpost1); [assumption|].
      intros w Hw _ _ E'. apply in_singleton in Hw. subst w.
      apply Hx. rewrite E', <- E. apply list_elem_of_fmap_2. assumption.
    + exists c', B'. split.
      * cbn [fmap list_fmap first_escape].
        rewrite (gather_cons _ _ _ _ _ _ _ Hcall Hrun).
        destruct (escape_of args kwargs x); [reflexivity|].
        destruct (first_escape args kwargs ls); reflexivity.
      * eapply run_post_cons; eauto.
Qed.

(** ** [HivenEventHandler.dispatch] *)

Lemma wf_bucket (c : HivenEventHandler) (name : string) (B : list Listener) :
  wf c → _active_listeners c !! name = Some B →
  NoDup (lid <$> B) ∧
  ∀ x, x ∈ B → event_name x = name ∧ (single x = true → lid x ∈ lid <$> B).
Proof.
  intros Hwf HB. destruct (Hwf name B HB) as [Hnd Hall]. split; [assumption|].
  intros x Hx. rewrite Forall_forall in Hall. destruct (Hall x Hx) as (Hn & _ & _).
  split; [assumption|]. intros _. apply list_elem_of_fmap_2. assumption.
Qed.

Lemma dispatch_spec (c : HivenEventHandler) (e : string) (event_data : PyVal)
    (args : list PyVal) (kwargs : gmap string PyVal) :
  wf c →
  ∃ c', dispatch e event_data args kwargs c
        = (c', match first_escape args kwargs (snapshot e c) with
               | Some b => RaiseBase b
               | None => Ok tt
               end)
        ∧ ((snapshot e c = [] ∧ c' = c)
           ∨ (∃ B', _active_listeners c !! replace_on_ e = Some (snapshot e c)
                    ∧ run_post (replace_on_ e) event_data args kwargs
                        (snapshot e c) (snapshot e c) c c' B')).
Proof.
  intros Hwf. unfold dispatch, snapshot.
  destruct (_active_listeners c !! replace_on_ e) as [[|x l]|] eqn:HB; cbn [default].
  - exists c. split; [reflexivity|]. left. split; reflexivity.
  - destruct (wf_bucket c _ _ Hwf HB) as [Hnd Hall].
    destruct (run_listeners_spec (replace_on_ e) event_data args kwargs (x :: l)
                (x :: l) c HB Hnd Hnd Hall) as (c' & B' & Hrun & Hpost).
    exists c'. split.
    + unfold bind, ret, id. rewrite Hrun.
      destruct (first_escape args kwargs (x :: l)); reflexivity.
    + right. exists B'. split; [reflexivity|assumption].
  - exists c. split; [reflexivity|]. left. split; reflexivity.
Qed.

Lemma wf_dispatch (c : HivenEventHandler) (e : string) (event_data : PyVal)
    (args : list PyVal) (kwargs : gmap string PyVal) :
  wf c → wf (fst (dispatch e event_data args kwargs c)).
Proof.
  intros Hwf.
  destruct (dispatch_spec c e event_data args kwargs Hwf)
    as (c' & -> & [[_ ->]|(B' & HB & Hpost)]); cbn [fst]; [assumption|].
  destruct Hpost as [n1 r1 s1 d1 g1 k1 ca1 lo1 f1 o1 dm1].
  intros name B. rewrite r1.
  destruct (decide (replace_on_ e = name)) as [<-|Hne].
  - rewrite lookup_insert_eq. intros [= <-]. split; [assumption|].
    apply Forall_forall. intros x Hx.
    destruct (Hwf _ _ HB) as [_ Hall]. rewrite Forall_forall in Hall.
    destruct (Hall x (s1 x Hx)) as (Hn & Hlt & Hobj).
    unfold listener_ok. rewrite n1. auto.
  - rewrite lookup_insert_ne by assumption. intros HB0.
    destruct (Hwf _ _ HB0) as [Hnd Hall]. split; [assumption|].
    eapply Forall_impl; [exact Hall|].
    intros x (Hn & Hlt & Hobj). unfold listener_ok. rewrite n1. auto.
Qed.

(** ** Registration *)

Lemma new_listener_eq (s : bool) (n : string) (coro : option Function)
    (c : HivenEventHandler) (o : gmap nat SingleState) :
  o = (if s then <[next_id c := mkSingleState false VNone VNone VNone]> (objects c)
       else objects c) →
  add_listener (mkListener (next_id c) s coro n)
    {| next_id := S (next_id c); objects := o;
       _active_listeners := _active_listeners (ensure_bucket n c);
       log := log c; calls := calls c |}
  = fst (registered s n coro c).
Proof.
  intros ->. unfold add_listener, ensure_bucket, registered.
  cbn [event_name _active_listeners fst].
  destruct (_active_listeners c !! n) as [[|y l]|] eqn:HB;
    cbn [_active_listeners set_listeners default];
    rewrite ?HB, ?lookup_insert_eq;
    apply handler_eq; cbn [next_id objects _active_listeners log calls set_listeners];
    rewrite ?insert_insert_eq; reflexivity.
Qed.

Lemma ensure_bucket_fields (n : string) (c : HivenEventHandler) :
  next_id (ensure_bucket n c) = next_id c ∧ objects (ensure_bucket n c) = objects c
  ∧ log (ensure_bucket n c) = log c ∧ calls (ensure_bucket n c) = calls c.
Proof. unfold ensure_bucket. destruct (_ !! _); cbn; auto. Qed.

Lemma add_new_single_event_listener_eq (a : string) (coro : option Function)
    (c : HivenEventHandler) :
  add_new_single_event_listener a coro c
  = (fst (registered true (replace_on_ a) coro c),
     Ok (snd (registered true (replace_on_ a) coro c))).
Proof.
  unfold add_new_single_event_listener, new_SingleDispatchEventListener, bind, modify.
  destruct (ensure_bucket_fields (replace_on_ a) c) as (-> & -> & -> & ->).
  rewrite new_listener_eq by reflexivity. reflexivity.
Qed.

Lemma add_new_multi_event_listener_eq (a : string) (coro : option Function)
    (c : HivenEventHandler) :
  add_new_multi_event_listener a coro c
  = (fst (registered false (replace_on_ a) coro c),
     Ok (snd (registered false (replace_on_ a) coro c))).
Proof.
  unfold add_new_multi_event_listener, new_MultiDispatchEventListener, bind, modify.
  destruct (ensure_bucket_fields (replace_on_ a) c) as (-> & -> & -> & ->).
  rewrite new_listener_eq by reflexivity. reflexivity.
Qed.

Lemma wf_registered (s : bool) (n : string) (coro : option Function)
    (c : HivenEventHandler) :
  wf c → wf (fst (registered s n coro c)).
Proof.
  intros Hwf name B. unfold registered. cbn [fst _active_listeners].
  assert (Hold : ∀ m x, listener_ok c m x →
            listener_ok {| next_id := S (next_id c);
                           objects := if s then <[next_id c := mkSingleState false VNone VNone VNone]>
                                                  (objects c) else objects c;
                           _active_listeners :=
                             <[n := default [] (_active_listeners c !! n)
                                      ++ [mkListener (next_id c) s coro n]]> (_active_listeners c);
                           log := log c; calls := calls c |} m x).
  { intros m x (Hn & Hlt & Hobj). unfold listener_ok. cbn [next_id objects].
    split; [assumption|]. split; [lia|]. intros Hs. specialize (Hobj Hs).
    destruct s; [|assumption]. rewrite lookup_insert_ne by lia. assumption. }
  destruct (decide (n = name)) as [<-|Hne].
  - rewrite lookup_insert_eq. intros [= <-].
    assert (HB : NoDup (lid <$> default [] (_active_listeners c !! n))
                 ∧ Forall (listener_ok c n) (default [] (_active_listeners c !! n))).
    { destruct (_active_listeners c !! n) as [B|] eqn:HB; cbn [default].
      - apply Hwf. assumption.
      - split; [constructor|constructor]. }
    destruct HB as [Hnd Hall]. split.
    + rewrite fmap_app. apply NoDup_app. split; [assumption|]. split; [|apply NoDup_singleton].
      intros i Hi Hi'. cbn in Hi'. apply in_singleton in Hi'. subst i.
      apply list_elem_of_fmap in Hi as (y & E & Hy).
      rewrite Forall_forall in Hall. destruct (Hall y Hy) as (_ & Hlt & _). lia.
    + apply Forall_app. split.
      * eapply Forall_impl; [exact Hall|]. intros x Hx. apply Hold. assumption.
      * constructor; [|constructor]. unfold listener_ok. cbn.
        split; [reflexivity|]. split; [lia|]. intros ->.
        rewrite lookup_insert_eq. eauto.
  - rewrite lookup_insert_ne by assumption. intros HB.
    destruct (Hwf _ _ HB) as [Hnd Hall]. split; [assumption|].
    eapply Forall_impl; [exact Hall|]. intros x Hx. apply Hold. assumption.
Qed.

Lemma wf_remove_listener (x : Listener) (c : HivenEventHandler) :
  wf c → wf (fst (remove_listener x c)).
Proof.
  intros Hwf. unfold remove_listener.
  destruct (_active_listeners c !! event_name x) as [[|y l]|] eqn:HB; cbn [fst];
    try assumption.
  destruct (list_remove x (y :: l)) as [l'|] eqn:Hl; cbn [fst]; [|assumption].
  destruct (Hwf _ _ HB) as [Hnd Hall].
  intros name B. cbn [_active_listeners set_listeners].
  destruct (decide (event_name x = name)) as [<-|Hne].
  - rewrite lookup_insert_eq. intros [= <-]. split.
    + apply (list_remove_NoDup x (y :: l) l' Hl Hnd).
    + apply Forall_forall. intros z Hz. rewrite Forall_forall in Hall.
      apply (Hall z). eapply list_remove_elem; eauto.
  - rewrite lookup_insert_ne by assumption. apply Hwf.
Qed.

Lemma wf_empty_handler : wf empty_handler.
Proof. intros name B H. cbn in H. rewrite lookup_empty in H. discriminate. Qed.

Lemma wf_add_new_multi_event_listener (a : string) (coro : option Function)
    (c : HivenEventHandler) :
  wf c → wf (fst (add_new_multi_event_listener a coro c)).
Proof. intros H. rewrite add_new_multi_event_listener_eq. apply wf_registered, H. Qed.

Lemma wf_add_new_single_event_listener (a : string) (coro : option Function)
    (c : HivenEventHandler) :
  wf c → wf (fst (add_new_single_event_listener a coro c)).
Proof. intros H. rewrite add_new_single_event_listener_eq. apply wf_registered, H. Qed.

Lemma registered_registered_in (s : bool) (n : string) (coro : option Function)
    (c : HivenEventHandler) :
  wf c → registered_in (snd (registered s n coro c)) (fst (registered s n coro c)).
Proof.
  intros Hwf. unfold registered_in, registered. cbn [fst snd event_name _active_listeners lid].
  split.
  - rewrite lookup_insert_eq. cbn [default]. apply elem_of_app. right.
    apply list_elem_of_singleton. reflexivity.
  - intros name B HB Hne. rewrite lookup_insert_ne in HB by congruence.
    destruct (Hwf _ _ HB) as [_ Hall]. rewrite Forall_forall in Hall.
    intros Hin. apply list_elem_of_fmap in Hin as (y & E & Hy).
    destruct (Hall y Hy) as (_ & Hlt & _). lia.
Qed.

(** ** Which dispatch reaches a registered listener *)

Lemma elem_of_bind_call_of (args : list PyVal) (kwargs : gmap string PyVal)
    (ls : list Listener) (i : nat) :
  mkCall i args kwargs ∈ ls ≫= call_of args kwargs
  ↔ ∃ y, y ∈ ls ∧ iscoroutinefunction (coro y) = true ∧ lid y = i.
Proof.
  rewrite list_elem_of_bind. split.
  - intros (y & Hc & Hy). exists y. unfold call_of in Hc.
    destruct (iscoroutinefunction (coro y)).
    + apply in_singleton in Hc. injection Hc as ->. auto.
    + apply elem_of_nil in Hc. destruct Hc.
  - intros (y & Hy & Hc & <-). exists y. split; [|assumption].
    unfold call_of. rewrite Hc. apply list_elem_of_singleton. reflexivity.
Qed.

Lemma dispatch_new_calls (c : HivenEventHandler) (e : string) (event_data : PyVal)
    (args : list PyVal) (kwargs : gmap string PyVal) :
  wf c →
  new_calls c (fst (dispatch e event_data args kwargs c))
  = snapshot e c ≫= call_of args kwargs.
Proof.
  intros Hwf. unfold new_calls.
  destruct (dispatch_spec c e event_data args kwargs Hwf)
    as (c' & -> & [[E ->]|(B' & HB & Hpost)]); cbn [fst].
  - rewrite E, drop_all. reflexivity.
  - rewrite (post_calls _ _ _ _ _ _ _ _ _ Hpost), drop_app_length. reflexivity.
Qed.

Lemma invoked_iff (c : HivenEventHandler) (L : Listener) (b : string)
    (event_data : PyVal) (args : list PyVal) (kwargs : gmap string PyVal) :
  wf c → registered_in L c → iscoroutinefunction (coro L) = true →
  mkCall (lid L) args kwargs ∈ new_calls c (fst (dispatch b event_data args kwargs c))
  ↔ event_name L = replace_on_ b.
Proof.
  intros Hwf [Hin Huniq] Hco.
  rewrite dispatch_new_calls by assumption. rewrite elem_of_bind_call_of.
  unfold snapshot. split.
  - intros (y & Hy & _ & E).
    destruct (decide (replace_on_ b = event_name L)) as [|Hne]; [congruence|].
    destruct (_active_listeners c !! replace_on_ b) as [B|] eqn:HB; cbn [default] in Hy.
    + exfalso. apply (Huniq _ _ HB Hne). rewrite <- E.
      apply list_elem_of_fmap_2. assumption.
    + apply elem_of_nil in Hy. destruct Hy.
  - intros E. exists L. rewrite <- E. auto.
Qed.

(** ** The life of a single listener under the dispatches of other tasks *)

Lemma waiting_miss (L : Listener) (d : DispatchCall) (c : HivenEventHandler) :
  waiting L c → misses (event_name L) d → waiting L (run_dispatch d c).
Proof.
  intros (Hwf & [Hin Huniq] & Hobj) Hmiss. unfold misses in Hmiss. unfold run_dispatch.
  split; [apply wf_dispatch; assumption|].
  destruct (dispatch_spec c (d_event d) (d_data d) (d_args d) (d_kwargs d) Hwf)
    as (c' & -> & [[_ ->]|(B' & HB & Hpost)]); cbn [fst].
  { split; [split|]; assumption. }
  destruct Hpost as [n1 r1 s1 d1 g1 k1 ca1 lo1 f1 o1 dm1].
  assert (Hfar : ∀ x, x ∈ snapshot (d_event d) c → lid x ≠ lid L).
  { intros x Hx E. apply (Huniq _ _ HB Hmiss). rewrite <- E.
    apply list_elem_of_fmap_2. assumption. }
  split; [split|].
  - rewrite r1, lookup_insert_ne by assumption. assumption.
  - intros name B. rewrite r1.
    destruct (decide (replace_on_ (d_event d) = name)) as [<-|Hne].
    + rewrite lookup_insert_eq. intros [= <-] _ Hi.
      apply list_elem_of_fmap in Hi as (y & E & Hy).
      apply (Hfar y (s1 y Hy)). congruence.
    + rewrite lookup_insert_ne by assumption. apply Huniq.
  - rewrite o1; [assumption|]. intros x Hx _. apply Hfar. assumption.
Qed.

Lemma waiting_hit (L : Listener) (d : DispatchCall) (c : HivenEventHandler) :
  waiting L c → single L = true → replace_on_ (d_event d) = event_name L →
  escape_of (d_args d) (d_kwargs d) L = None →
  finished L (fired (d_data d) (d_args d) (d_kwargs d) L
                (mkSingleState false VNone VNone VNone)) (run_dispatch d c).
Proof.
  intros (Hwf & [Hin Huniq] & Hobj) Hs Hhit Hesc. unfold run_dispatch.
  split; [apply wf_dispatch; assumption|].
  assert (HL : L ∈ snapshot (d_event d) c) by (unfold snapshot; rewrite Hhit; assumption).
  destruct (dispatch_spec c (d_event d) (d_data d) (d_args d) (d_kwargs d) Hwf)
    as (c' & -> & [[E _]|(B' & HB & Hpost)]); cbn [fst].
  { rewrite E in HL. apply elem_of_nil in HL. destruct HL. }
  destruct Hpost as [n1 r1 s1 d1 g1 k1 ca1 lo1 f1 o1 dm1].
  split.
  - intros name B. rewrite r1.
    destruct (decide (replace_on_ (d_event d) = name)) as [<-|Hne].
    + rewrite lookup_insert_eq. intros [= <-]. apply g1; assumption.
    + rewrite lookup_insert_ne by assumption. intros HB0.
      apply (Huniq _ _ HB0). congruence.
  - rewrite (f1 L HL Hs), Hobj. reflexivity.
Qed.

Lemma finished_dispatch (L : Listener) (s : SingleState) (d : DispatchCall)
    (c : HivenEventHandler) :
  finished L s c → finished L s (run_dispatch d c).
Proof.
  intros (Hwf & Hun & Hobj). unfold run_dispatch.
  split; [apply wf_dispatch; assumption|].
  destruct (dispatch_spec c (d_event d) (d_data d) (d_args d) (d_kwargs d) Hwf)
    as (c' & -> & [[_ ->]|(B' & HB & Hpost)]); cbn [fst].
  { split; assumption. }
  destruct Hpost as [n1 r1 s1 d1 g1 k1 ca1 lo1 f1 o1 dm1].
  assert (Hfar : ∀ x, x ∈ snapshot (d_event d) c → lid x ≠ lid L).
  { intros x Hx E. apply (Hun _ _ HB). rewrite <- E.
    apply list_elem_of_fmap_2. assumption. }
  split.
  - intros name B. rewrite r1.
    destruct (decide (replace_on_ (d_event d) = name)) as [<-|Hne].
    + rewrite lookup_insert_eq. intros [= <-] Hi.
      apply list_elem_of_fmap in Hi as (y & E & Hy).
      apply (Hfar y (s1 y Hy)). congruence.
    + rewrite lookup_insert_ne by assumption. apply Hun.
  - rewrite o1; [assumption|]. intros x Hx _. apply Hfar. assumption.
Qed.

Lemma waiting_misses (L : Listener) (ds : list DispatchCall) :
  ∀ c, waiting L c → Forall (misses (event_name L)) ds →
       waiting L (run_dispatches ds c).
Proof.
  unfold run_dispatches.
  induction ds as [|d ds IH]; intros c Hw Hall; cbn [foldl]; [assumption|].
  apply Forall_cons in Hall as [Hd Hall]. apply IH; [|assumption].
  apply waiting_miss; assumption.
Qed.

Lemma finished_dispatches (L : Listener) (s : SingleState) (ds : list DispatchCall) :
  ∀ c, finished L s c → finished L s (run_dispatches ds c).
Proof.
  unfold run_dispatches.
  induction ds as [|d ds IH]; intros c Hf; cbn [foldl]; [assumption|].
  apply IH. apply finished_dispatch. assumption.
Qed.

Lemma run_dispatches_app (ds1 ds2 : list DispatchCall) (c : HivenEventHandler) :
  run_dispatches (ds1 ++ ds2) c = run_dispatches ds2 (run_dispatches ds1 c).
Proof. unfold run_dispatches. apply foldl_app. Qed.

(** ** The polling loop of [wait_for] *)

Lemma wait_for_loop_waiting (L : Listener) (env : list (list DispatchCall))
    (c : HivenEventHandler) :
  waiting L c →
  wait_for_loop L env c
  = match env with
    | [] => (c, None)
    | ds :: env' => wait_for_loop L env' (run_dispatches ds c)
    end.
Proof.
  intros (_ & _ & Hobj).
  destruct env; cbn [wait_for_loop]; unfold dispatched; rewrite Hobj; reflexivity.
Qed.

Lemma wait_for_loop_finished (L : Listener) (s : SingleState)
    (env : list (list DispatchCall)) (c : HivenEventHandler) :
  finished L s c → _dispatched s = true →
  wait_for_loop L env c = (c, Some (_args s, _kwargs s)).
Proof.
  intros (_ & _ & Hobj) Hd.
  destruct env; cbn [wait_for_loop];
    unfold dispatched, listener_args, listener_kwargs; rewrite Hobj, Hd; reflexivity.
Qed.

Lemma wait_for_loop_sleeps (L : Listener) (pre : list (list DispatchCall)) :
  ∀ env c, waiting L c → Forall (Forall (misses (event_name L))) pre →
    wait_for_loop L (pre ++ env) c
    = wait_for_loop L env (foldl (fun c ds => run_dispatches ds c) c pre)
    ∧ waiting L (foldl (fun c ds => run_dispatches ds c) c pre).
Proof.
  induction pre as [|ds pre IH]; intros env c Hw Hall; cbn [foldl app].
  - split; [reflexivity|assumption].
  - apply Forall_cons in Hall as [Hds Hall].
    rewrite wait_for_loop_waiting by assumption.
    apply IH; [|assumption]. apply waiting_misses; assumption.
Qed.

Lemma wf_demo_handler : wf demo_handler.
Proof.
  unfold demo_handler.
  apply wf_add_new_multi_event_listener, wf_add_new_single_event_listener,
    wf_add_new_multi_event_listener, wf_empty_handler.
Qed.

(* ===================================================================== *)
(** ** Failure isolation in [dispatch] *)
(* ===================================================================== *)






(* ===================================================================== *)
(** ** One-shot listeners *)
(* ===================================================================== *)

Lemma NoDup_lid_eq (B : list Listener) (x y : Listener) :
  NoDup (lid <$> B) → x ∈ B → y ∈ B → lid x = lid y → x = y.
Proof.
  induction B as [|z B IH]; intros Hnd Hx Hy E.
  - apply elem_of_nil in Hx. destruct Hx.
  - cbn [fmap list_fmap] in Hnd. apply NoDup_cons in Hnd as [Hz Hnd].
    apply elem_of_cons in Hx as [->|Hx]; apply elem_of_cons in Hy as [->|Hy].
    + reflexivity.
    + exfalso. apply Hz. rewrite E. apply list_elem_of_fmap_2. assumption.
    + exfalso. apply Hz. rewrite <- E. apply list_elem_of_fmap_2. assumption.
    + apply IH; assumption.
Qed.

(** C4, as stated, fails when the callback of the single listener raises
    an instance of a class outside [Exception]: [dispatch] of the listener
    is left before [_dispatched] is set and before [remove_listener].  After
    the dispatch the listener is still in the bucket and its flag is
    false. *)
Lemma cancelled_single_listener_stays :
  single (mkListener 0 true (Some demo_cancelled) "ready") = true
  ∧ snapshot "ready" (fst (add_new_single_event_listener "ready" (Some demo_cancelled)
                             empty_handler))
    = [mkListener 0 true (Some demo_cancelled) "ready"]
  ∧ snapshot "ready"
      (fst (dispatch "ready" VNone [] ∅
              (fst (add_new_single_event_listener "ready" (Some demo_cancelled)
                      empty_handler))))
    = [mkListener 0 true (Some demo_cancelled) "ready"]
  ∧ dispatched (mkListener 0 true (Some demo_cancelled) "ready")
      (fst (dispatch "ready" VNone [] ∅
              (fst (add_new_single_event_listener "ready" (Some demo_cancelled)
                      empty_handler)))) = false.
Proof. split; [|split; [|split]]; vm_compute; reflexivity. Qed.

(** C4, amended.  In a well-formed handler, let [x] be a single listener
    that is registered for the event [e].  After a dispatch of [e], [x] is
    not in the bucket of [e] and its [dispatched] flag is true, provided the
    callback of [x] returns or raises an instance of [Exception]; nothing is
    assumed about the callbacks of the siblings, which may raise anything.
    When the callback of [x] raises an instance of a class outside
    [Exception], [x] is still in the bucket after the dispatch and its flag
    is what it was. *)
Theorem single_listener_gone_and_dispatched (c : HivenEventHandler) (e : string)
    (event_data : PyVal) (args : list PyVal) (kwargs : gmap string PyVal)
    (x : Listener) :
  wf c → x ∈ snapshot e c → single x = true →
  ∃ c' r,
    dispatch e event_data args kwargs c = (c', r)
    ∧ (escape_of args kwargs x = None →
         (x ∉ snapshot e c')
         ∧ (lid x ∉ lid <$> snapshot e c')
         ∧ dispatched x c' = true)
    ∧ (escape_of args kwargs x ≠ None →
         x ∈ snapshot e c' ∧ dispatched x c' = dispatched x c).
Proof.
  intros Hwf Hx Hs.
  destruct (dispatch_spec c e event_data args kwargs Hwf)
    as (c' & Hd & [[E _]|(B' & HB & Hpost)]).
  { rewrite E in Hx. apply elem_of_nil in Hx. destruct Hx. }
  destruct Hpost as [n1 r1 s1 d1 g1 k1 ca1 lo1 f1 o1 dm1].
  eexists c', _. split; [exact Hd|].
  assert (Hsnap : snapshot e c' = B').
  { unfold snapshot. rewrite r1, lookup_insert_eq. reflexivity. }
  rewrite Hsnap.
  destruct (Hwf _ _ HB) as [Hnd Hall]. rewrite Forall_forall in Hall.
  destruct (Hall x Hx) as (_ & _ & Hobj). destruct (Hobj Hs) as [s Hlook].
  split.
  - intros Hesc.
    assert (Hgone : lid x ∉ lid <$> B') by (apply g1; assumption).
    split; [|split; [assumption|]].
    + intros Hin. apply Hgone. apply list_elem_of_fmap_2. assumption.
    + unfold dispatched. rewrite (f1 x Hx Hs), Hlook.
      cbn. unfold fired. rewrite Hesc.
      destruct (iscoroutinefunction (coro x)); reflexivity.
  - intros Hesc. split.
    + apply k1; [assumption|]. intros z Hz _ Hnone E.
      assert (z = x) by (apply (NoDup_lid_eq (snapshot e c)); assumption).
      subst z. contradiction.
    + unfold dispatched. rewrite (f1 x Hx Hs), Hlook.
      cbn. unfold fired.
      assert (Hco : iscoroutinefunction (coro x) = true).
      { unfold escape_of, outcome_of, iscoroutinefunction in *.
        destruct (coro x) as [f|]; [|contradiction].
        destruct (fn_async f); [reflexivity|contradiction]. }
      rewrite Hco. destruct (escape_of args kwargs x); [reflexivity|contradiction].
Qed.

Lemma single_listener_gone_and_dispatched_witness :
  wf demo_handler ∧ demo_single ∈ snapshot "on_ready" demo_handler
  ∧ single demo_single = true
  ∧ escape_of [VInt 1] ∅ demo_single = None
  ∧ ∃ c' r, dispatch "on_ready" (VStr "payload") [VInt 1] ∅ demo_handler = (c', r)
            ∧ (demo_single ∉ snapshot "on_ready" c')
            ∧ (lid demo_single ∉ lid <$> snapshot "on_ready" c')
            ∧ dispatched demo_single c' = true.
Proof.
  assert (H : demo_single ∈ snapshot "on_ready" demo_handler).
  { vm_compute. apply list_elem_of_further, list_elem_of_here. }
  split; [exact wf_demo_handler|]. split; [exact H|]. split; [reflexivity|].
  split; [reflexivity|].
  destruct (single_listener_gone_and_dispatched demo_handler "on_ready"
              (VStr "payload") [VInt 1] ∅ demo_single wf_demo_handler H eq_refl)
    as (c' & r & Hd & Hgone & _).
  exists c', r. split; [exact Hd|]. apply Hgone. reflexivity.
Defined.

(* ===================================================================== *)
(** ** Registration and the list of supported events *)
(* ===================================================================== *)

(** decides [x ∉ l] for closed [x] and [l] by evaluation *)
Ltac not_in_list :=
  match goal with
  | |- ?x ∉ ?l => apply (bool_decide_eq_false_1 (x ∈ l)); vm_compute; reflexivity
  end.

(** The missing comma in [_events]: neither of the two names is supported. *)
Example relationship_update_not_supported :
  ("relationship_update" ∉ _events) ∧ ("house_entity_update" ∉ _events).
Proof. split; not_in_list. Qed.

(** A name with ['on_'] inside never passes the check of the decorator. *)
Example on_connection_start_not_supported :
  replace_on_ "on_connection_start" = "connectistart"
  ∧ (replace_on_ "on_connection_start" ∉ _events).
Proof. split; [reflexivity|]. not_in_list. Qed.

(** C5, as stated, fails for [add_new_multi_event_listener]: the name
    [foo] is not a supported event, and still the call returns a listener
    and the registry holds it. *)
Lemma add_new_multi_event_listener_accepts_unknown :
  (replace_on_ "foo" ∉ _events)
  ∧ (∀ e, snd (add_new_multi_event_listener "foo" (Some demo_ok) empty_handler)
          ≠ Raise e)
  ∧ lid <$> snapshot "foo"
              (fst (add_new_multi_event_listener "foo" (Some demo_ok) empty_handler))
    = [0].
Proof.
  split; [not_in_list|].
  split; [intros e; vm_compute; discriminate|].
  vm_compute. reflexivity.
Qed.

(** C5, amended.  The check against [_events] is made by the [event]
    decorator: for a function whose normalized name is not in [_events] the
    decorator raises and the handler is left as it was; the exception is
    [UnknownEventError] when the function is async ([ExpectedAsyncFunction]
    otherwise, since that check comes first).  [add_new_multi_event_listener]
    makes no check: for every name it returns a new persistent listener,
    which is then found in the bucket of the normalized name. *)
Theorem event_decorator_rejects_unknown_names (coro : Function)
    (c : HivenEventHandler) :
  replace_on_ (fn_name coro) ∉ _events →
  (∃ e, event_decorator coro c = (c, Raise e)
        ∧ exc_class e = (if fn_async coro then UnknownEventError
                         else ExpectedAsyncFunction))
  ∧ (∀ (a : string) (f : option Function),
       ∃ c1 L, add_new_multi_event_listener a f c = (c1, Ok L)
               ∧ single L = false ∧ event_name L = replace_on_ a
               ∧ L ∈ snapshot a c1).
Proof.
  intros Hnot. split.
  - unfold event_decorator. destruct (fn_async coro); cbn [negb].
    + rewrite bool_decide_eq_false_2 by assumption. cbn [negb].
      eexists. split; reflexivity.
    + eexists. split; reflexivity.
  - intros a f. rewrite add_new_multi_event_listener_eq.
    eexists _, _. split; [reflexivity|].
    split; [reflexivity|]. split; [reflexivity|].
    unfold snapshot, registered. cbn [fst snd _active_listeners].
    rewrite lookup_insert_eq. cbn [default].
    apply elem_of_app. right. apply list_elem_of_singleton. reflexivity.
Qed.

Lemma event_decorator_rejects_unknown_names_witness :
  (replace_on_ (fn_name (mkFunction "on_connection_start" true (fun _ _ => Ok tt)))
     ∉ _events)
  ∧ ∃ e, event_decorator (mkFunction "on_connection_start" true (fun _ _ => Ok tt))
           empty_handler = (empty_handler, Raise e)
         ∧ exc_class e = UnknownEventError.
Proof.
  assert (H : replace_on_ (fn_name (mkFunction "on_connection_start" true
                                     (fun _ _ => Ok tt))) ∉ _events).
  { not_in_list. }
  split; [exact H|].
  exact (proj1 (event_decorator_rejects_unknown_names
                  (mkFunction "on_connection_start" true (fun _ _ => Ok tt))
                  empty_handler H)).
Defined.

(* ===================================================================== *)
(** ** [wait_for] *)
(* ===================================================================== *)

Lemma wait_for_eq (name : string) (coro : option Function)
    (env : list (list DispatchCall)) (c : HivenEventHandler) :
  wait_for name coro env c
  = (fst (wait_for_loop (snd (registered true (replace_on_ (replace_on_ name)) coro c))
            env (fst (registered true (replace_on_ (replace_on_ name)) coro c))),
     Ok (snd (wait_for_loop (snd (registered true (replace_on_ (replace_on_ name)) coro c))
                env (fst (registered true (replace_on_ (replace_on_ name)) coro c))))).
Proof.
  unfold wait_for. rewrite add_new_single_event_listener_eq.
  destruct (wait_for_loop _ _ _). reflexivity.
Qed.

Lemma waiting_registered (n : string) (coro : option Function) (c : HivenEventHandler) :
  wf c → waiting (snd (registered true n coro c)) (fst (registered true n coro c)).
Proof.
  intros Hwf. split; [apply wf_registered; assumption|].
  split; [apply registered_registered_in; assumption|].
  cbn. apply lookup_insert_eq.
Qed.

(** C9, as stated, fails: what [wait_for] returns is the pair
    [(listener.args, listener.kwargs)]; the payload of the event (the first
    argument of [dispatch]) is not part of it. *)
Lemma wait_for_does_not_return_payload :
  snd (wait_for "message_create" (Some demo_ok) [[demo_dispatch]] empty_handler)
  = Ok (Some (VList [VInt 1], VDict ∅))
  ∧ (VList [VInt 1], VDict ∅) ≠ (d_data demo_dispatch, VList (d_args demo_dispatch)).
Proof.
  split; [vm_compute; reflexivity|]. intros H. discriminate H.
Qed.

(** Without a callback (the default of [wait_for]) the arguments are never
    recorded. *)
Example wait_for_without_callback :
  snd (wait_for "message_create" None [[demo_dispatch]] empty_handler)
  = Ok (Some (VNone, VNone)).
Proof. vm_compute. reflexivity. Qed.

(** When the callback ends with an instance of a class outside
    [Exception], the listener is never marked as dispatched and [wait_for]
    stays suspended. *)
Example wait_for_with_cancelled_callback :
  snd (wait_for "ready" (Some demo_cancelled)
         [[mkDispatch "ready" VNone [] ∅]; [mkDispatch "ready" VNone [] ∅]]
         empty_handler) = Ok None.
Proof. vm_compute. reflexivity. Qed.

(** C9, amended.  [wait_for name coro], for an async [coro], registers a
    single listener [L] under the name normalized twice.  As long as the
    dispatches made by other tasks miss that bucket, [L] is not dispatched
    and [wait_for] stays suspended.  After the sleep in which a dispatch [d]
    of that bucket is made, and provided the call of [coro] on the
    arguments of [d] returns or raises an instance of [Exception],
    [wait_for] returns the positional and keyword arguments of [d]; the
    payload of [d] is recorded on [L] as [_event_data] and is not
    returned. *)
Theorem wait_for_returns_call_arguments (c : HivenEventHandler) (name : string)
    (f : Function) (pre post : list (list DispatchCall))
    (ds1 ds2 : list DispatchCall) (d : DispatchCall) :
  wf c → fn_async f = true →
  (∀ b, fn_body f (d_args d) (d_kwargs d) ≠ RaiseBase b) →
  Forall (Forall (misses (replace_on_ (replace_on_ name)))) pre →
  Forall (misses (replace_on_ (replace_on_ name))) ds1 →
  replace_on_ (d_event d) = replace_on_ (replace_on_ name) →
  ∃ L, L = mkListener (next_id c) true (Some f) (replace_on_ (replace_on_ name))
    ∧ snd (add_new_single_event_listener (replace_on_ name) (Some f) c) = Ok L
    ∧ L ∈ snapshot (d_event d)
            (fst (add_new_single_event_listener (replace_on_ name) (Some f) c))
    ∧ snd (wait_for name (Some f) pre c) = Ok None
    ∧ dispatched L (fst (wait_for name (Some f) pre c)) = false
    ∧ snd (wait_for name (Some f) (pre ++ (ds1 ++ d :: ds2) :: post) c)
      = Ok (Some (VList (d_args d), VDict (d_kwargs d)))
    ∧ objects (fst (wait_for name (Some f) (pre ++ (ds1 ++ d :: ds2) :: post) c)) !! lid L
      = Some (mkSingleState true (d_data d) (VList (d_args d)) (VDict (d_kwargs d))).
Proof.
  intros Hwf Hf Hret Hpre Hds1 Hd.
  set (n := replace_on_ (replace_on_ name)) in *.
  exists (snd (registered true n (Some f) c)). split; [reflexivity|].
  rewrite !wait_for_eq, add_new_single_event_listener_eq. fold n.
  pose proof (waiting_registered n (Some f) c Hwf) as Hw.
  set (L := snd (registered true n (Some f) c)) in *.
  set (c1 := fst (registered true n (Some f) c)) in *.
  cbn [fst snd].
  assert (HnL : event_name L = n) by reflexivity.
  split; [reflexivity|]. split.
  { unfold snapshot. rewrite Hd. destruct Hw as (_ & [Hin _] & _).
    rewrite HnL in Hin. exact Hin. }
  rewrite <- HnL in Hpre, Hds1.
  (* while every dispatch misses the bucket *)
  destruct (wait_for_loop_sleeps L pre [] c1 Hw Hpre) as [E0 Hw0].
  rewrite app_nil_r in E0. rewrite E0.
  rewrite (wait_for_loop_waiting L [] _ Hw0). cbn [fst snd].
  split; [reflexivity|]. split.
  { unfold dispatched. destruct Hw0 as (_ & _ & ->). reflexivity. }
  (* the sleep in which [d] is dispatched *)
  destruct (wait_for_loop_sleeps L pre ((ds1 ++ d :: ds2) :: post) c1 Hw Hpre) as [E1 _].
  rewrite E1. rewrite (wait_for_loop_waiting L _ _ Hw0).
  rewrite run_dispatches_app.
  pose proof (waiting_misses L ds1 _ Hw0 Hds1) as Hw1.
  change (run_dispatches (d :: ds2) ?x) with (run_dispatches ds2 (run_dispatch d x)).
  assert (Hhit : replace_on_ (d_event d) = event_name L) by (rewrite HnL; exact Hd).
  assert (Hesc : escape_of (d_args d) (d_kwargs d) L = None).
  { unfold escape_of, outcome_of. cbn [coro L registered snd]. rewrite Hf.
    destruct (fn_body f (d_args d) (d_kwargs d)) as [u|exn|b] eqn:Hb;
      [reflexivity|reflexivity|]. destruct (Hret b eq_refl). }
  pose proof (waiting_hit L d _ Hw1 eq_refl Hhit Hesc) as Hfin.
  pose proof (finished_dispatches L _ ds2 _ Hfin) as Hfin2.
  assert (Hfired : fired (d_data d) (d_args d) (d_kwargs d) L
                     (mkSingleState false VNone VNone VNone)
                   = mkSingleState true (d_data d) (VList (d_args d)) (VDict (d_kwargs d))).
  { unfold fired. rewrite Hesc. cbn. rewrite Hf. reflexivity. }
  rewrite Hfired in Hfin2.
  rewrite (wait_for_loop_finished L _ post _ Hfin2 eq_refl). cbn [fst snd].
  split; [reflexivity|]. destruct Hfin2 as (_ & _ & Hobj). exact Hobj.
Qed.

Lemma wait_for_returns_call_arguments_witness :
  wf empty_handler ∧ fn_async demo_ok = true
  ∧ (∀ b, fn_body demo_ok (d_args demo_dispatch) (d_kwargs demo_dispatch) ≠ RaiseBase b)
  ∧ replace_on_ (d_event demo_dispatch) = replace_on_ (replace_on_ "on_message_create")
  ∧ snd (wait_for "on_message_create" (Some demo_ok)
           ([] ++ ([] ++ demo_dispatch :: []) :: []) empty_handler)
    = Ok (Some (VList [VInt 1], VDict ∅)).
Proof.
  assert (Hret : ∀ b, fn_body demo_ok (d_args demo_dispatch) (d_kwargs demo_dispatch)
                      ≠ RaiseBase b) by (intros b; discriminate).
  split; [exact wf_empty_handler|]. split; [reflexivity|]. split; [exact Hret|].
  split; [reflexivity|].
  destruct (wait_for_returns_call_arguments empty_handler "on_message_create" demo_ok
              [] [] [] [] demo_dispatch wf_empty_handler eq_refl Hret
              (Forall_nil_2 _) (Forall_nil_2 _) eq_refl)
    as (L & _ & _ & _ & _ & _ & H & _).
  exact H.
Defined.

(* ===================================================================== *)
(** ** Normalization of event names *)
(* ===================================================================== *)

Example replace_on__leading : replace_on_ "on_ready" = "ready".
Proof. reflexivity. Qed.

Example replace_on__interior : replace_on_ "connection_start" = "connectistart".
Proof. reflexivity. Qed.

(** [replace] is not idempotent: dropping one ['on_'] can form another. *)
Example replace_on__twice :
  replace_on_ "oon_n_x" = "on_x" ∧ replace_on_ (replace_on_ "oon_n_x") = "x".
Proof. split; reflexivity. Qed.

(** C10, as stated, fails for [wait_for]: it normalizes the name and then
    [add_new_single_event_listener] normalizes the result again.  With
    [a = b = "oon_n_x"] the two names agree after one [replace], and still
    the listener that [wait_for a] registered is not called by
    [dispatch b]: no callback is called, and [wait_for] stays suspended.
    The listener sits in the bucket [x], where [dispatch "x"] finds it. *)
Lemma wait_for_normalizes_twice :
  replace_on_ "oon_n_x" = replace_on_ "oon_n_x"
  ∧ calls (fst (wait_for "oon_n_x" (Some demo_ok)
                  [[mkDispatch "oon_n_x" (VStr "payload") [] ∅]] empty_handler)) = []
  ∧ snd (wait_for "oon_n_x" (Some demo_ok)
           [[mkDispatch "oon_n_x" (VStr "payload") [] ∅]] empty_handler) = Ok None
  ∧ replace_on_ "oon_n_x" ≠ replace_on_ "x"
  ∧ snd (wait_for "oon_n_x" (Some demo_ok)
           [[mkDispatch "x" (VStr "payload") [] ∅]] empty_handler)
    = Ok (Some (VList [], VDict ∅)).
Proof.
  split; [reflexivity|]. split; [vm_compute; reflexivity|].
  split; [vm_compute; reflexivity|]. split; [discriminate|].
  vm_compute. reflexivity.
Qed.

Lemma registered_invoked_iff (s : bool) (n b : string) (f : Function)
    (c : HivenEventHandler) (event_data : PyVal) (args : list PyVal)
    (kwargs : gmap string PyVal) :
  wf c → fn_async f = true →
  mkCall (lid (snd (registered s n (Some f) c))) args kwargs
    ∈ new_calls (fst (registered s n (Some f) c))
        (fst (dispatch b event_data args kwargs (fst (registered s n (Some f) c))))
  ↔ n = replace_on_ b.
Proof.
  intros Hwf Hf.
  apply (invoked_iff (fst (registered s n (Some f) c)) (snd (registered s n (Some f) c))).
  - apply wf_registered. assumption.
  - apply registered_registered_in. assumption.
  - exact Hf.
Qed.

Lemma registered_in_snapshot_iff (L : Listener) (b : string) (c : HivenEventHandler) :
  registered_in L c → L ∈ snapshot b c ↔ event_name L = replace_on_ b.
Proof.
  intros [Hin Huniq]. unfold snapshot. split.
  - intros HL.
    destruct (decide (replace_on_ b = event_name L)) as [|Hne]; [congruence|].
    destruct (_active_listeners c !! replace_on_ b) as [B|] eqn:HB; cbn [default] in HL.
    + exfalso. apply (Huniq _ _ HB Hne). apply list_elem_of_fmap_2. assumption.
    + apply elem_of_nil in HL. destruct HL.
  - intros <-. exact Hin.
Qed.

Lemma wait_for_asleep (a : string) (coro : option Function) (c : HivenEventHandler) :
  wait_for a coro [] c
  = (fst (registered true (replace_on_ (replace_on_ a)) coro c), Ok None).
Proof.
  rewrite wait_for_eq. cbn [wait_for_loop].
  unfold dispatched. cbn [registered fst snd objects lid].
  rewrite lookup_insert_eq. reflexivity.
Qed.

(** C10, amended.  A listener that was registered under [a] by
    [add_new_multi_event_listener] or by [add_new_single_event_listener],
    with or without a callback, is among the listeners that [dispatch b]
    runs exactly when [a.replace('on_', '')] equals [b.replace('on_', '')];
    when it has an async callback, [dispatch b] calls that callback exactly
    in this case.  [wait_for a] and the [event] decorator (for a function
    named [a]) normalize the name and then call those functions, which
    normalize it again: their listener is run by [dispatch b], and its
    async callback called, exactly when [a] normalized twice equals [b]
    normalized once.  The normalization drops ['on_'] wherever it stands in
    the name, not only in front. *)
Theorem listener_called_iff_names_normalize_alike (c : HivenEventHandler)
    (a b : string) (coro : option Function) (f : Function) (event_data : PyVal)
    (args : list PyVal) (kwargs : gmap string PyVal) :
  wf c →
  (∀ c1 L, add_new_multi_event_listener a coro c = (c1, Ok L) →
     (L ∈ snapshot b c1 ↔ replace_on_ a = replace_on_ b)
     ∧ (iscoroutinefunction coro = true →
        (mkCall (lid L) args kwargs
           ∈ new_calls c1 (fst (dispatch b event_data args kwargs c1))
         ↔ replace_on_ a = replace_on_ b)))
  ∧ (∀ c1 L, add_new_single_event_listener a coro c = (c1, Ok L) →
     (L ∈ snapshot b c1 ↔ replace_on_ a = replace_on_ b)
     ∧ (iscoroutinefunction coro = true →
        (mkCall (lid L) args kwargs
           ∈ new_calls c1 (fst (dispatch b event_data args kwargs c1))
         ↔ replace_on_ a = replace_on_ b)))
  ∧ (mkListener (next_id c) true coro (replace_on_ (replace_on_ a))
       ∈ snapshot b (fst (wait_for a coro [] c))
     ↔ replace_on_ (replace_on_ a) = replace_on_ b)
  ∧ (iscoroutinefunction coro = true →
     (mkCall (next_id c) args kwargs
        ∈ new_calls c (fst (wait_for a coro
                              [[mkDispatch b event_data args kwargs]] c))
      ↔ replace_on_ (replace_on_ a) = replace_on_ b))
  ∧ (∀ c1 g, fn_name f = a → event_decorator f c = (c1, Ok g) →
     (mkListener (next_id c) false (Some f) (replace_on_ (replace_on_ a))
        ∈ snapshot b c1
      ↔ replace_on_ (replace_on_ a) = replace_on_ b)
     ∧ (mkCall (next_id c) args kwargs
          ∈ new_calls c1 (fst (dispatch b event_data args kwargs c1))
        ↔ replace_on_ (replace_on_ a) = replace_on_ b))
  ∧ (∀ x y : string,
       replace_on_ (x +:+ "on_" +:+ y) = replace_on_ x +:+ replace_on_ y).
Proof.
  intros Hwf.
  assert (Hreg : ∀ s n co,
            (snd (registered s n co c) ∈ snapshot b (fst (registered s n co c))
             ↔ n = replace_on_ b)
            ∧ (iscoroutinefunction co = true →
               (mkCall (lid (snd (registered s n co c))) args kwargs
                  ∈ new_calls (fst (registered s n co c))
                      (fst (dispatch b event_data args kwargs (fst (registered s n co c))))
                ↔ n = replace_on_ b))).
  { intros s n co. split.
    - apply (registered_in_snapshot_iff (snd (registered s n co c))).
      apply registered_registered_in. assumption.
    - intros Hco.
      apply (invoked_iff (fst (registered s n co c)) (snd (registered s n co c))).
      + apply wf_registered. assumption.
      + apply registered_registered_in. assumption.
      + exact Hco. }
  split; [|split; [|split; [|split; [|split]]]].
  - intros c1 L. rewrite add_new_multi_event_listener_eq. intros [= <- <-]. apply Hreg.
  - intros c1 L. rewrite add_new_single_event_listener_eq. intros [= <- <-]. apply Hreg.
  - rewrite wait_for_asleep. cbn [fst].
    apply (proj1 (Hreg true (replace_on_ (replace_on_ a)) coro)).
  - intros Hco. rewrite wait_for_eq. cbn [fst].
    pose proof (waiting_registered (replace_on_ (replace_on_ a)) coro c Hwf) as Hw.
    rewrite (wait_for_loop_waiting _ _ _ Hw).
    set (c1 := fst (registered true (replace_on_ (replace_on_ a)) coro c)) in *.
    set (L := snd (registered true (replace_on_ (replace_on_ a)) coro c)) in *.
    assert (E : ∀ c2, fst (wait_for_loop L [] c2) = c2).
    { intros c2. cbn [wait_for_loop]. destruct (dispatched L c2); reflexivity. }
    rewrite E.
    change (new_calls c ?x) with (new_calls c1 x).
    change (run_dispatches [mkDispatch b event_data args kwargs] c1)
      with (fst (dispatch b event_data args kwargs c1)).
    apply (proj2 (Hreg true (replace_on_ (replace_on_ a)) coro)). exact Hco.
  - intros c1 g <-. unfold event_decorator.
    destruct (fn_async f) eqn:Hf; cbn [negb]; [|discriminate].
    destruct (bool_decide _); cbn [negb]; [|discriminate].
    unfold bind, ret. rewrite add_new_multi_event_listener_eq. intros [= <- _].
    split.
    + apply (proj1 (Hreg false (replace_on_ (replace_on_ (fn_name f))) (Some f))).
    + apply (proj2 (Hreg false (replace_on_ (replace_on_ (fn_name f))) (Some f))).
      exact Hf.
  - apply replace_on__anywhere.
Qed.

Lemma listener_called_iff_names_normalize_alike_witness :
  wf empty_handler
  ∧ (mkListener 0 true None "ready" ∈ snapshot "ready" (fst (wait_for "on_ready" None [] empty_handler))
     ↔ replace_on_ (replace_on_ "on_ready") = replace_on_ "ready")
  ∧ (iscoroutinefunction (Some demo_ok) = true →
     (mkCall 0 [VInt 1] ∅
        ∈ new_calls empty_handler
            (fst (wait_for "on_ready" (Some demo_ok)
                    [[mkDispatch "ready" VNone [VInt 1] ∅]] empty_handler))
      ↔ replace_on_ (replace_on_ "on_ready") = replace_on_ "ready")).
Proof.
  split; [exact wf_empty_handler|]. split.
  - exact (proj1 (proj2 (proj2
             (listener_called_iff_names_normalize_alike empty_handler "on_ready" "ready"
                None demo_ok VNone [VInt 1] ∅ wf_empty_handler)))).
  - exact (proj1 (proj2 (proj2 (proj2
             (listener_called_iff_names_normalize_alike empty_handler "on_ready" "ready"
                (Some demo_ok) demo_ok VNone [VInt 1] ∅ wf_empty_handler))))).
Defined.

(* ===================================================================== *)
(** ** More on [add_listener] and [remove_listener] *)
(* ===================================================================== *)

Lemma list_remove_app (x : Listener) (K l : list Listener) :
  lid x ∉ lid <$> K → list_remove x (K ++ x :: l) = Some (K ++ l).
Proof.
  induction K as [|y K IH]; intros Hx; cbn [app list_remove].
  - rewrite Nat.eqb_refl. reflexivity.
  - cbn [fmap list_fmap] in Hx. apply not_elem_of_cons in Hx as [Hne Hx].
    destruct (Nat.eqb_spec (lid y) (lid x)) as [E|_]; [congruence|].
    rewrite (IH Hx). reflexivity.
Qed.

Lemma list_remove_None (x : Listener) (l : list Listener) :
  lid x ∉ lid <$> l → list_remove x l = None.
Proof.
  induction l as [|y l IH]; intros Hx; cbn [list_remove]; [reflexivity|].
  cbn [fmap list_fmap] in Hx. apply not_elem_of_cons in Hx as [Hne Hx].
  destruct (Nat.eqb_spec (lid y) (lid x)) as [E|_]; [congruence|].
  rewrite (IH Hx). reflexivity.
Qed.

Lemma remove_listener_found (c : HivenEventHandler) (L : Listener)
    (K r : list Listener) :
  _active_listeners c !! event_name L = Some (K ++ L :: r) →
  lid L ∉ lid <$> K →
  remove_listener L c
  = (set_listeners (<[event_name L := K ++ r]> (_active_listeners c)) c, Ok tt).
Proof.
  intros HB HK. unfold remove_listener. rewrite HB.
  destruct (K ++ L :: r) as [|y l] eqn:E.
  { destruct K; discriminate. }
  rewrite <- E, (list_remove_app L K r HK). reflexivity.
Qed.

Lemma remove_listener_missing (c : HivenEventHandler) (L : Listener) :
  lid L ∉ lid <$> bucket (event_name L) c →
  ∃ e, remove_listener L c = (c, Raise e)
       ∧ exc_class e = match bucket (event_name L) c with
                       | [] => KeyError
                       | _ :: _ => ValueError
                       end.
Proof.
  unfold bucket, remove_listener. intros Hx.
  destruct (_active_listeners c !! event_name L) as [[|y l]|]; cbn [default] in *.
  - eexists. split; reflexivity.
  - rewrite (list_remove_None L (y :: l) Hx). eexists. split; reflexivity.
  - eexists. split; reflexivity.
Qed.

(** [remove_listener] takes exactly the listener out: the listeners before
    and after it keep their places, the other buckets and everything else
    in the handler stay as they are. *)
Theorem remove_listener_takes_out_one (c : HivenEventHandler) (L : Listener)
    (K r : list Listener) :
  _active_listeners c !! event_name L = Some (K ++ L :: r) →
  lid L ∉ lid <$> K →
  remove_listener L c
  = (set_listeners (<[event_name L := K ++ r]> (_active_listeners c)) c, Ok tt).
Proof. exact (remove_listener_found c L K r). Qed.

Lemma remove_listener_takes_out_one_witness :
  _active_listeners demo_handler !! event_name demo_single
  = Some ([mkListener 0 false (Some demo_failing) "ready"] ++ demo_single
          :: [mkListener 2 false (Some demo_ok) "ready"])
  ∧ (lid demo_single ∉ lid <$> [mkListener 0 false (Some demo_failing) "ready"])
  ∧ lid <$> bucket "ready" (fst (remove_listener demo_single demo_handler)) = [0; 2].
Proof.
  assert (H1 : _active_listeners demo_handler !! event_name demo_single
               = Some ([mkListener 0 false (Some demo_failing) "ready"] ++ demo_single
                       :: [mkListener 2 false (Some demo_ok) "ready"]))
    by (vm_compute; reflexivity).
  assert (H2 : lid demo_single ∉ lid <$> [mkListener 0 false (Some demo_failing) "ready"]).
  { cbn. intros H. apply in_singleton in H. discriminate. }
  split; [exact H1|]. split; [exact H2|].
  rewrite (remove_listener_takes_out_one demo_handler demo_single _ _ H1 H2).
  vm_compute. reflexivity.
Defined.

(** [remove_listener] on a listener that is not in the bucket of its name
    raises and changes nothing: [KeyError] when the bucket is missing or
    empty, [ValueError] (from [list.remove]) when the bucket holds other
    listeners. *)
Theorem remove_listener_absent_raises (c : HivenEventHandler) (L : Listener) :
  lid L ∉ lid <$> bucket (event_name L) c →
  ∃ e, remove_listener L c = (c, Raise e)
       ∧ exc_class e = match bucket (event_name L) c with
                       | [] => KeyError
                       | _ :: _ => ValueError
                       end.
Proof. exact (remove_listener_missing c L). Qed.

Lemma remove_listener_absent_raises_witness :
  (lid demo_single ∉ lid <$> bucket (event_name demo_single) empty_handler)
  ∧ ∃ e, remove_listener demo_single empty_handler = (empty_handler, Raise e)
         ∧ exc_class e = KeyError.
Proof.
  assert (H : lid demo_single ∉ lid <$> bucket (event_name demo_single) empty_handler).
  { vm_compute. intros H. inversion H. }
  split; [exact H|].
  exact (remove_listener_absent_raises empty_handler demo_single H).
Defined.

Lemma bucket_ids_below (c : HivenEventHandler) (n : string) :
  wf c → next_id c ∉ lid <$> bucket n c.
Proof.
  intros Hwf Hin. unfold bucket in Hin.
  destruct (_active_listeners c !! n) as [B|] eqn:HB; cbn [default] in Hin.
  - destruct (Hwf _ _ HB) as [_ Hall]. rewrite Forall_forall in Hall.
    apply list_elem_of_fmap in Hin as (y & E & Hy).
    destruct (Hall y Hy) as (_ & Hlt & _). lia.
  - apply elem_of_nil in Hin. destruct Hin.
Qed.

(** Registration puts the new listener at the end of the bucket of the
    normalized name and touches no other bucket; the identity of the new
    listener is that of no listener registered before.  This holds for
    persistent and for one-shot listeners alike. *)
Theorem registration_appends (c : HivenEventHandler) (a : string)
    (coro : option Function) :
  wf c →
  ∃ c1 c2 L1 L2,
    add_new_multi_event_listener a coro c = (c1, Ok L1)
    ∧ add_new_single_event_listener a coro c = (c2, Ok L2)
    ∧ L1 = mkListener (next_id c) false coro (replace_on_ a)
    ∧ L2 = mkListener (next_id c) true coro (replace_on_ a)
    ∧ bucket (replace_on_ a) c1 = bucket (replace_on_ a) c ++ [L1]
    ∧ bucket (replace_on_ a) c2 = bucket (replace_on_ a) c ++ [L2]
    ∧ (∀ n, n ≠ replace_on_ a →
         _active_listeners c1 !! n = _active_listeners c !! n
         ∧ _active_listeners c2 !! n = _active_listeners c !! n)
    ∧ (∀ n, next_id c ∉ lid <$> bucket n c).
Proof.
  intros Hwf.
  rewrite add_new_multi_event_listener_eq, add_new_single_event_listener_eq.
  eexists _, _, _, _. split; [reflexivity|]. split; [reflexivity|].
  split; [reflexivity|]. split; [reflexivity|].
  unfold bucket, registered. cbn [fst snd _active_listeners].
  rewrite !lookup_insert_eq. cbn [default].
  split; [reflexivity|]. split; [reflexivity|]. split.
  - intros n Hn. rewrite !lookup_insert_ne by congruence. split; reflexivity.
  - intros n. apply bucket_ids_below. assumption.
Qed.

Lemma registration_appends_witness :
  wf demo_handler
  ∧ ∃ c1 L1, add_new_multi_event_listener "on_ready" None demo_handler = (c1, Ok L1)
             ∧ lid <$> bucket "ready" c1 = [0; 1; 2; 3].
Proof.
  split; [exact wf_demo_handler|].
  destruct (registration_appends demo_handler "on_ready" None wf_demo_handler)
    as (c1 & c2 & L1 & L2 & H1 & _ & -> & _ & HB & _).
  exists c1, (mkListener (next_id demo_handler) false None (replace_on_ "on_ready")).
  split; [exact H1|].
  change (replace_on_ "on_ready") with "ready" in HB. rewrite HB.
  vm_compute. reflexivity.
Defined.

Lemma registered_then_remove (s : bool) (n : string) (coro : option Function)
    (c : HivenEventHandler) :
  wf c →
  ∃ c2, remove_listener (snd (registered s n coro c)) (fst (registered s n coro c))
        = (c2, Ok tt)
        ∧ (∀ m, bucket m c2 = bucket m c)
        ∧ ∃ e, remove_listener (snd (registered s n coro c)) c2 = (c2, Raise e).
Proof.
  intros Hwf.
  set (L := snd (registered s n coro c)).
  set (c1 := fst (registered s n coro c)).
  assert (HB : _active_listeners c1 !! event_name L = Some (bucket n c ++ L :: [])).
  { cbn. rewrite lookup_insert_eq. reflexivity. }
  assert (HK : lid L ∉ lid <$> bucket n c).
  { apply (bucket_ids_below c n Hwf). }
  pose proof (remove_listener_found c1 L _ _ HB HK) as Hrem.
  rewrite app_nil_r in Hrem.
  eexists. split; [exact Hrem|].
  assert (Hb : ∀ m, bucket m (set_listeners
                 (<[event_name L := bucket n c]> (_active_listeners c1)) c1)
               = bucket m c).
  { intros m. unfold bucket at 1. cbn [_active_listeners set_listeners c1 registered fst].
    cbn [event_name L registered snd].
    destruct (decide (n = m)) as [<-|Hne].
    - rewrite lookup_insert_eq. reflexivity.
    - rewrite !lookup_insert_ne by assumption. reflexivity. }
  split; [exact Hb|].
  destruct (remove_listener_missing
              (set_listeners (<[event_name L := bucket n c]> (_active_listeners c1)) c1) L)
    as (e & He & _).
  - rewrite Hb. exact HK.
  - exists e. exact He.
Qed.

(** Register, then remove: for a persistent and for a one-shot listener
    alike, the removal succeeds and every bucket holds the listeners it held
    before the registration; a second removal of the same listener
    raises. *)
Theorem register_then_remove (c : HivenEventHandler) (a : string)
    (coro : option Function) :
  wf c →
  (∃ c1 L c2,
     add_new_multi_event_listener a coro c = (c1, Ok L)
     ∧ remove_listener L c1 = (c2, Ok tt)
     ∧ (∀ n, bucket n c2 = bucket n c)
     ∧ ∃ e, remove_listener L c2 = (c2, Raise e))
  ∧ (∃ c1 L c2,
       add_new_single_event_listener a coro c = (c1, Ok L)
       ∧ remove_listener L c1 = (c2, Ok tt)
       ∧ (∀ n, bucket n c2 = bucket n c)
       ∧ ∃ e, remove_listener L c2 = (c2, Raise e)).
Proof.
  intros Hwf.
  rewrite add_new_multi_event_listener_eq, add_new_single_event_listener_eq.
  split.
  - destruct (registered_then_remove false (replace_on_ a) coro c Hwf)
      as (c2 & H1 & H2 & H3).
    eexists _, _, c2. split; [reflexivity|]. split; [exact H1|]. split; assumption.
  - destruct (registered_then_remove true (replace_on_ a) coro c Hwf)
      as (c2 & H1 & H2 & H3).
    eexists _, _, c2. split; [reflexivity|]. split; [exact H1|]. split; assumption.
Qed.

Lemma register_then_remove_witness :
  wf demo_handler
  ∧ (∃ c1 L c2,
       add_new_multi_event_listener "on_ready" (Some demo_ok) demo_handler = (c1, Ok L)
       ∧ remove_listener L c1 = (c2, Ok tt)
       ∧ lid <$> bucket "ready" c2 = [0; 1; 2])
  ∧ (∃ c1 L c2,
       add_new_single_event_listener "on_ready" (Some demo_ok) demo_handler = (c1, Ok L)
       ∧ remove_listener L c1 = (c2, Ok tt)
       ∧ lid <$> bucket "ready" c2 = [0; 1; 2]).
Proof.
  split; [exact wf_demo_handler|].
  destruct (register_then_remove demo_handler "on_ready" (Some demo_ok) wf_demo_handler)
    as [(c1 & L & c2 & H1 & H2 & Hb & _) (c1' & L' & c2' & H1' & H2' & Hb' & _)].
  split.
  - exists c1, L, c2. split; [exact H1|]. split; [exact H2|].
    rewrite Hb. vm_compute. reflexivity.
  - exists c1', L', c2'. split; [exact H1'|]. split; [exact H2'|].
    rewrite Hb'. vm_compute. reflexivity.
Defined.

(* ===================================================================== *)
(** ** More on [dispatch] *)
(* ===================================================================== *)






Lemma unregistered_dispatch (L : Listener) (d : DispatchCall) (c : HivenEventHandler) :
  wf c → unregistered L c → unregistered L (run_dispatch d c).
Proof.
  intros Hwf Hun. unfold run_dispatch.
  destruct (dispatch_spec c (d_event d) (d_data d) (d_args d) (d_kwargs d) Hwf)
    as (c' & -> & [[_ ->]|(B' & HB & Hpost)]); cbn [fst]; [assumption|].
  destruct Hpost as [n1 r1 s1 d1 g1 k1 ca1 lo1 f1 o1 dm1].
  intros name B. rewrite r1.
  destruct (decide (replace_on_ (d_event d) = name)) as [<-|Hne].
  - rewrite lookup_insert_eq. intros [= <-] Hi.
    apply list_elem_of_fmap in Hi as (y & E & Hy).
    apply (Hun _ _ HB). rewrite E. apply list_elem_of_fmap_2. auto.
  - rewrite lookup_insert_ne by assumption. apply Hun.
Qed.

(** the calls that a run of dispatches adds come from listeners that are
    registered at the time *)
Lemma calls_run_dispatches (L : Listener) (ds : list DispatchCall) :
  ∀ c, wf c → unregistered L c →
    ∃ extra, calls (run_dispatches ds c) = calls c ++ extra
             ∧ ∀ call, call ∈ extra → call_listener call ≠ lid L.
Proof.
  unfold run_dispatches.
  induction ds as [|d ds IH]; intros c Hwf Hun; cbn [foldl].
  - exists []. rewrite app_nil_r. split; [reflexivity|].
    intros call Hc. apply elem_of_nil in Hc. destruct Hc.
  - destruct (IH (run_dispatch d c)) as (e2 & E2 & H2).
    { apply wf_dispatch. assumption. }
    { apply unregistered_dispatch; assumption. }
    pose proof (dispatch_new_calls c (d_event d) (d_data d) (d_args d) (d_kwargs d) Hwf)
      as Hnew.
    assert (E1 : calls (run_dispatch d c)
                 = calls c ++ (snapshot (d_event d) c ≫= call_of (d_args d) (d_kwargs d))).
    { unfold run_dispatch.
      destruct (dispatch_spec c (d_event d) (d_data d) (d_args d) (d_kwargs d) Hwf)
        as (c' & -> & [[E ->]|(B' & HB & Hpost)]); cbn [fst].
      - rewrite E. cbn. rewrite app_nil_r. reflexivity.
      - exact (post_calls _ _ _ _ _ _ _ _ _ Hpost). }
    exists ((snapshot (d_event d) c ≫= call_of (d_args d) (d_kwargs d)) ++ e2).
    split; [rewrite E2, E1, app_assoc; reflexivity|].
    intros call Hc. apply elem_of_app in Hc as [Hc|Hc]; [|auto].
    apply list_elem_of_bind in Hc as (y & Hc & Hy).
    assert (E : call_listener call = lid y).
    { unfold call_of in Hc. destruct (iscoroutinefunction (coro y)).
      - apply in_singleton in Hc. subst call. reflexivity.
      - apply elem_of_nil in Hc. destruct Hc. }
    rewrite E. intros Eid. unfold snapshot in Hy.
    destruct (_active_listeners c !! replace_on_ (d_event d)) as [B|] eqn:HB;
      cbn [default] in Hy.
    + apply (Hun _ _ HB). rewrite <- Eid. apply list_elem_of_fmap_2. assumption.
    + apply elem_of_nil in Hy. destruct Hy.
Qed.

(** A one-shot listener is called at most once: after a dispatch that
    reaches it and in which its callback returns or raises an instance of
    [Exception], no later dispatch, of any event and with any arguments,
    calls its callback again. *)
Theorem single_listener_never_called_again (c : HivenEventHandler) (L : Listener)
    (e : string) (d1 : PyVal) (a1 : list PyVal) (k1 : gmap string PyVal)
    (later : list DispatchCall) (call : Call) :
  wf c → registered_in L c → single L = true →
  replace_on_ e = event_name L →
  escape_of a1 k1 L = None →
  call ∈ new_calls (fst (dispatch e d1 a1 k1 c))
           (run_dispatches later (fst (dispatch e d1 a1 k1 c))) →
  call_listener call ≠ lid L.
Proof.
  intros Hwf [Hin Huniq] Hs Hhit Hesc.
  pose proof (wf_dispatch c e d1 a1 k1 Hwf) as Hwf1.
  assert (Hun : unregistered L (fst (dispatch e d1 a1 k1 c))).
  { assert (HL : L ∈ snapshot e c) by (unfold snapshot; rewrite Hhit; assumption).
    destruct (dispatch_spec c e d1 a1 k1 Hwf)
      as (c' & -> & [[E _]|(B' & HB & Hpost)]); cbn [fst].
    { rewrite E in HL. apply elem_of_nil in HL. destruct HL. }
    destruct Hpost as [n1 r1 s1 dd1 g1 kk1 ca1 lo1 f1 o1 dm1].
    intros name B. rewrite r1.
    destruct (decide (replace_on_ e = name)) as [<-|Hne].
    - rewrite lookup_insert_eq. intros [= <-]. apply g1; assumption.
    - rewrite lookup_insert_ne by assumption. intros HB0.
      apply (Huniq _ _ HB0). congruence. }
  destruct (calls_run_dispatches L later _ Hwf1 Hun) as (extra & E & Hextra).
  unfold new_calls. rewrite E, drop_app_length. apply Hextra.
Qed.

Lemma single_listener_never_called_again_witness :
  wf (fst (registered true "x" (Some demo_ok) empty_handler))
  ∧ registered_in (snd (registered true "x" (Some demo_ok) empty_handler))
      (fst (registered true "x" (Some demo_ok) empty_handler))
  ∧ escape_of [] ∅ (snd (registered true "x" (Some demo_ok) empty_handler)) = None
  ∧ ∀ call,
      call ∈ new_calls
               (fst (dispatch "x" VNone [] ∅
                       (fst (registered true "x" (Some demo_ok) empty_handler))))
               (run_dispatches [mkDispatch "on_x" VNone [] ∅; mkDispatch "x" VNone [VInt 1] ∅]
                  (fst (dispatch "x" VNone [] ∅
                          (fst (registered true "x" (Some demo_ok) empty_handler))))) →
      call_listener call ≠ 0.
Proof.
  assert (H1 : wf (fst (registered true "x" (Some demo_ok) empty_handler)))
    by (apply wf_registered, wf_empty_handler).
  assert (H2 : registered_in (snd (registered true "x" (Some demo_ok) empty_handler))
                 (fst (registered true "x" (Some demo_ok) empty_handler)))
    by (apply registered_registered_in, wf_empty_handler).
  split; [exact H1|]. split; [exact H2|]. split; [reflexivity|].
  intros call.
  exact (single_listener_never_called_again _ _ "x" VNone [] ∅
           [mkDispatch "on_x" VNone [] ∅; mkDispatch "x" VNone [VInt 1] ∅] call
           H1 H2 eq_refl eq_refl eq_refl).
Defined.

(** The same listener with a callback that ends with
    [asyncio.CancelledError] is called by every dispatch of its event. *)
Example cancelled_single_listener_called_again :
  call_listener
    <$> calls (run_dispatches [mkDispatch "x" VNone [] ∅; mkDispatch "x" VNone [] ∅]
                 (fst (registered true "x" (Some demo_cancelled) empty_handler)))
  = [0; 0].
Proof. vm_compute. reflexivity. Qed.

(** A dispatch works on the bucket of its event only: every other bucket,
    the attributes of every listener outside that bucket, and the counter of
    identities are left as they are.  With no listener for the event the
    handler is not changed at all. *)
Theorem dispatch_is_local (c : HivenEventHandler) (e : string)
    (event_data : PyVal) (args : list PyVal) (kwargs : gmap string PyVal) :
  wf c →
  (∀ n, n ≠ replace_on_ e →
     _active_listeners (fst (dispatch e event_data args kwargs c)) !! n
     = _active_listeners c !! n)
  ∧ (∀ j, j ∉ lid <$> snapshot e c →
       objects (fst (dispatch e event_data args kwargs c)) !! j = objects c !! j)
  ∧ next_id (fst (dispatch e event_data args kwargs c)) = next_id c
  ∧ (snapshot e c = [] → dispatch e event_data args kwargs c = (c, Ok tt)).
Proof.
  intros Hwf.
  assert (H4 : snapshot e c = [] → dispatch e event_data args kwargs c = (c, Ok tt)).
  { unfold snapshot, dispatch.
    destruct (_active_listeners c !! replace_on_ e) as [[|x l]|]; cbn [default];
      intros E; [reflexivity|discriminate|reflexivity]. }
  cut ((∀ n, n ≠ replace_on_ e →
          _active_listeners (fst (dispatch e event_data args kwargs c)) !! n
          = _active_listeners c !! n)
       ∧ (∀ j, j ∉ lid <$> snapshot e c →
            objects (fst (dispatch e event_data args kwargs c)) !! j = objects c !! j)
       ∧ next_id (fst (dispatch e event_data args kwargs c)) = next_id c).
  { intros (Ha & Hb & Hc). repeat split; assumption. }
  destruct (dispatch_spec c e event_data args kwargs Hwf)
    as (c' & Hd & [[E Hc]|(B' & HB & Hpost)]); rewrite Hd; cbn [fst].
  - subst c'. repeat split; reflexivity.
  - destruct Hpost as [n1 r1 s1 d1 g1 k1 ca1 lo1 f1 o1 dm1].
    split; [|split].
    + intros n Hn. rewrite r1. apply lookup_insert_ne. congruence.
    + intros j Hj. apply o1. intros x Hx _ E. apply Hj. rewrite <- E.
      apply list_elem_of_fmap_2. assumption.
    + assumption.
Qed.

Lemma dispatch_is_local_witness :
  wf demo_handler
  ∧ dispatch "message_create" VNone [] ∅ demo_handler = (demo_handler, Ok tt).
Proof.
  split; [exact wf_demo_handler|].
  apply (dispatch_is_local demo_handler "message_create" VNone [] ∅ wf_demo_handler).
  vm_compute. reflexivity.
Defined.

(* ===================================================================== *)
(** ** More on [wait_for], the decorator and [__init__] *)
(* ===================================================================== *)

(** Without an async callback (the default of [wait_for] is no callback at
    all) the listener records the payload only: when the event comes,
    [wait_for] returns the pair [(None, None)], whatever the arguments of
    the dispatch were. *)
Theorem wait_for_without_async_callback (c : HivenEventHandler) (name : string)
    (coro : option Function) (pre post : list (list DispatchCall))
    (ds1 ds2 : list DispatchCall) (d : DispatchCall) :
  wf c → iscoroutinefunction coro = false →
  Forall (Forall (misses (replace_on_ (replace_on_ name)))) pre →
  Forall (misses (replace_on_ (replace_on_ name))) ds1 →
  replace_on_ (d_event d) = replace_on_ (replace_on_ name) →
  snd (wait_for name coro (pre ++ (ds1 ++ d :: ds2) :: post) c) = Ok (Some (VNone, VNone))
  ∧ objects (fst (wait_for name coro (pre ++ (ds1 ++ d :: ds2) :: post) c)) !! next_id c
    = Some (mkSingleState true (d_data d) VNone VNone).
Proof.
  intros Hwf Hco Hpre Hds1 Hd.
  set (n := replace_on_ (replace_on_ name)) in *.
  rewrite !wait_for_eq. fold n.
  pose proof (waiting_registered n coro c Hwf) as Hw.
  set (L := snd (registered true n coro c)) in *.
  set (c1 := fst (registered true n coro c)) in *.
  cbn [fst snd].
  assert (HnL : event_name L = n) by reflexivity.
  rewrite <- HnL in Hpre, Hds1.
  destruct (wait_for_loop_sleeps L pre ((ds1 ++ d :: ds2) :: post) c1 Hw Hpre) as [E1 Hw0].
  rewrite E1. rewrite (wait_for_loop_waiting L _ _ Hw0).
  rewrite run_dispatches_app.
  pose proof (waiting_misses L ds1 _ Hw0 Hds1) as Hw1.
  change (run_dispatches (d :: ds2) ?x) with (run_dispatches ds2 (run_dispatch d x)).
  assert (Hhit : replace_on_ (d_event d) = event_name L) by (rewrite HnL; exact Hd).
  assert (Hesc : escape_of (d_args d) (d_kwargs d) L = None).
  { unfold escape_of, outcome_of. change (Events.coro L) with coro.
    unfold iscoroutinefunction in Hco. destruct coro as [f|]; [|reflexivity].
    rewrite Hco. reflexivity. }
  pose proof (waiting_hit L d _ Hw1 eq_refl Hhit Hesc) as Hfin.
  pose proof (finished_dispatches L _ ds2 _ Hfin) as Hfin2.
  assert (Hfired : fired (d_data d) (d_args d) (d_kwargs d) L
                     (mkSingleState false VNone VNone VNone)
                   = mkSingleState true (d_data d) VNone VNone).
  { unfold fired. change (Events.coro L) with coro. rewrite Hco. reflexivity. }
  rewrite Hfired in Hfin2.
  rewrite (wait_for_loop_finished L _ post _ Hfin2 eq_refl). cbn [fst snd].
  split; [reflexivity|]. destruct Hfin2 as (_ & _ & Hobj). exact Hobj.
Qed.

Lemma wait_for_without_async_callback_witness :
  wf empty_handler ∧ iscoroutinefunction None = false
  ∧ replace_on_ (d_event demo_dispatch) = replace_on_ (replace_on_ "on_message_create")
  ∧ snd (wait_for "on_message_create" None
           ([] ++ ([] ++ demo_dispatch :: []) :: []) empty_handler)
    = Ok (Some (VNone, VNone)).
Proof.
  split; [exact wf_empty_handler|]. split; [reflexivity|]. split; [reflexivity|].
  exact (proj1 (wait_for_without_async_callback empty_handler "on_message_create" None
                  [] [] [] [] demo_dispatch wf_empty_handler eq_refl
                  (Forall_nil_2 _) (Forall_nil_2 _) eq_refl)).
Defined.

(** Among the supported names only [connection_start] is changed by the
    normalization. *)
Lemma supported_names_normal :
  Forall (fun n => n = "connection_start" ∨ replace_on_ n = n) _events.
Proof.
  unfold _events.
  repeat (constructor; [first [left; reflexivity | right; reflexivity]|]).
  constructor.
Qed.

(** For every supported event other than [connection_start], the decorator
    accepts an async function whose name normalizes to the name of the
    event ([on_<event>] or [<event>]): it returns the function itself, the
    function becomes the last persistent listener of the bucket of that
    event, and a dispatch of the event calls it. *)
Theorem event_decorator_registers_supported (c : HivenEventHandler) (n : string)
    (f : Function) (event_data : PyVal) (args : list PyVal)
    (kwargs : gmap string PyVal) :
  wf c → n ∈ _events → n ≠ "connection_start" →
  fn_async f = true → replace_on_ (fn_name f) = n →
  ∃ c1, event_decorator f c = (c1, Ok f)
        ∧ bucket n c1 = bucket n c ++ [mkListener (next_id c) false (Some f) n]
        ∧ mkCall (next_id c) args kwargs
            ∈ new_calls c1 (fst (dispatch n event_data args kwargs c1)).
Proof.
  intros Hwf Hn Hne Hf Hname.
  assert (Hnorm : replace_on_ n = n).
  { pose proof supported_names_normal as Hall. rewrite Forall_forall in Hall.
    destruct (Hall n Hn) as [E|E]; [contradiction|exact E]. }
  unfold event_decorator. rewrite Hf, Hname. cbn [negb].
  rewrite (bool_decide_eq_true_2 _ Hn). cbn [negb].
  unfold bind, ret. rewrite add_new_multi_event_listener_eq, Hnorm.
  eexists. split; [reflexivity|]. split.
  - unfold bucket, registered. cbn [fst _active_listeners].
    rewrite lookup_insert_eq. reflexivity.
  - apply (registered_invoked_iff false n n f c event_data args kwargs Hwf Hf).
    symmetry. exact Hnorm.
Qed.

Lemma event_decorator_registers_supported_witness :
  wf empty_handler ∧ "ready" ∈ _events ∧ "ready" ≠ "connection_start"
  ∧ fn_async demo_failing = true ∧ replace_on_ (fn_name demo_failing) = "ready"
  ∧ ∃ c1, event_decorator demo_failing empty_handler = (c1, Ok demo_failing)
          ∧ bucket "ready" c1 = [mkListener 0 false (Some demo_failing) "ready"].
Proof.
  assert (H2 : "ready" ∈ _events).
  { apply (bool_decide_eq_true_1 ("ready" ∈ _events)). vm_compute. reflexivity. }
  assert (H3 : "ready" ≠ "connection_start") by discriminate.
  split; [exact wf_empty_handler|]. split; [exact H2|]. split; [exact H3|].
  split; [reflexivity|]. split; [reflexivity|].
  destruct (event_decorator_registers_supported empty_handler "ready" demo_failing
              VNone [] ∅ wf_empty_handler H2 H3 eq_refl eq_refl) as (c1 & H5 & H6 & _).
  exists c1. split; [exact H5|]. rewrite H6. reflexivity.
Defined.

Lemma scan_member_eq (c : HivenEventHandler) (m : string * Function) :
  scan_member c m
  = if bool_decide (replace_on_ (fst m) ∈ _events)
    then fst (registered false (replace_on_ (replace_on_ (fst m))) (Some (snd m)) c)
    else c.
Proof.
  unfold scan_member. destruct (bool_decide _); [|reflexivity].
  rewrite add_new_multi_event_listener_eq. reflexivity.
Qed.

Lemma bucket_registered (s : bool) (n n' : string) (coro : option Function)
    (c : HivenEventHandler) :
  bucket n' (fst (registered s n coro c))
  = if decide (n = n') then bucket n' c ++ [mkListener (next_id c) s coro n]
    else bucket n' c.
Proof.
  unfold bucket, registered. cbn [fst _active_listeners].
  destruct (decide (n = n')) as [<-|Hne].
  - rewrite lookup_insert_eq. reflexivity.
  - rewrite lookup_insert_ne by assumption. reflexivity.
Qed.

Lemma scan_spec (l : list (string * Function)) :
  wf (foldl scan_member empty_handler l)
  ∧ next_id (foldl scan_member empty_handler l)
    = List.length (filter (fun m => replace_on_ (fst m) ∈ _events) l)
  ∧ (∀ m, m ∈ filter (fun m => replace_on_ (fst m) ∈ _events) l →
       ∃ L, L ∈ bucket (replace_on_ (replace_on_ (fst m))) (foldl scan_member empty_handler l)
            ∧ single L = false ∧ coro L = Some (snd m))
  ∧ (∀ n L, L ∈ bucket n (foldl scan_member empty_handler l) →
       single L = false
       ∧ ∃ m, m ∈ filter (fun m => replace_on_ (fst m) ∈ _events) l
              ∧ coro L = Some (snd m) ∧ n = replace_on_ (replace_on_ (fst m))).
Proof.
  induction l as [|m l IH] using rev_ind.
  - cbn. split; [exact wf_empty_handler|]. split; [reflexivity|]. split.
    + intros m Hm. apply elem_of_nil in Hm. destruct Hm.
    + intros n L HL. unfold bucket in HL. cbn in HL. rewrite lookup_empty in HL.
      apply elem_of_nil in HL. destruct HL.
  - destruct IH as (Hwf & Hnext & Hin & Hout).
    rewrite foldl_snoc, filter_app, scan_member_eq.
    set (c := foldl scan_member empty_handler l) in *.
    destruct (bool_decide (replace_on_ (fst m) ∈ _events)) eqn:Hok.
    + apply bool_decide_eq_true_1 in Hok.
      rewrite (filter_cons_True _ m []) by exact Hok. rewrite filter_nil.
      split; [apply wf_registered; assumption|]. split.
      { rewrite length_app. cbn. lia. }
      split.
      * intros m' Hm'. rewrite bucket_registered.
        apply elem_of_app in Hm' as [Hm'|Hm'].
        -- destruct (Hin m' Hm') as (L & HL & Hs & Hc). exists L.
           split; [|split; assumption].
           destruct (decide _); [apply elem_of_app; left|]; assumption.
        -- apply in_singleton in Hm'. subst m'.
           exists (mkListener (next_id c) false (Some (snd m))
                     (replace_on_ (replace_on_ (fst m)))).
           split; [|split; reflexivity].
           rewrite decide_True by reflexivity.
           apply elem_of_app. right. apply list_elem_of_singleton. reflexivity.
      * intros n L. rewrite bucket_registered. intros HL.
        assert (Hold : L ∈ bucket n c →
                  single L = false
                  ∧ ∃ m0, m0 ∈ filter (fun m => replace_on_ (fst m) ∈ _events) l ++ [m]
                          ∧ coro L = Some (snd m0)
                          ∧ n = replace_on_ (replace_on_ (fst m0))).
        { intros HL'. destruct (Hout n L HL') as (Hs & m0 & Hm0 & Hc & Hn).
          split; [assumption|]. exists m0. split; [|split; assumption].
          apply elem_of_app. left. assumption. }
        destruct (decide (replace_on_ (replace_on_ (fst m)) = n)) as [<-|Hne];
          [|exact (Hold HL)].
        apply elem_of_app in HL as [HL|HL]; [exact (Hold HL)|].
        apply in_singleton in HL. subst L. split; [reflexivity|].
        exists m. split; [|split; reflexivity].
        apply elem_of_app. right. apply list_elem_of_singleton. reflexivity.
    + apply bool_decide_eq_false_1 in Hok.
      rewrite (filter_cons_False _ m []) by exact Hok. rewrite filter_nil, app_nil_r.
      split; [assumption|]. split; [assumption|]. split; assumption.
Qed.

(** [__init__] leaves a well-formed handler whose listeners are exactly the
    async members with a supported normalized name: each of them is the
    callback of a persistent listener, in the bucket of its name normalized
    twice, and there is no other listener. *)
Theorem init_registers_supported_members (members : list (string * Function)) :
  wf (HivenEventHandler_init members)
  ∧ next_id (HivenEventHandler_init members) = List.length (scanned members)
  ∧ (∀ m, m ∈ scanned members →
       ∃ L, L ∈ bucket (replace_on_ (replace_on_ (fst m))) (HivenEventHandler_init members)
            ∧ single L = false ∧ coro L = Some (snd m))
  ∧ (∀ n L, L ∈ bucket n (HivenEventHandler_init members) →
       single L = false
       ∧ ∃ m, m ∈ scanned members ∧ coro L = Some (snd m)
              ∧ n = replace_on_ (replace_on_ (fst m))).
Proof. apply scan_spec. Qed.

Example init_demo_members :
  (fun c => (lid <$> bucket "message_create" c, lid <$> bucket "ready" c, next_id c))
    (HivenEventHandler_init demo_members)
  = ([0], [1], 2).
Proof. vm_compute. reflexivity. Qed.

End EventsFacts.

(* ===================================================================== *)
(** * Facts about gateway/websocket.py *)
(* ===================================================================== *)

Module GatewayFacts.
Import Gateway.

Section WithClient.

Context {Storage : Type} `{Client Storage}.

Implicit Types (w : HivenWebSocket Storage) (k : KeepAlive Storage).

(* ===================================================================== *)
(** ** [send_heartbeat] and [send_auth] *)
(* ===================================================================== *)

(** C7, amended.  When the transport fails to write, [send_heartbeat]
    raises [RestartSessionError] and [send_auth] raises
    [SessionCreateError]; in both cases nothing is recorded as sent. *)
Theorem failed_write_is_promoted w (e : PyExc) (rest : list (option PyExc)) :
  socket_outcomes w = Some e :: rest →
  snd (send_heartbeat w)
  = Raise (mkExc RestartSessionError "Failed to send heartbeat to WebSocket host!")
  ∧ snd (send_auth w)
    = Raise (mkExc SessionCreateError
               ("Failed to send auth to the host due to exception: " +:+ exc_msg e))
  ∧ socket_sent (fst (send_heartbeat w)) = socket_sent w
  ∧ socket_sent (fst (send_auth w)) = socket_sent w.
Proof.
  intros Ho. unfold send_heartbeat, send_auth, socket_send_str. rewrite Ho. cbn.
  repeat split; reflexivity.
Qed.

(** a write that goes through is recorded, and nothing is raised *)
Lemma successful_write w :
  socket_outcomes w = [] →
  snd (send_heartbeat w) = Ok tt
  ∧ socket_sent (fst (send_heartbeat w))
    = socket_sent w ++ [VDict {[ "op" := VInt OP_HEARTBEAT ]}].
Proof.
  intros Ho. unfold send_heartbeat, socket_send_str. rewrite Ho. cbn.
  split; reflexivity.
Qed.

(* ===================================================================== *)
(** ** [KeepAlive.stop] *)
(* ===================================================================== *)

Lemma stop_tasks k : tasks (stop k) = tasks k.
Proof.
  unfold stop, task_cancelled, task_cancel. cbn [tasks].
  destruct (_task k) as [i|]; [|reflexivity].
  destruct (tasks k !! i) as [[]|]; reflexivity.
Qed.

Lemma stop_idempotent k : stop (stop k) = stop k.
Proof.
  unfold stop at 1. rewrite stop_tasks. unfold stop. cbn [ws _task tasks].
  f_equal.
  destruct (_task k) as [i|]; [|reflexivity].
  unfold task_cancelled, task_cancel.
  destruct (tasks k !! i) as [[]|]; reflexivity.
Qed.

Lemma run_loop_inactive (ticks : list Tick) k :
  _active k = false → run_loop ticks k = (k, Returned).
Proof.
  intros Ha. destruct ticks; cbn [run_loop]; rewrite Ha, andb_false_r; reflexivity.
Qed.

Lemma env_step_inactive (ev : EnvEvent) k :
  _active k = false → _active (env_step ev k) = false.
Proof.
  intros Ha. destruct ev as [i el| |b]; cbn [env_step].
  - destruct (tasks k !! i) as [[]|]; try assumption.
    destruct (run_heartbeat_task el (ws k)). assumption.
  - reflexivity.
  - assumption.
Qed.

Lemma env_steps_inactive (evs : list EnvEvent) :
  ∀ k, _active k = false → _active (foldl (fun k ev => env_step ev k) k evs) = false.
Proof.
  induction evs as [|ev evs IH]; intros k Ha; cbn [foldl]; [assumption|].
  apply IH, env_step_inactive, Ha.
Qed.

Lemma env_steps_after_stop (ev1 ev2 : list EnvEvent) k :
  _active (foldl (fun k ev => env_step ev k) k (ev1 ++ CallStop :: ev2)) = false.
Proof.
  rewrite foldl_app. cbn [foldl]. apply env_steps_inactive. reflexivity.
Qed.

Lemma run_loop_cons (t : Tick) (ticks : list Tick) k :
  run_loop (t :: ticks) k
  = if _open (ws k) && _active k
    then if cancelled t
         then (foldl (fun k ev => env_step ev k) (create_heartbeat_task k) (during t), Returned)
         else run_loop ticks
                (foldl (fun k ev => env_step ev k) (create_heartbeat_task k) (during t))
    else (k, Returned).
Proof. reflexivity. Qed.

Lemma run_loop_stopped (pre : list Tick) :
  ∀ (ev1 ev2 : list EnvEvent) (c : bool) (post : list Tick) k,
    run_loop (pre ++ mkTick (ev1 ++ CallStop :: ev2) c :: post) k
    = run_loop (pre ++ [mkTick (ev1 ++ CallStop :: ev2) c]) k
    ∧ snd (run_loop (pre ++ mkTick (ev1 ++ CallStop :: ev2) c :: post) k) = Returned.
Proof.
  induction pre as [|t pre IH]; intros ev1 ev2 c post k; cbn [app];
    rewrite !run_loop_cons.
  - destruct (_open (ws k) && _active k); [|split; reflexivity].
    cbn [during cancelled]. destruct c; [split; reflexivity|].
    rewrite !run_loop_inactive by apply env_steps_after_stop. split; reflexivity.
  - destruct (_open (ws k) && _active k); [|split; reflexivity].
    destruct (cancelled t); [split; reflexivity|]. apply IH.
Qed.

(** [stop()] can be called any number of times: it never raises and a
    second call changes nothing.  Its test [self._task.cancelled()] guards
    the call of [cancel()], so no task is ever cancelled by it.  Once
    [stop()] has run, the keep-alive loop makes no further heartbeat task:
    resumed with any future, it returns at its next test; and when [stop()]
    is called during one of the sleeps of the loop, what comes after that
    sleep is never reached. *)
Lemma stop_ends_task_creation k :
  stop (stop k) = stop k
  ∧ tasks (stop k) = tasks k
  ∧ _active (stop k) = false
  ∧ (∀ ticks : list Tick, run_loop ticks (stop k) = (stop k, Returned))
  ∧ (∀ (pre post : list Tick) (ev1 ev2 : list EnvEvent) (c : bool),
       run (pre ++ mkTick (ev1 ++ CallStop :: ev2) c :: post) k
       = run (pre ++ [mkTick (ev1 ++ CallStop :: ev2) c]) k
       ∧ snd (run (pre ++ mkTick (ev1 ++ CallStop :: ev2) c :: post) k) = Returned).
Proof.
  split; [apply stop_idempotent|]. split; [apply stop_tasks|].
  split; [reflexivity|]. split.
  - intros ticks. apply run_loop_inactive. reflexivity.
  - intros pre post ev1 ev2 c. unfold run. apply run_loop_stopped.
Qed.

(** A heartbeat task that is pending when [stop()] is called is still
    pending afterwards, and when the event loop runs it, the heartbeat is
    written: a heartbeat is sent after [stop()] has returned. *)
Lemma pending_heartbeat_sent_after_stop k (i : nat) (elapsed : Z) :
  tasks k !! i = Some Pending → (elapsed ≤ 30)%Z → socket_outcomes (ws k) = [] →
  tasks (stop k) !! i = Some Pending
  ∧ _active (stop k) = false
  ∧ socket_sent (ws (env_step (RunTask i elapsed) (stop k)))
    = socket_sent (ws k) ++ [VDict {[ "op" := VInt OP_HEARTBEAT ]}].
Proof.
  intros Hi He Ho. rewrite stop_tasks. split; [assumption|]. split; [reflexivity|].
  cbn [env_step]. rewrite stop_tasks, Hi.
  unfold run_heartbeat_task, send_heartbeat, socket_send_str. cbn [ws stop].
  assert (E : (30 <? elapsed)%Z = false) by (apply Z.ltb_ge; assumption).
  rewrite E, Ho. reflexivity.
Qed.

(* ===================================================================== *)
(** ** The heartbeat tasks are never awaited *)
(* ===================================================================== *)

Lemma run_heartbeat_task_open (elapsed : Z) w :
  _open (fst (run_heartbeat_task elapsed w)) = _open w.
Proof.
  unfold run_heartbeat_task, send_heartbeat, socket_send_str.
  destruct (30 <? elapsed)%Z; [reflexivity|].
  destruct (socket_outcomes w) as [|[e|] rest]; reflexivity.
Qed.

Lemma same_control_refl k : same_control k k.
Proof.
  unfold same_control. repeat split.
  induction (tasks k) as [|[] l IH]; constructor; auto.
Qed.

Lemma same_control_create k k' :
  same_control k k' → same_control (create_heartbeat_task k) (create_heartbeat_task k').
Proof.
  intros (Ho & Ha & Ht & Hts). unfold same_control, create_heartbeat_task.
  cbn [ws _active _task tasks].
  split; [assumption|]. split; [assumption|]. split.
  - rewrite (Forall2_length _ _ _ Hts). reflexivity.
  - apply Forall2_app; [assumption|]. constructor; [exact I|constructor].
Qed.

Lemma same_control_step (ev : EnvEvent) k k' :
  same_control k k' → same_control (env_step ev k) (env_step ev k').
Proof.
  intros (Ho & Ha & Ht & Hts). destruct ev as [i el| |b]; cbn [env_step].
  - destruct (tasks k !! i) as [t|] eqn:Hi.
    + destruct (Forall2_lookup_l _ _ _ _ _ Hts Hi) as (t' & Hi' & Hrel). rewrite Hi'.
      destruct t, t'; try destruct Hrel; try (repeat split; assumption).
      pose proof (run_heartbeat_task_open el (ws k)) as E1.
      pose proof (run_heartbeat_task_open el (ws k')) as E2.
      destruct (run_heartbeat_task el (ws k)) as [w1 r1].
      destruct (run_heartbeat_task el (ws k')) as [w2 r2].
      cbn [fst] in E1, E2. unfold same_control. cbn [ws _active _task tasks].
      split; [congruence|]. split; [assumption|]. split; [assumption|].
      apply Forall2_insert; [assumption|exact I].
    + assert (Hi' : tasks k' !! i = None).
      { apply lookup_ge_None. rewrite <- (Forall2_length _ _ _ Hts).
        apply lookup_ge_None. assumption. }
      rewrite Hi'. repeat split; assumption.
  - unfold same_control. rewrite !stop_tasks. repeat split; assumption.
  - unfold same_control. cbn [ws _active _task tasks set_open _open].
    repeat split; assumption.
Qed.

Lemma same_control_steps (evs : list EnvEvent) :
  ∀ k k', same_control k k' →
    same_control (foldl (fun k ev => env_step ev k) k evs)
                 (foldl (fun k ev => env_step ev k) k' evs).
Proof.
  induction evs as [|ev evs IH]; intros k k' Hs; cbn [foldl]; [assumption|].
  apply IH, same_control_step, Hs.
Qed.

Lemma run_loop_same_control (ticks : list Tick) :
  ∀ k k', same_control k k' →
    same_control (fst (run_loop ticks k)) (fst (run_loop ticks k'))
    ∧ snd (run_loop ticks k) = snd (run_loop ticks k').
Proof.
  induction ticks as [|t ticks IH]; intros k k' Hs.
  - cbn [run_loop]. destruct Hs as (Ho & Ha & Ht & Hts) eqn:E.
    rewrite <- Ho, <- Ha. destruct (_open (ws k) && _active k); cbn [fst snd].
    + split; [|reflexivity]. apply same_control_create. assumption.
    + split; [assumption|reflexivity].
  - rewrite !run_loop_cons. pose proof Hs as (Ho & Ha & Ht & Hts).
    rewrite <- Ho, <- Ha. destruct (_open (ws k) && _active k); cbn [fst snd].
    + pose proof (same_control_steps (during t) _ _ (same_control_create _ _ Hs)) as Hs2.
      destruct (cancelled t); cbn [fst snd]; [split; [assumption|reflexivity]|].
      apply IH. assumption.
    + split; [assumption|reflexivity].
Qed.

(** What the transport does with the heartbeats has no influence on the
    keep-alive loop: with any other script of write outcomes, [run] takes
    the same steps, creates the same tasks and ends in the same way.  The
    result of a heartbeat stays in its task, which nothing reads. *)
Lemma run_ignores_heartbeat_results (ticks : list Tick) k (o : list (option PyExc)) :
  same_control (fst (run ticks k)) (fst (run ticks (with_outcomes o k)))
  ∧ snd (run ticks k) = snd (run ticks (with_outcomes o k)).
Proof.
  unfold run. apply run_loop_same_control.
  unfold same_control, with_outcomes. cbn [ws _active _task tasks set_socket _open].
  repeat split.
  induction (tasks k) as [|[] l IH]; constructor; auto.
Qed.

(* ===================================================================== *)
(** ** The handshake loop *)
(* ===================================================================== *)

(** the storage after one frame of the handshake *)
Lemma apply_joins_cons (m : WSMessage) (l : list WSMessage) (s : Storage) :
  apply_joins (m :: l) s
  = apply_joins l (if is_house_join m then add_or_update_house (frame_data m) s else s).
Proof. reflexivity. Qed.

Lemma completes_after_nil (expected : nat) (s : Storage) :
  completes_after expected [] s ↔ houses_len s = expected.
Proof.
  unfold completes_after. cbn. split; [tauto|].
  intros E. split; [constructor|]. split; [lia|assumption].
Qed.

Lemma completes_after_cons (expected : nat) (m : WSMessage) (pre : list WSMessage)
    (s : Storage) :
  completes_after expected (m :: pre) s
  ↔ text_dict m = true ∧ houses_len s ≠ expected
    ∧ completes_after expected pre
        (if is_house_join m then add_or_update_house (frame_data m) s else s).
Proof.
  unfold completes_after. rewrite Forall_cons, apply_joins_cons. split.
  - intros ((Hm & Hall) & Hk & He). split; [assumption|]. split.
    + apply (Hk 0). cbn. lia.
    + split; [assumption|]. split; [|assumption].
      intros k Hlt. specialize (Hk (S k)). cbn in Hk. apply Hk. lia.
  - intros (Hm & H0 & Hall & Hk & He). split; [auto|]. split; [|assumption].
    intros [|k] Hlt; [exact H0|]. cbn [take]. rewrite apply_joins_cons.
    apply Hk. cbn in Hlt. lia.
Qed.

Lemma text_dict_inv (m : WSMessage) :
  text_dict m = true → msg_type m = TEXT ∧ ∃ j, msg_json m = Some (VDict j).
Proof.
  unfold text_dict. destruct (msg_type m); try discriminate.
  destruct (msg_json m) as [[]|]; try discriminate. eauto.
Qed.

Lemma set_storage_same w : set_storage (storage w) w = w.
Proof. destruct w. reflexivity. Qed.

Lemma queued_cons (m : WSMessage) (l : list WSMessage) :
  queued (m :: l) = if is_house_join m then queued l else m :: queued l.
Proof.
  unfold queued. destruct (is_house_join m) eqn:E.
  - apply filter_cons_False. rewrite E. discriminate.
  - apply filter_cons_True. assumption.
Qed.

(** one turn of the loop on a well-formed frame *)
Lemma init_loop_step (expected : nat) (additional : list WSMessage) (m : WSMessage)
    (inbox : list WSMessage) w :
  text_dict m = true → houses_len (storage w) ≠ expected →
  init_loop expected true additional (m :: inbox) w
  = if is_house_join m
    then init_loop expected true additional inbox
           (set_storage (add_or_update_house (frame_data m) (storage w)) w)
    else init_loop expected true (additional ++ [m]) inbox w.
Proof.
  intros Hm Hne. destruct (text_dict_inv m Hm) as (Ht & j & Hj).
  cbn [init_loop].
  assert (E : Nat.eqb expected (houses_len (storage w)) = false).
  { apply Nat.eqb_neq. congruence. }
  rewrite E. cbn [negb].
  unfold wait_for_event, received_init_event, json_dict. rewrite Ht, Hj.
  unfold is_house_join, frame_event, frame_data, extract_event. rewrite Hj.
  destruct (str_eq (dict_get "e" j) "HOUSE_JOIN"); reflexivity.
Qed.

Lemma init_loop_exit (expected : nat) (additional inbox : list WSMessage) w :
  houses_len (storage w) = expected →
  init_loop expected true additional inbox w = (inbox, w, Done additional).
Proof.
  intros E. assert (E' : Nat.eqb expected (houses_len (storage w)) = true).
  { apply Nat.eqb_eq. congruence. }
  destruct inbox; cbn [init_loop]; rewrite E'; reflexivity.
Qed.

(** The loop goes on exactly as long as the two counts differ, and what it
    leaves behind is the queue of the frames that were not [HOUSE_JOIN]. *)
Lemma init_loop_complete (pre : list WSMessage) :
  ∀ (expected : nat) (additional post : list WSMessage) w,
    completes_after expected pre (storage w) →
    init_loop expected true additional (pre ++ post) w
    = (post, set_storage (apply_joins pre (storage w)) w, Done (additional ++ queued pre)).
Proof.
  induction pre as [|m pre IH]; intros expected additional post w Hc.
  - apply completes_after_nil in Hc. cbn [app].
    rewrite init_loop_exit by assumption.
    cbn. rewrite set_storage_same, app_nil_r. reflexivity.
  - apply completes_after_cons in Hc as (Hm & Hne & Hc).
    cbn [app]. rewrite init_loop_step by assumption.
    rewrite apply_joins_cons, queued_cons.
    destruct (is_house_join m).
    + rewrite IH by exact Hc. reflexivity.
    + rewrite IH by exact Hc. rewrite <- app_assoc. reflexivity.
Qed.

Lemma init_loop_inv (inbox : list WSMessage) :
  ∀ (expected : nat) (additional post q : list WSMessage) w w',
    init_loop expected true additional inbox w = (post, w', Done q) →
    ∃ pre, inbox = pre ++ post ∧ completes_after expected pre (storage w).
Proof.
  induction inbox as [|m inbox IH]; intros expected additional post q w w' Hl.
  - cbn [init_loop] in Hl.
    destruct (Nat.eqb_spec expected (houses_len (storage w))) as [E|E]; cbn [negb] in Hl;
      [|discriminate].
    injection Hl as <- <- <-. exists []. split; [reflexivity|].
    apply completes_after_nil. congruence.
  - destruct (Nat.eqb_spec expected (houses_len (storage w))) as [E|E].
    + rewrite init_loop_exit in Hl by congruence. injection Hl as <- <- <-.
      exists []. split; [reflexivity|]. apply completes_after_nil. congruence.
    + destruct (text_dict m) eqn:Hm.
      * rewrite init_loop_step in Hl by congruence.
        destruct (is_house_join m) eqn:Hj.
        -- destruct (IH _ _ _ _ _ _ Hl) as (pre & -> & Hc).
           exists (m :: pre). split; [reflexivity|].
           apply completes_after_cons. rewrite Hj. cbn [storage set_storage] in Hc.
           split; [assumption|]. split; [congruence|assumption].
        -- destruct (IH _ _ _ _ _ _ Hl) as (pre & -> & Hc).
           exists (m :: pre). split; [reflexivity|].
           apply completes_after_cons. rewrite Hj.
           split; [assumption|]. split; [congruence|assumption].
      * exfalso. cbn [init_loop] in Hl.
        assert (E' : Nat.eqb expected (houses_len (storage w)) = false)
          by (apply Nat.eqb_neq; assumption).
        rewrite E' in Hl. cbn [negb] in Hl.
        unfold wait_for_event, received_init_event, json_dict, text_dict in Hl, Hm.
        destruct (msg_type m); try discriminate Hl;
          destruct (msg_json m) as [[]|]; discriminate.
Qed.

(** C6, amended.  The receive loop of [received_init] goes on exactly while
    the number of houses in the storage differs from the number of entries
    of [house_memberships]: it ends normally, with the frames [post] not
    received, exactly when the frames before [post] are well-formed, the
    two counts differ before each of them and are equal after the last.
    Each [HOUSE_JOIN] frame among them has been applied to the storage, in
    order, and the other frames are the queue, in order. *)
Theorem handshake_loop_runs_while_counts_differ (expected : nat)
    (additional inbox post q : list WSMessage) w w' :
  init_loop expected true additional inbox w = (post, w', Done q)
  ↔ ∃ pre, inbox = pre ++ post
           ∧ completes_after expected pre (storage w)
           ∧ w' = set_storage (apply_joins pre (storage w)) w
           ∧ q = additional ++ queued pre.
Proof.
  split.
  - intros Hl. destruct (init_loop_inv _ _ _ _ _ _ _ Hl) as (pre & -> & Hc).
    exists pre. split; [reflexivity|]. split; [assumption|].
    rewrite (init_loop_complete pre expected additional post w Hc) in Hl.
    injection Hl as <- <-. split; reflexivity.
  - intros (pre & -> & Hc & -> & ->). apply init_loop_complete. assumption.
Qed.

(* ===================================================================== *)
(** ** The replay of the queue *)
(* ===================================================================== *)

(** [received_message] on a frame that does not start a handshake: the
    frames still to come are not touched *)
Lemma received_message_plain (fuel : nat) (m : WSMessage) (inbox : list WSMessage) w :
  text_dict m = true → is_init_state m = false →
  received_message (S fuel) m inbox w = (inbox, handle_plain m w, Done tt).
Proof.
  intros Hm Hi. destruct (text_dict_inv m Hm) as (_ & j & Hj).
  cbn [received_message]. unfold json_dict, extract_event, handle_plain.
  unfold is_init_state, is_event, frame_op, frame_event, frame_data in *.
  rewrite Hj in *.
  destruct (int_eq (dict_get "op" j) OP_CONNECTION_START); [reflexivity|].
  destruct (int_eq (dict_get "op" j) OP_EVENT); [|reflexivity].
  cbn [andb] in Hi. rewrite Hi. reflexivity.
Qed.

Lemma replay_plain (fuel : nat) (events : list WSMessage) :
  ∀ (inbox : list WSMessage) w,
    Forall (fun m => text_dict m = true) events →
    Forall (fun m => is_init_state m = false) events →
    replay (received_message (S fuel)) events inbox w
    = (inbox, foldl (fun w m => handle_plain m w) w events, Done tt).
Proof.
  induction events as [|m events IH]; intros inbox w Ht Hi; [reflexivity|].
  apply Forall_cons in Ht as [Hm Ht]. apply Forall_cons in Hi as [Hmi Hi].
  cbn [replay foldl]. rewrite received_message_plain by assumption.
  apply IH; assumption.
Qed.

Lemma trace_handle_plain (m : WSMessage) w :
  trace (handle_plain m w) = trace w ++ dispatches_of [m].
Proof.
  unfold handle_plain, dispatches_of, is_event.
  destruct (int_eq (frame_op m) OP_CONNECTION_START) eqn:E1.
  - assert (E0 : int_eq (frame_op m) OP_EVENT = false).
    { unfold int_eq in *. destruct (frame_op m); try reflexivity.
      apply Z.eqb_eq in E1. subst. reflexivity. }
    rewrite filter_cons_False by (rewrite E0; exact id).
    cbn. rewrite app_nil_r. reflexivity.
  - destruct (int_eq (frame_op m) OP_EVENT) eqn:E0.
    + rewrite filter_cons_True by (rewrite E0; exact I). reflexivity.
    + rewrite filter_cons_False by (rewrite E0; exact id).
      cbn. rewrite app_nil_r. reflexivity.
Qed.

Lemma dispatches_of_cons (m : WSMessage) (l : list WSMessage) :
  dispatches_of (m :: l) = dispatches_of [m] ++ dispatches_of l.
Proof.
  unfold dispatches_of. destruct (is_event m) eqn:E.
  - rewrite !filter_cons_True by (rewrite E; exact I). reflexivity.
  - rewrite !filter_cons_False by (rewrite E; exact id). reflexivity.
Qed.

Lemma trace_replay_plain (events : list WSMessage) :
  ∀ w, trace (foldl (fun w m => handle_plain m w) w events)
       = trace w ++ dispatches_of events.
Proof.
  induction events as [|m events IH]; intros w; cbn [foldl].
  - unfold dispatches_of. cbn. rewrite app_nil_r. reflexivity.
  - rewrite IH, trace_handle_plain, (dispatches_of_cons m events), app_assoc. reflexivity.
Qed.

Lemma connection_start_replay_plain (events : list WSMessage) :
  ∀ w, is_Some (_connection_start w) →
       is_Some (_connection_start (foldl (fun w m => handle_plain m w) w events)).
Proof.
  induction events as [|m events IH]; intros w Hs; cbn [foldl]; [assumption|].
  apply IH. unfold handle_plain.
  destruct (int_eq (frame_op m) OP_CONNECTION_START); [cbn; eauto|].
  destruct (int_eq (frame_op m) OP_EVENT); assumption.
Qed.

Lemma queued_text_dict (pre : list WSMessage) :
  Forall (fun m => text_dict m = true) pre →
  Forall (fun m => text_dict m = true) (queued pre).
Proof.
  intros Hall. unfold queued. apply Forall_forall. intros m Hm.
  apply list_elem_of_filter in Hm as [_ Hm]. rewrite Forall_forall in Hall. auto.
Qed.

(** C1, amended.  Take a handshake that is complete after exactly the
    frames [pre], and whose queue holds no [INIT_STATE] event.  The loop
    leaves the frames of [pre] that are not [HOUSE_JOIN] in the queue, in
    the order of receipt.  The replay hands them to [received_message] one
    after the other in that order and receives nothing: the frames [post]
    that follow are all still to come when the replay is over.  Up to
    there the collaborators have seen the [init] listeners and then one
    [parsers.dispatch] per queued [EVENT] frame, in the order of receipt.
    When the connection start was recorded before, [received_init] then
    returns, with the [ready] listeners called last and [post] untouched. *)
Theorem handshake_replays_queue_in_order (fuel : nat) (msg dm : gmap string PyVal)
    (expected : nat) (pre post : list WSMessage) w :
  msg !! "d" = Some (VDict dm) →
  py_len (default (VDict ∅) (dm !! "house_memberships")) = Some expected →
  completes_after expected pre (update_all (VDict dm) (storage w)) →
  Forall (fun m => is_init_state m = false) (queued pre) →
  ∃ w2,
    init_loop expected true [] (pre ++ post)
      (set_storage (update_all (VDict dm) (storage w)) (emit (CallListeners "init") w))
    = (post, w2, Done (queued pre))
    ∧ replay (received_message (S fuel)) (queued pre) post w2
      = (post, foldl (fun w m => handle_plain m w) w2 (queued pre), Done tt)
    ∧ trace (foldl (fun w m => handle_plain m w) w2 (queued pre))
      = trace w ++ [CallListeners "init"] ++ dispatches_of (queued pre)
    ∧ (is_Some (_connection_start w) →
       ∃ w', received_init (S fuel) msg (pre ++ post) w = (post, w', Done tt)
             ∧ trace w' = trace w ++ [CallListeners "init"] ++ dispatches_of (queued pre)
                            ++ [CallListeners "ready"]
             ∧ _ready w' = true).
Proof.
  intros Hd Hlen Hc Hni.
  set (w1 := set_storage (update_all (VDict dm) (storage w)) (emit (CallListeners "init") w)).
  assert (Hloop : init_loop expected true [] (pre ++ post) w1
                  = (post, set_storage (apply_joins pre (storage w1)) w1, Done (queued pre))).
  { apply (init_loop_complete pre expected [] post w1). exact Hc. }
  set (w2 := set_storage (apply_joins pre (storage w1)) w1) in *.
  assert (Ht : Forall (fun m => text_dict m = true) (queued pre)).
  { apply queued_text_dict. destruct Hc as [Hall _]. exact Hall. }
  pose proof (replay_plain fuel (queued pre) post w2 Ht Hni) as Hrep.
  assert (Htr : trace (foldl (fun w m => handle_plain m w) w2 (queued pre))
                = trace w ++ [CallListeners "init"] ++ dispatches_of (queued pre)).
  { rewrite trace_replay_plain. cbn [trace w2 w1 set_storage emit].
    rewrite <- !app_assoc. reflexivity. }
  set (w3 := foldl (fun w m => handle_plain m w) w2 (queued pre)) in *.
  exists w2. split; [exact Hloop|]. split; [exact Hrep|]. split; [exact Htr|].
  intros Hcs.
  assert (Hcs3 : is_Some (_connection_start w3)).
  { apply connection_start_replay_plain. exact Hcs. }
  destruct Hcs3 as [t1 Ht1].
  assert (Htruthy : bool_decide (msg ≠ ∅) = true).
  { apply bool_decide_eq_true_2. intros ->. rewrite lookup_empty in Hd. discriminate. }
  eexists.
  unfold received_init, received_init_with. cbv zeta. rewrite Hd, Hlen, Htruthy.
  change (init_loop expected true [] (pre ++ post) _)
    with (init_loop expected true [] (pre ++ post) w1).
  rewrite Hloop, Hrep. unfold init_epilogue. fold w3. rewrite Ht1.
  split; [reflexivity|]. split; [|reflexivity].
  cbn [trace set_ready emit set_startup_time]. rewrite Htr.
  rewrite <- !app_assoc. reflexivity.
Qed.

(* ===================================================================== *)
(** ** The listening loop *)
(* ===================================================================== *)

Lemma texts_cons (m : WSMessage) (l : list WSMessage) :
  texts (m :: l) = if is_dropped m then texts l else m :: texts l.
Proof.
  unfold texts. destruct (is_dropped m) eqn:E.
  - apply filter_cons_False. rewrite E. discriminate.
  - apply filter_cons_True. assumption.
Qed.

(** one turn of the listening loop on a frame of the steady state *)
Lemma steady_step (fuel : nat) (m : WSMessage) (inbox : list WSMessage) w :
  steady m = true →
  wait_for_event_default (S fuel) (m :: inbox) w
  = (inbox, (if is_dropped m then w else handle_plain m w), Done tt).
Proof.
  unfold steady. intros Hs. unfold wait_for_event_default.
  destruct (is_dropped m) eqn:Hd.
  - unfold is_dropped in Hd. destruct (msg_type m); try discriminate Hd; reflexivity.
  - cbn [orb] in Hs. apply andb_true_iff in Hs as [Ht Hi].
    apply negb_true_iff in Hi.
    destruct (text_dict_inv m Ht) as (Hty & _). rewrite Hty.
    apply received_message_plain; assumption.
Qed.

Lemma listening_loop_steady_prefix (fuel : nat) (pre : list WSMessage) :
  ∀ (steps : nat) (rest : list WSMessage) w,
    Forall (fun m => steady m = true) pre →
    listening_loop (S fuel) (List.length pre + steps) (pre ++ rest) w
    = listening_loop (S fuel) steps rest
        (foldl (fun w m => handle_plain m w) w (texts pre)).
Proof.
  induction pre as [|m pre IH]; intros steps rest w Hall; [reflexivity|].
  apply Forall_cons in Hall as [Hm Hall].
  change (List.length (m :: pre) + steps) with (S (List.length pre + steps)).
  cbn [app listening_loop].
  rewrite steady_step by assumption. rewrite texts_cons.
  destruct (is_dropped m); cbn [foldl]; apply IH; assumption.
Qed.

(** In the steady state the listening loop takes the frames in the order
    of arrival: every well-formed [TEXT] frame that does not start a
    handshake is handled by [received_message], one [parsers.dispatch] per
    [EVENT] frame in that order, the frames of the other data types are
    dropped, and when no frame is left the loop is suspended in the
    receive; it has not returned. *)
Theorem listening_loop_handles_frames_in_order (fuel steps : nat)
    (frames : list WSMessage) w :
  Forall (fun m => steady m = true) frames → List.length frames < steps →
  listening_loop (S fuel) steps frames w
  = ([], foldl (fun w m => handle_plain m w) w (texts frames), Blocked)
  ∧ trace (foldl (fun w m => handle_plain m w) w (texts frames))
    = trace w ++ dispatches_of (texts frames).
Proof.
  intros Hall Hlt. split; [|apply trace_replay_plain].
  assert (∃ n, steps = List.length frames + S n) as [n ->]
    by (exists (steps - S (List.length frames)); lia).
  pose proof (listening_loop_steady_prefix fuel frames (S n) [] w Hall) as E.
  rewrite app_nil_r in E. rewrite E. reflexivity.
Qed.

(** A close frame ends the listening loop with an exception, after the
    frames before it have been handled in order: [RestartSessionError] for
    [CLOSE] and [CLOSING], [WebSocketClosedError] for [CLOSED] and [ERROR].
    Only [CLOSED] marks the websocket as not open.  The frames after the
    close frame are not received. *)
Theorem close_frame_ends_listening_loop (fuel steps : nat)
    (pre post : list WSMessage) (m : WSMessage) w :
  Forall (fun m => steady m = true) pre → is_closing m = true →
  List.length pre < steps →
  ∃ w' e,
    listening_loop (S fuel) steps (pre ++ m :: post) w = (post, w', Raised e)
    ∧ trace w' = trace w ++ dispatches_of (texts pre)
    ∧ exc_class e = match msg_type m with
                    | CLOSE | CLOSING => RestartSessionError
                    | _ => WebSocketClosedError
                    end
    ∧ _open w' = match msg_type m with
                 | CLOSED => false
                 | _ => _open (foldl (fun w m => handle_plain m w) w (texts pre))
                 end.
Proof.
  intros Hall Hm Hlt.
  assert (∃ n, steps = List.length pre + S n) as [n ->]
    by (exists (steps - S (List.length pre)); lia).
  rewrite listening_loop_steady_prefix by assumption.
  pose proof (trace_replay_plain (texts pre) w) as Htr.
  set (w1 := foldl (fun w m => handle_plain m w) w (texts pre)) in *.
  cbn [listening_loop wait_for_event_default].
  unfold is_closing in Hm.
  destruct (msg_type m); try discriminate Hm;
    eexists _, _; (split; [reflexivity|]); (split; [exact Htr|]);
    split; reflexivity.
Qed.

(** *** The loop does not return *)

Lemma init_loop_consumes (inbox : list WSMessage) :
  ∀ (expected : nat) (b : bool) (additional : list WSMessage) w,
    List.length (init_loop expected b additional inbox w).1.1 ≤ List.length inbox
    ∧ ((init_loop expected b additional inbox w).2 = Blocked →
       (init_loop expected b additional inbox w).1.1 = [])
    ∧ (init_loop expected b additional inbox w).2 ≠ OutOfFuel
    ∧ ∀ q, (init_loop expected b additional inbox w).2 = Done q →
           List.length q + List.length (init_loop expected b additional inbox w).1.1
           ≤ List.length additional + List.length inbox.
Proof.
  induction inbox as [|m inbox IH]; intros expected b additional w.
  - cbn [init_loop]. destruct (negb _); cbn [fst snd].
    + split; [lia|]. split; [reflexivity|]. split; [discriminate|]. discriminate.
    + split; [lia|]. split; [discriminate|]. split; [discriminate|].
      intros q [= <-]. lia.
  - cbn [init_loop]. destruct (negb _).
    2:{ cbn [fst snd]. split; [lia|]. split; [discriminate|]. split; [discriminate|].
        intros q [= <-]. lia. }
    assert (Hrec : ∀ add' w',
              List.length add' ≤ S (List.length additional) →
              List.length (init_loop expected b add' inbox w').1.1
                ≤ List.length (m :: inbox)
              ∧ ((init_loop expected b add' inbox w').2 = Blocked →
                 (init_loop expected b add' inbox w').1.1 = [])
              ∧ (init_loop expected b add' inbox w').2 ≠ OutOfFuel
              ∧ ∀ q, (init_loop expected b add' inbox w').2 = Done q →
                     List.length q + List.length (init_loop expected b add' inbox w').1.1
                     ≤ List.length additional + List.length (m :: inbox)).
    { intros add' w' Hadd. destruct (IH expected b add' w') as (I1 & I2 & I3 & I4).
      change (List.length (m :: inbox)) with (S (List.length inbox)).
      split; [lia|]. split; [exact I2|]. split; [exact I3|].
      intros q Hq. specialize (I4 q Hq). lia. }
    assert (Hraise : ∀ w' e,
              List.length (inbox, w', @Raised (list WSMessage) e).1.1
                ≤ List.length (m :: inbox)
              ∧ ((inbox, w', @Raised (list WSMessage) e).2 = Blocked →
                 (inbox, w', @Raised (list WSMessage) e).1.1 = [])
              ∧ (inbox, w', @Raised (list WSMessage) e).2 ≠ OutOfFuel
              ∧ ∀ q, (inbox, w', @Raised (list WSMessage) e).2 = Done q →
                     List.length q
                     + List.length (inbox, w', @Raised (list WSMessage) e).1.1
                     ≤ List.length additional + List.length (m :: inbox)).
    { intros w' e. cbn [fst snd].
      change (List.length (m :: inbox)) with (S (List.length inbox)).
      split; [lia|]. split; [discriminate|]. split; [discriminate|]. discriminate. }
    destruct (wait_for_event received_init_event m w) as [w1 [ws_event|e]];
      [|apply Hraise].
    destruct b; [|apply Hrec; lia].
    destruct ws_event as [ev|]; [|apply Hraise].
    destruct (json_dict ev) as [j|e]; [|apply Hraise].
    destruct (extract_event j) as [[op event] d].
    destruct (str_eq event "HOUSE_JOIN"); apply Hrec; [lia|].
    rewrite length_app. cbn. lia.
Qed.

Lemma replay_consumes (handle : Handler) (bound : nat) :
  (∀ (m : WSMessage) (inbox : list WSMessage) w,
     List.length inbox < bound →
     (handle m inbox w).2 ≠ OutOfFuel
     ∧ List.length (handle m inbox w).1.1 ≤ List.length inbox
     ∧ ((handle m inbox w).2 = Blocked → (handle m inbox w).1.1 = [])) →
  ∀ (events inbox : list WSMessage) w,
    List.length inbox < bound →
    (replay handle events inbox w).2 ≠ OutOfFuel
    ∧ List.length (replay handle events inbox w).1.1 ≤ List.length inbox
    ∧ ((replay handle events inbox w).2 = Blocked →
       (replay handle events inbox w).1.1 = []).
Proof.
  intros Hh. induction events as [|ev events IH]; intros inbox w Hlt.
  - cbn. split; [discriminate|]. split; [lia|discriminate].
  - cbn [replay]. destruct (Hh ev inbox w Hlt) as (H1 & H2 & H3).
    destruct (handle ev inbox w) as [[inbox1 w1] [[]|e| |]]; cbn [fst snd] in *.
    + destruct (IH inbox1 w1 ltac:(lia)) as (J1 & J2 & J3).
      split; [assumption|]. split; [lia|assumption].
    + split; [discriminate|]. split; [assumption|discriminate].
    + split; [discriminate|]. split; assumption.
    + contradiction.
Qed.

(** With more fuel than frames to come, [received_message] is not cut
    off; it only consumes frames, and it is suspended only when no frame is
    left. *)
Lemma received_message_consumes (fuel : nat) :
  ∀ (m : WSMessage) (inbox : list WSMessage) w,
    List.length inbox < fuel →
    (received_message fuel m inbox w).2 ≠ OutOfFuel
    ∧ List.length (received_message fuel m inbox w).1.1 ≤ List.length inbox
    ∧ ((received_message fuel m inbox w).2 = Blocked →
       (received_message fuel m inbox w).1.1 = []).
Proof.
  induction fuel as [|fuel IH]; intros m inbox w Hlt; [lia|].
  assert (Hend : ∀ w' (o : outcome unit), o ≠ OutOfFuel → o ≠ Blocked →
            (inbox, w', o).2 ≠ OutOfFuel
            ∧ List.length (inbox, w', o).1.1 ≤ List.length inbox
            ∧ ((inbox, w', o).2 = Blocked → (inbox, w', o).1.1 = [])).
  { intros w' o H1 H2. cbn [fst snd]. split; [assumption|]. split; [lia|].
    intros E. contradiction. }
  assert (Hepi : ∀ inbox1 w', List.length inbox1 ≤ List.length inbox →
            (init_epilogue inbox1 w').2 ≠ OutOfFuel
            ∧ List.length (init_epilogue inbox1 w').1.1 ≤ List.length inbox
            ∧ ((init_epilogue inbox1 w').2 = Blocked → (init_epilogue inbox1 w').1.1 = [])).
  { intros inbox1 w' Hle. unfold init_epilogue.
    destruct (_connection_start w'); cbn [fst snd];
      (split; [discriminate|]); (split; [lia|discriminate]). }
  cbn [received_message].
  destruct (json_dict m) as [j|e]; [|apply Hend; discriminate].
  destruct (extract_event j) as [[op event] data].
  destruct (int_eq op OP_CONNECTION_START); [apply Hend; discriminate|].
  destruct (int_eq op OP_EVENT); [|apply Hend; discriminate].
  destruct (str_eq event "INIT_STATE"); [|apply Hend; discriminate].
  unfold received_init_with. cbv zeta.
  destruct (j !! "d") as [data'|]; [|apply Hend; discriminate].
  destruct data' as [| | | |dm]; try (apply Hend; discriminate).
  destruct (py_len _) as [expected|]; [|apply Hend; discriminate].
  match goal with
  | |- context [init_loop expected ?b [] inbox ?w1] =>
      destruct (init_loop_consumes inbox expected b [] w1) as (L1 & L2 & L3 & L4);
      destruct (init_loop expected b [] inbox w1) as [[inbox1 w2] [q|e| |]]
  end; cbn [fst snd] in *.
  - specialize (L4 q eq_refl). cbn in L4.
    destruct q as [|ev q].
    + cbn [replay]. apply Hepi. assumption.
    + assert (Hlt1 : List.length inbox1 < fuel) by (cbn in L4; lia).
      destruct (replay_consumes (received_message fuel) fuel IH (ev :: q) inbox1 w2 Hlt1)
        as (R1 & R2 & R3).
      destruct (replay (received_message fuel) (ev :: q) inbox1 w2)
        as [[inbox2 w3] [[]|e| |]]; cbn [fst snd] in *.
      * apply Hepi. lia.
      * split; [discriminate|]. split; [lia|discriminate].
      * split; [discriminate|]. split; [lia|assumption].
      * contradiction.
  - split; [discriminate|]. split; [assumption|discriminate].
  - split; [discriminate|]. split; [assumption|]. intros _. apply L2. reflexivity.
  - contradiction.
Qed.

Lemma wait_for_event_default_consumes (fuel : nat) (inbox : list WSMessage) w :
  List.length inbox ≤ fuel →
  (wait_for_event_default fuel inbox w).2 ≠ OutOfFuel
  ∧ ((wait_for_event_default fuel inbox w).2 = Blocked →
     (wait_for_event_default fuel inbox w).1.1 = [])
  ∧ (∀ a, (wait_for_event_default fuel inbox w).2 = Done a →
          List.length (wait_for_event_default fuel inbox w).1.1 < List.length inbox).
Proof.
  intros Hle. destruct inbox as [|m inbox]; cbn [wait_for_event_default].
  - cbn. split; [discriminate|]. split; [reflexivity|discriminate].
  - change (List.length (m :: inbox)) with (S (List.length inbox)) in *.
    destruct (msg_type m);
      try (cbn [fst snd]; split; [discriminate|]; split; [discriminate|];
           intros a Ha; first [discriminate Ha | lia]).
    destruct (received_message_consumes fuel m inbox w ltac:(lia)) as (R1 & R2 & R3).
    split; [assumption|]. split; [assumption|]. intros a Ha. lia.
Qed.

(** The listening loop never returns: followed for more turns than there
    are frames, and with more fuel than frames, it has either raised or is
    suspended in the receive with every frame consumed. *)
Theorem listening_loop_never_returns (fuel steps : nat) (inbox : list WSMessage) w :
  List.length inbox ≤ fuel → List.length inbox < steps →
  (∃ e, (listening_loop fuel steps inbox w).2 = Raised e)
  ∨ ((listening_loop fuel steps inbox w).2 = Blocked
     ∧ (listening_loop fuel steps inbox w).1.1 = []).
Proof.
  revert inbox w. induction steps as [|steps IH]; intros inbox w Hf Hs; [lia|].
  cbn [listening_loop].
  destruct (wait_for_event_default_consumes fuel inbox w Hf) as (W1 & W2 & W3).
  destruct (wait_for_event_default fuel inbox w) as [[inbox1 w1] [[]|e| |]];
    cbn [fst snd] in *.
  - specialize (W3 tt eq_refl). apply IH; lia.
  - left. eauto.
  - right. split; [reflexivity|]. apply W2. reflexivity.
  - contradiction.
Qed.

(* ===================================================================== *)
(** ** Handshakes that do not complete *)
(* ===================================================================== *)

(** the handshake loop over frames after none of which the counts agree *)
Lemma init_loop_running (pre : list WSMessage) :
  ∀ (expected : nat) (additional rest : list WSMessage) w,
    Forall (fun m => text_dict m = true) pre →
    (∀ i, i < List.length pre →
          houses_len (apply_joins (take i pre) (storage w)) ≠ expected) →
    init_loop expected true additional (pre ++ rest) w
    = init_loop expected true (additional ++ queued pre) rest
        (set_storage (apply_joins pre (storage w)) w).
Proof.
  induction pre as [|m pre IH]; intros expected additional rest w Hall Hrun.
  - cbn [app]. change (queued []) with (@nil WSMessage).
    change (apply_joins [] (storage w)) with (storage w).
    rewrite app_nil_r, set_storage_same. reflexivity.
  - apply Forall_cons in Hall as [Hm Hall]. cbn [app].
    assert (H0 : houses_len (storage w) ≠ expected).
    { apply (Hrun 0). simpl. lia. }
    rewrite init_loop_step by assumption.
    rewrite apply_joins_cons, queued_cons.
    assert (Hrun' : ∀ i, i < List.length pre →
              houses_len (apply_joins (take i pre)
                            (if is_house_join m
                             then add_or_update_house (frame_data m) (storage w)
                             else storage w)) ≠ expected).
    { intros i Hi. specialize (Hrun (S i)). cbn [take] in Hrun.
      rewrite apply_joins_cons in Hrun. apply Hrun. simpl. lia. }
    destruct (is_house_join m).
    + rewrite IH; [reflexivity|assumption|exact Hrun'].
    + rewrite IH; [rewrite <- app_assoc; reflexivity|assumption|exact Hrun'].
Qed.

(** A frame that is not a well-formed [TEXT] frame and arrives while the
    handshake loop is still receiving ends the handshake with an
    exception: the events queued so far are never handed to the parsers,
    the [ready] listeners are not called and the websocket is not marked
    ready.  A frame of a data type that [wait_for_event] drops makes the
    loop fail on the missing message ([AttributeError]); a close frame
    raises as in the listening loop. *)
Theorem handshake_aborted_by_bad_frame (fuel : nat) (msg dm : gmap string PyVal)
    (expected : nat) (pre post : list WSMessage) (m : WSMessage) w :
  msg !! "d" = Some (VDict dm) →
  py_len (default (VDict ∅) (dm !! "house_memberships")) = Some expected →
  Forall (fun m => text_dict m = true) pre →
  (∀ i, i ≤ List.length pre →
        houses_len (apply_joins (take i pre) (update_all (VDict dm) (storage w)))
        ≠ expected) →
  text_dict m = false →
  ∃ w' e,
    received_init fuel msg (pre ++ m :: post) w = (post, w', Raised e)
    ∧ trace w' = trace w ++ [CallListeners "init"]
    ∧ _ready w' = _ready w
    ∧ storage w' = apply_joins pre (update_all (VDict dm) (storage w))
    ∧ (is_dropped m = true → e = none_json)
    ∧ (msg_type m = CLOSE ∨ msg_type m = CLOSING → exc_class e = RestartSessionError)
    ∧ (msg_type m = CLOSED → exc_class e = WebSocketClosedError ∧ _open w' = false)
    ∧ (msg_type m = ERROR → exc_class e = WebSocketClosedError).
Proof.
  intros Hd Hlen Hall Hrun Hm.
  assert (Htruthy : bool_decide (msg ≠ ∅) = true).
  { apply bool_decide_eq_true_2. intros ->. rewrite lookup_empty in Hd. discriminate. }
  unfold received_init, received_init_with. cbv zeta. rewrite Hd, Hlen, Htruthy.
  set (w1 := set_storage (update_all (VDict dm) (storage w)) (emit (CallListeners "init") w)).
  change (init_loop expected true [] (pre ++ m :: post) _)
    with (init_loop expected true [] (pre ++ m :: post) w1).
  rewrite (init_loop_running pre expected [] (m :: post) w1 Hall)
    by (intros i Hi; apply Hrun; lia).
  assert (Hg : Nat.eqb expected (houses_len (apply_joins pre (storage w1))) = false).
  { apply Nat.eqb_neq. intros E. apply (Hrun (List.length pre) (le_n _)).
    rewrite firstn_all. symmetry. exact E. }
  cbn [init_loop storage set_storage]. rewrite Hg.
  cbn [negb]. unfold wait_for_event, received_init_event, json_dict, is_dropped.
  unfold text_dict in Hm.
  destruct (msg_type m) eqn:Hty; destruct (msg_json m) as [[]|] eqn:Hjs;
    try discriminate Hm;
    eexists _, _; (split; [reflexivity|]);
    (split; [reflexivity|]); (split; [reflexivity|]); (split; [reflexivity|]);
    (split; [intros Hx; first [discriminate Hx | reflexivity]|]);
    (split; [intros [Hx|Hx]; first [discriminate Hx | reflexivity]|]);
    (split; [intros Hx; first [discriminate Hx | split; reflexivity]|]);
    intros Hx; first [discriminate Hx | reflexivity].
Qed.

Lemma replay_plain_keeps (events : list WSMessage) :
  ∀ w, Forall (fun m => int_eq (frame_op m) OP_CONNECTION_START = false) events →
       _connection_start (foldl (fun w m => handle_plain m w) w events)
       = _connection_start w
       ∧ _ready (foldl (fun w m => handle_plain m w) w events) = _ready w
       ∧ _startup_time (foldl (fun w m => handle_plain m w) w events)
         = _startup_time w.
Proof.
  induction events as [|m events IH]; intros w Hall; cbn [foldl]; [auto|].
  apply Forall_cons in Hall as [Hm Hall].
  destruct (IH (handle_plain m w) Hall) as (-> & -> & ->).
  unfold handle_plain. rewrite Hm.
  destruct (int_eq (frame_op m) OP_EVENT); auto.
Qed.

(** An [INIT_STATE] frame that is handled before any [CONNECTION_START]
    frame, with neither a [CONNECTION_START] frame nor another
    [INIT_STATE] frame among the frames queued during the handshake: the
    handshake runs to its end, the queued events are replayed, and then the
    startup time cannot be computed.  [received_init] raises [TypeError];
    the [ready] listeners are not called and the websocket is not marked
    ready, though its storage is initialised. *)
Theorem handshake_without_connection_start (fuel : nat) (msg dm : gmap string PyVal)
    (expected : nat) (pre post : list WSMessage) w :
  msg !! "d" = Some (VDict dm) →
  py_len (default (VDict ∅) (dm !! "house_memberships")) = Some expected →
  completes_after expected pre (update_all (VDict dm) (storage w)) →
  Forall (fun m => is_init_state m = false) (queued pre) →
  Forall (fun m => int_eq (frame_op m) OP_CONNECTION_START = false) (queued pre) →
  _connection_start w = None →
  ∃ w' e,
    received_init (S fuel) msg (pre ++ post) w = (post, w', Raised e)
    ∧ exc_class e = TypeError
    ∧ trace w' = trace w ++ [CallListeners "init"] ++ dispatches_of (queued pre)
    ∧ _ready w' = _ready w
    ∧ _startup_time w' = _startup_time w.
Proof.
  intros Hd Hlen Hc Hni Hnc Hcs.
  assert (Htruthy : bool_decide (msg ≠ ∅) = true).
  { apply bool_decide_eq_true_2. intros ->. rewrite lookup_empty in Hd. discriminate. }
  set (w1 := set_storage (update_all (VDict dm) (storage w)) (emit (CallListeners "init") w)).
  pose proof (init_loop_complete pre expected [] post w1 Hc) as Hloop.
  set (w2 := set_storage (apply_joins pre (storage w1)) w1) in *.
  assert (Ht : Forall (fun m => text_dict m = true) (queued pre)).
  { apply queued_text_dict. destruct Hc as [Hall _]. exact Hall. }
  pose proof (replay_plain fuel (queued pre) post w2 Ht Hni) as Hrep.
  pose proof (trace_replay_plain (queued pre) w2) as Htr.
  destruct (replay_plain_keeps (queued pre) w2 Hnc) as (K1 & K2 & K3).
  set (w3 := foldl (fun w m => handle_plain m w) w2 (queued pre)) in *.
  unfold received_init, received_init_with. cbv zeta. rewrite Hd, Hlen, Htruthy.
  change (init_loop expected true [] (pre ++ post) _)
    with (init_loop expected true [] (pre ++ post) w1).
  cbn [app] in Hloop. rewrite Hloop, Hrep. unfold init_epilogue.
  assert (E3 : _connection_start w3 = None) by (rewrite K1; exact Hcs).
  rewrite E3. eexists _, _. split; [reflexivity|]. split; [reflexivity|].
  split; [|split; assumption].
  rewrite Htr. cbn [trace w2 w1 set_storage emit]. rewrite <- !app_assoc. reflexivity.
Qed.

(** An [INIT_STATE] frame whose payload is missing or is not an object:
    [received_message] raises [KeyError] when the frame has no key [d] and
    [AttributeError] when the value of [d] is not an object, in both cases
    after the [init] listeners have been called; the storage is not touched
    and no frame is received. *)
Theorem malformed_INIT_STATE_raises (fuel : nat) (m : WSMessage)
    (j : gmap string PyVal) (inbox : list WSMessage) w :
  msg_type m = TEXT → msg_json m = Some (VDict j) → is_init_state m = true →
  (∀ dm, j !! "d" ≠ Some (VDict dm)) →
  ∃ e, received_message (S fuel) m inbox w
       = (inbox, emit (CallListeners "init") w, Raised e)
       ∧ exc_class e = match j !! "d" with
                       | None => KeyError
                       | Some _ => AttributeError
                       end.
Proof.
  intros _ Hj Hi Hd.
  unfold is_init_state, is_event, frame_op, frame_event in Hi.
  rewrite Hj in Hi.
  apply andb_true_iff in Hi as [Hop Hev].
  assert (Hcs : int_eq (dict_get "op" j) OP_CONNECTION_START = false).
  { unfold int_eq in *. destruct (dict_get "op" j); try reflexivity.
    apply Z.eqb_eq in Hop. subst. reflexivity. }
  cbn [received_message]. unfold json_dict, extract_event. rewrite Hj, Hcs, Hop, Hev.
  unfold received_init_with. cbv zeta.
  destruct (j !! "d") as [[| | | |dm]|];
    try (eexists; split; reflexivity).
  exfalso. exact (Hd dm eq_refl).
Qed.

(* ===================================================================== *)
(** ** The cadence of the keep-alive loop *)
(* ===================================================================== *)

Lemma env_step_length (ev : EnvEvent) k :
  List.length (tasks (env_step ev k)) = List.length (tasks k).
Proof.
  destruct ev as [i el| |b]; cbn [env_step].
  - destruct (tasks k !! i) as [[]|]; try reflexivity.
    destruct (run_heartbeat_task el (ws k)). cbn [tasks]. apply length_insert.
  - rewrite stop_tasks. reflexivity.
  - reflexivity.
Qed.

Lemma env_steps_length (evs : list EnvEvent) :
  ∀ k, List.length (tasks (foldl (fun k ev => env_step ev k) k evs))
       = List.length (tasks k).
Proof.
  induction evs as [|ev evs IH]; intros k; cbn [foldl]; [reflexivity|].
  rewrite IH. apply env_step_length.
Qed.

Lemma quiet_step_control (ev : EnvEvent) k :
  quiet_event ev = true →
  _open (ws (env_step ev k)) = _open (ws k)
  ∧ _active (env_step ev k) = _active k
  ∧ _task (env_step ev k) = _task k.
Proof.
  destruct ev as [i el| |b]; try discriminate. intros _. cbn [env_step].
  destruct (tasks k !! i) as [[]|]; auto.
  pose proof (run_heartbeat_task_open el (ws k)) as Ho.
  destruct (run_heartbeat_task el (ws k)). cbn in *. auto.
Qed.

Lemma quiet_steps_control (evs : list EnvEvent) :
  ∀ k, forallb quiet_event evs = true →
       _open (ws (foldl (fun k ev => env_step ev k) k evs)) = _open (ws k)
       ∧ _active (foldl (fun k ev => env_step ev k) k evs) = _active k
       ∧ _task (foldl (fun k ev => env_step ev k) k evs) = _task k.
Proof.
  induction evs as [|ev evs IH]; intros k Hq; cbn [foldl]; [auto|].
  cbn [forallb] in Hq. apply andb_true_iff in Hq as [Hev Hq].
  destruct (IH (env_step ev k) Hq) as (-> & -> & ->).
  apply quiet_step_control. assumption.
Qed.

Lemma run_loop_quiet (ticks : list Tick) :
  ∀ k, _open (ws k) = true → _active k = true →
       Forall (fun t => quiet t = true) ticks →
       ∃ k', run_loop ticks k = (k', Sleeping)
             ∧ List.length (tasks k') = List.length (tasks k) + List.length ticks + 1
             ∧ _task k' = Some (List.length (tasks k) + List.length ticks)
             ∧ _active k' = true ∧ _open (ws k') = true.
Proof.
  induction ticks as [|t ticks IH]; intros k Ho Ha Hall.
  - cbn [run_loop]. rewrite Ho, Ha. cbn [andb]. eexists. split; [reflexivity|].
    unfold create_heartbeat_task. cbn [tasks _task _active ws].
    rewrite length_app. cbn. rewrite !Nat.add_0_r.
    split; [reflexivity|]. split; [reflexivity|]. split; assumption.
  - apply Forall_cons in Hall as [Ht Hall]. unfold quiet in Ht.
    apply andb_true_iff in Ht as [Hev Hc]. apply negb_true_iff in Hc.
    rewrite run_loop_cons, Ho, Ha, Hc. cbn [andb].
    destruct (quiet_steps_control (during t) (create_heartbeat_task k) Hev)
      as (Q1 & Q2 & Q3).
    pose proof (env_steps_length (during t) (create_heartbeat_task k)) as Q4.
    set (k2 := foldl (fun k ev => env_step ev k) (create_heartbeat_task k) (during t)) in *.
    cbn [create_heartbeat_task ws _active _task tasks] in Q1, Q2, Q4.
    rewrite length_app in Q4. cbn in Q4.
    destruct (IH k2) as (k' & E & L & T & A & O);
      [congruence|congruence|assumption|].
    exists k'. split; [exact E|]. rewrite L, T, Q4. cbn.
    split; [lia|]. split; [f_equal; lia|]. split; assumption.
Qed.

(** While the websocket is open and nothing but the heartbeat tasks runs
    during the sleeps, the loop makes one heartbeat task before each sleep:
    after [n] sleeps it has made [n + 1] tasks, it keeps the last one in
    [_task], and it is asleep again. *)
Theorem run_creates_one_task_per_sleep (ticks : list Tick) k :
  _open (ws k) = true → Forall (fun t => quiet t = true) ticks →
  ∃ k', run ticks k = (k', Sleeping)
        ∧ List.length (tasks k') = List.length (tasks k) + List.length ticks + 1
        ∧ _task k' = Some (List.length (tasks k) + List.length ticks)
        ∧ _active k' = true ∧ _open (ws k') = true.
Proof.
  intros Ho Hall. unfold run.
  apply (run_loop_quiet ticks (mkKeepAlive (ws k) (_task k) true (tasks k)));
    [exact Ho|reflexivity|exact Hall].
Qed.

Lemma run_loop_length (ticks : list Tick) :
  ∀ k, List.length (tasks (run_loop ticks k).1)
       ≤ List.length (tasks k) + List.length ticks + 1.
Proof.
  induction ticks as [|t ticks IH]; intros k.
  - cbn [run_loop]. destruct (_open (ws k) && _active k); cbn [fst]; [|lia].
    unfold create_heartbeat_task. cbn [tasks]. rewrite length_app. cbn. lia.
  - rewrite run_loop_cons.
    pose proof (env_steps_length (during t) (create_heartbeat_task k)) as Q.
    unfold create_heartbeat_task at 2 in Q. cbn [tasks] in Q.
    rewrite length_app in Q. cbn in Q.
    destruct (_open (ws k) && _active k); [|cbn; lia].
    destruct (cancelled t); cbn [fst].
    + rewrite Q. cbn. lia.
    + etransitivity; [apply IH|]. rewrite Q. cbn. lia.
Qed.

(** Whatever happens during the sleeps, the loop never makes more than one
    heartbeat task per sleep, and no task is ever taken out of the list. *)
Theorem run_creates_at_most_one_task_per_sleep (ticks : list Tick) k :
  List.length (tasks k) ≤ List.length (tasks (run ticks k).1)
  ∧ List.length (tasks (run ticks k).1)
    ≤ List.length (tasks k) + List.length ticks + 1.
Proof.
  split; [|exact (run_loop_length ticks (mkKeepAlive (ws k) (_task k) true (tasks k)))].
  unfold run.
  change (tasks k) with (tasks (mkKeepAlive (ws k) (_task k) true (tasks k))) at 1.
  generalize (mkKeepAlive (ws k) (_task k) true (tasks k)). clear k.
  induction ticks as [|t ticks IH]; intros k.
  - cbn [run_loop]. destruct (_open (ws k) && _active k); cbn [fst]; [|lia].
    unfold create_heartbeat_task. cbn [tasks]. rewrite length_app. lia.
  - rewrite run_loop_cons.
    pose proof (env_steps_length (during t) (create_heartbeat_task k)) as Q.
    unfold create_heartbeat_task at 2 in Q. cbn [tasks] in Q.
    rewrite length_app in Q.
    destruct (_open (ws k) && _active k); [|cbn; lia].
    destruct (cancelled t); cbn [fst].
    + rewrite Q. lia.
    + etransitivity; [|apply IH]. rewrite Q. lia.
Qed.

(** A [stop()] that comes before [run()] does not keep the loop from
    running: [run] sets [_active] again.  On an open websocket the loop
    behaves as if [stop] had not been called; on a closed one [run] returns
    at once, without a heartbeat, and leaves [_active] set. *)
Theorem stop_before_run_is_overridden (ticks : list Tick) k :
  run ticks (stop k)
  = if _open (ws k) then run ticks k
    else (mkKeepAlive (ws k) None true (tasks k), Returned).
Proof.
  unfold run. rewrite stop_tasks. cbn [ws _task stop].
  destruct (_open (ws k)) eqn:Ho.
  - destruct ticks as [|t ticks]; [cbn [run_loop]|rewrite !run_loop_cons];
      cbn [ws _active]; rewrite Ho; reflexivity.
  - destruct ticks as [|t ticks]; [cbn [run_loop]|rewrite !run_loop_cons];
      cbn [ws _active]; rewrite Ho; reflexivity.
Qed.

(** The loop returns at the first sleep that is cancelled or during which
    the websocket is closed; the sleeps after it are never reached, and
    [_active] is still set when [run] has returned. *)
Theorem run_returns_when_closed_or_cancelled (pre post : list Tick)
    (evs : list EnvEvent) (t : Tick) k :
  _open (ws k) = true → Forall (fun t => quiet t = true) pre →
  forallb quiet_event evs = true →
  (during t = evs ++ [SetOpen false] ∨ (during t = evs ∧ cancelled t = true)) →
  ∃ k', run (pre ++ t :: post) k = (k', Returned)
        ∧ List.length (tasks k') = List.length (tasks k) + List.length pre + 1
        ∧ _active k' = true.
Proof.
  intros Ho Hpre Hevs Ht. unfold run.
  set (k0 := mkKeepAlive (ws k) (_task k) true (tasks k)).
  change (tasks k) with (tasks k0).
  assert (Ho0 : _open (ws k0) = true) by exact Ho.
  assert (Ha0 : _active k0 = true) by reflexivity.
  clearbody k0. clear k Ho. revert k0 Ho0 Ha0.
  induction pre as [|p pre IH]; intros k Ho Ha.
  - cbn [app]. rewrite run_loop_cons, Ho, Ha. cbn [andb].
    destruct (quiet_steps_control evs (create_heartbeat_task k) Hevs) as (Q1 & Q2 & Q3).
    pose proof (env_steps_length (during t) (create_heartbeat_task k)) as Q4.
    unfold create_heartbeat_task at 2 in Q4. cbn [tasks] in Q4.
    rewrite length_app in Q4. cbn [List.length] in Q4.
    cbn [create_heartbeat_task ws _active] in Q1, Q2.
    destruct Ht as [Hd|[Hd Hc]].
    + assert (Hcl : _open (ws (foldl (fun k ev => env_step ev k)
                                 (create_heartbeat_task k) (during t))) = false).
      { rewrite Hd, foldl_app. reflexivity. }
      assert (Hact : _active (foldl (fun k ev => env_step ev k)
                                (create_heartbeat_task k) (during t)) = true).
      { rewrite Hd, foldl_app. cbn [foldl env_step _active]. congruence. }
      eexists. split.
      * destruct (cancelled t); [reflexivity|].
        destruct post as [|p post]; [cbn [run_loop]|rewrite run_loop_cons];
          rewrite Hcl; reflexivity.
      * split; [rewrite Q4; cbn; lia|exact Hact].
    + rewrite Hc. eexists. split; [reflexivity|].
      split; [rewrite Q4; cbn; lia|]. rewrite Hd. congruence.
  - apply Forall_cons in Hpre as [Hp Hpre]. unfold quiet in Hp.
    apply andb_true_iff in Hp as [Hev Hc]. apply negb_true_iff in Hc.
    cbn [app]. rewrite run_loop_cons, Ho, Ha, Hc. cbn [andb].
    destruct (quiet_steps_control (during p) (create_heartbeat_task k) Hev)
      as (Q1 & Q2 & Q3).
    pose proof (env_steps_length (during p) (create_heartbeat_task k)) as Q4.
    unfold create_heartbeat_task at 2 in Q4. cbn [tasks] in Q4.
    rewrite length_app in Q4. cbn [List.length] in Q4.
    cbn [create_heartbeat_task ws _active] in Q1, Q2.
    set (k2 := foldl (fun k ev => env_step ev k) (create_heartbeat_task k) (during p)) in *.
    assert (Ho2 : _open (ws k2) = true) by congruence.
    assert (Ha2 : _active k2 = true) by congruence.
    destruct (IH Hpre k2 Ho2 Ha2) as (k' & E & L & A).
    exists k'. split; [exact E|]. split; [|exact A].
    rewrite L, Q4. cbn. lia.
Qed.

End WithClient.

(** C6, as stated, fails when the storage holds more houses than the
    manifest announces: with two houses known and one expected, the local
    count is not less than the expected count, and still the loop receives
    the next frame and then waits for more. *)
Lemma handshake_loop_runs_when_count_exceeds :
  houses_len (storage (demo_ws ["h1"; "h2"] [])) = 2
  ∧ ¬ (2 < 1)
  ∧ init_loop 1 true [] [house_join "h3"] (demo_ws ["h1"; "h2"] [])
    = ([], set_storage ["h1"; "h2"; "h3"] (demo_ws ["h1"; "h2"] []), Blocked).
Proof. split; [reflexivity|]. split; [lia|]. vm_compute. reflexivity. Qed.

Lemma demo_completes : completes_after 2 demo_pre [].
Proof.
  split; [repeat constructor|]. split.
  - intros k Hk. destruct k as [|[|[|k]]]; [vm_compute; discriminate..|].
    cbn in Hk. lia.
  - vm_compute. reflexivity.
Qed.

Lemma handshake_loop_runs_while_counts_differ_witness :
  init_loop 2 true [] (demo_pre ++ demo_post) (demo_ws [] [])
  = (demo_post, set_storage ["h1"; "h2"] (demo_ws [] []),
     Done [event_frame "MESSAGE_CREATE" VNone]).
Proof.
  apply (proj2 (handshake_loop_runs_while_counts_differ 2 [] (demo_pre ++ demo_post)
                  demo_post [event_frame "MESSAGE_CREATE" VNone] (demo_ws [] [])
                  (set_storage ["h1"; "h2"] (demo_ws [] [])))).
  exists demo_pre. split; [reflexivity|]. split; [exact demo_completes|].
  split; vm_compute; reflexivity.
Defined.

(** C1, as stated, fails when an [INIT_STATE] frame sits in the queue.
    The handshake for one house is complete after the third frame; its
    queue holds the second [INIT_STATE] frame and [MESSAGE_CREATE], and the
    frames [TYPING_START] and [HOUSE_JOIN] are still to come.  The replay of
    the queued [INIT_STATE] frame starts a handshake of its own, which
    receives those two frames and hands [TYPING_START] to the parsers before
    the replay gets to [MESSAGE_CREATE], which was received earlier. *)
Lemma queued_INIT_STATE_reorders_events :
  (∃ w2, init_loop 1 true [] demo_nested (demo_ws [] [])
         = ([event_frame "TYPING_START" VNone; house_join "h2"], w2,
            Done [init_state ["h1"; "h2"]; event_frame "MESSAGE_CREATE" VNone]))
  ∧ ∃ w', received_message 3 (init_state ["h1"]) demo_nested (demo_ws [] [])
          = ([], w', Done tt)
          ∧ dispatched_names (trace w') = [VStr "TYPING_START"; VStr "MESSAGE_CREATE"].
Proof.
  split; eexists; [vm_compute; reflexivity|].
  split; [vm_compute; reflexivity|]. vm_compute. reflexivity.
Qed.

Lemma handshake_replays_queue_in_order_witness :
  event_dict "INIT_STATE" (VDict (manifest ["h1"; "h2"])) !! "d"
  = Some (VDict (manifest ["h1"; "h2"]))
  ∧ py_len (default (VDict ∅) (manifest ["h1"; "h2"] !! "house_memberships")) = Some 2
  ∧ completes_after 2 demo_pre
      (update_all (VDict (manifest ["h1"; "h2"])) (storage (demo_ws [] [])))
  ∧ Forall (fun m => is_init_state m = false) (queued demo_pre)
  ∧ ∃ w', received_init 1 (event_dict "INIT_STATE" (VDict (manifest ["h1"; "h2"])))
            (demo_pre ++ demo_post) (demo_ws [] [])
          = (demo_post, w', Done tt)
          ∧ trace w' = [CallListeners "init"; ParsersDispatch (VStr "MESSAGE_CREATE") VNone;
                        CallListeners "ready"].
Proof.
  assert (H1 : event_dict "INIT_STATE" (VDict (manifest ["h1"; "h2"])) !! "d"
               = Some (VDict (manifest ["h1"; "h2"]))) by (vm_compute; reflexivity).
  assert (H2 : py_len (default (VDict ∅) (manifest ["h1"; "h2"] !! "house_memberships"))
               = Some 2) by (vm_compute; reflexivity).
  assert (H5 : Forall (fun m => is_init_state m = false) (queued demo_pre)).
  { vm_compute. repeat constructor. }
  split; [exact H1|]. split; [exact H2|].
  split; [exact demo_completes|]. split; [exact H5|].
  destruct (handshake_replays_queue_in_order 0 _ _ 2 demo_pre demo_post (demo_ws [] [])
              H1 H2 demo_completes H5) as (w2 & _ & _ & _ & Hret).
  destruct (Hret (mk_is_Some _ _ eq_refl)) as (w' & Hr & Ht & _).
  exists w'. split; [exact Hr|]. rewrite Ht. vm_compute. reflexivity.
Defined.

(** C8, on the code.  [stop()] is called during the first sleep of the
    loop, before the event loop has run the heartbeat task that [run] has
    just made.  [stop()] is written to cancel that task, but it calls
    [cancel()] only on a task that is cancelled already: when it returns the
    task is still pending and nothing has been sent.  The event loop then
    runs the task, and a heartbeat is written after [stop()] has
    returned. *)
Lemma heartbeat_sent_after_stop :
  _active (fst (run [mkTick [CallStop] false] (demo_keep_alive []))) = false
  ∧ tasks (fst (run [mkTick [CallStop] false] (demo_keep_alive []))) = [Pending]
  ∧ socket_sent (ws (fst (run [mkTick [CallStop] false] (demo_keep_alive [])))) = []
  ∧ tasks (fst (run [mkTick [CallStop; RunTask 0 1] false] (demo_keep_alive [])))
    = [Finished (Ok tt)]
  ∧ socket_sent (ws (fst (run [mkTick [CallStop; RunTask 0 1] false]
                            (demo_keep_alive []))))
    = [VDict {[ "op" := VInt OP_HEARTBEAT ]}].
Proof. repeat split; vm_compute; reflexivity. Qed.

(** C3, on the code.  The transport fails to write the first heartbeat.
    The task of that heartbeat ends with [RestartSessionError], and the
    keep-alive loop carries on: it has created the next heartbeat task and
    sleeps.  Nothing is raised out of [run]. *)
Lemma keepalive_drops_failed_heartbeat :
  tasks (fst (run [mkTick [RunTask 0 1] false] (demo_keep_alive [Some connection_reset])))
  = [Finished (Raise (mkExc RestartSessionError
                        "Failed to send heartbeat to WebSocket host!"));
     Pending]
  ∧ snd (run [mkTick [RunTask 0 1] false] (demo_keep_alive [Some connection_reset]))
    = Sleeping.
Proof. split; vm_compute; reflexivity. Qed.

(** A heartbeat that takes 31 time units ends its task with [TimeoutError];
    the loop carries on in the same way. *)
Example keepalive_drops_timed_out_heartbeat :
  tasks (fst (run [mkTick [RunTask 0 31] false] (demo_keep_alive [])))
  = [Finished (Raise (mkExc TimeoutError "")); Pending]
  ∧ snd (run [mkTick [RunTask 0 31] false] (demo_keep_alive [])) = Sleeping.
Proof. split; vm_compute; reflexivity. Qed.

(** C7, as stated, fails for [send_auth]: a failed write comes out as
    [SessionCreateError], not as [RestartSessionError]. *)
Lemma send_auth_raises_SessionCreateError :
  ∃ e, snd (send_auth (demo_ws [] [Some connection_reset])) = Raise e
       ∧ exc_class e = SessionCreateError
       ∧ exc_class e ≠ RestartSessionError.
Proof.
  eexists. split; [vm_compute; reflexivity|]. split; [reflexivity|]. discriminate.
Qed.

Lemma failed_write_is_promoted_witness :
  socket_outcomes (demo_ws [] [Some connection_reset]) = Some connection_reset :: []
  ∧ snd (send_heartbeat (demo_ws [] [Some connection_reset]))
    = Raise (mkExc RestartSessionError "Failed to send heartbeat to WebSocket host!").
Proof.
  split; [reflexivity|].
  exact (proj1 (failed_write_is_promoted (demo_ws [] [Some connection_reset])
                  connection_reset [] eq_refl)).
Defined.

(* ===================================================================== *)
(** ** The statements above at concrete frames *)
(* ===================================================================== *)

Lemma listening_loop_handles_frames_in_order_witness :
  Forall (fun m => steady m = true)
    [event_frame "MESSAGE_CREATE" VNone; mkMsg PING None; event_frame "TYPING_START" VNone]
  ∧ 3 < 4
  ∧ listening_loop 1 4
      [event_frame "MESSAGE_CREATE" VNone; mkMsg PING None; event_frame "TYPING_START" VNone]
      (demo_ws [] [])
    = ([], foldl (fun w m => handle_plain m w) (demo_ws [] [])
             [event_frame "MESSAGE_CREATE" VNone; event_frame "TYPING_START" VNone],
       Blocked).
Proof.
  assert (H1 : Forall (fun m => steady m = true)
                 [event_frame "MESSAGE_CREATE" VNone; mkMsg PING None;
                  event_frame "TYPING_START" VNone]).
  { repeat constructor. }
  assert (H2 : 3 < 4) by lia.
  split; [exact H1|]. split; [exact H2|].
  exact (proj1 (listening_loop_handles_frames_in_order 0 4 _ (demo_ws [] []) H1 H2)).
Defined.

Lemma close_frame_ends_listening_loop_witness :
  Forall (fun m => steady m = true) [event_frame "MESSAGE_CREATE" VNone]
  ∧ is_closing (mkMsg CLOSED None) = true
  ∧ 1 < 2
  ∧ ∃ w' e,
      listening_loop 1 2
        ([event_frame "MESSAGE_CREATE" VNone] ++ mkMsg CLOSED None :: demo_post)
        (set_open true (demo_ws [] []))
      = (demo_post, w', Raised e)
      ∧ exc_class e = WebSocketClosedError ∧ _open w' = false.
Proof.
  assert (H1 : Forall (fun m => steady m = true) [event_frame "MESSAGE_CREATE" VNone]).
  { repeat constructor. }
  assert (H3 : 1 < 2) by lia.
  split; [exact H1|]. split; [reflexivity|]. split; [exact H3|].
  destruct (close_frame_ends_listening_loop 0 2 [event_frame "MESSAGE_CREATE" VNone]
              demo_post (mkMsg CLOSED None) (set_open true (demo_ws [] []))
              H1 eq_refl H3) as (w' & e & E & _ & Hc & Ho).
  exists w', e. split; [exact E|]. split; [exact Hc|exact Ho].
Defined.

Lemma listening_loop_never_returns_witness :
  List.length (init_state ["h1"] :: demo_nested) ≤ 6
  ∧ List.length (init_state ["h1"] :: demo_nested) < 7
  ∧ ((∃ e, (listening_loop 6 7 (init_state ["h1"] :: demo_nested) (demo_ws [] [])).2
           = Raised e)
     ∨ ((listening_loop 6 7 (init_state ["h1"] :: demo_nested) (demo_ws [] [])).2 = Blocked
        ∧ (listening_loop 6 7 (init_state ["h1"] :: demo_nested) (demo_ws [] [])).1.1 = [])).
Proof.
  assert (H1 : List.length (init_state ["h1"] :: demo_nested) ≤ 6) by (simpl; lia).
  assert (H2 : List.length (init_state ["h1"] :: demo_nested) < 7) by (simpl; lia).
  split; [exact H1|]. split; [exact H2|].
  exact (listening_loop_never_returns 6 7 _ (demo_ws [] []) H1 H2).
Defined.

Lemma handshake_aborted_by_bad_frame_witness :
  event_dict "INIT_STATE" (VDict (manifest ["h1"; "h2"])) !! "d"
  = Some (VDict (manifest ["h1"; "h2"]))
  ∧ py_len (default (VDict ∅) (manifest ["h1"; "h2"] !! "house_memberships")) = Some 2
  ∧ text_dict (mkMsg CLOSE None) = false
  ∧ ∃ w' e,
      received_init 0 (event_dict "INIT_STATE" (VDict (manifest ["h1"; "h2"])))
        ([house_join "h1"; event_frame "MESSAGE_CREATE" VNone]
         ++ mkMsg CLOSE None :: [house_join "h2"])
        (demo_ws [] [])
      = ([house_join "h2"], w', Raised e)
      ∧ trace w' = [CallListeners "init"]
      ∧ exc_class e = RestartSessionError.
Proof.
  assert (H1 : event_dict "INIT_STATE" (VDict (manifest ["h1"; "h2"])) !! "d"
               = Some (VDict (manifest ["h1"; "h2"]))) by (vm_compute; reflexivity).
  assert (H2 : py_len (default (VDict ∅) (manifest ["h1"; "h2"] !! "house_memberships"))
               = Some 2) by (vm_compute; reflexivity).
  assert (H3 : Forall (fun m => text_dict m = true)
                 [house_join "h1"; event_frame "MESSAGE_CREATE" VNone]).
  { repeat constructor. }
  assert (H4 : ∀ i, i ≤ List.length [house_join "h1"; event_frame "MESSAGE_CREATE" VNone] →
                 houses_len (apply_joins
                               (take i [house_join "h1"; event_frame "MESSAGE_CREATE" VNone])
                               (update_all (VDict (manifest ["h1"; "h2"]))
                                  (storage (demo_ws [] [])))) ≠ 2).
  { intros i Hi. destruct i as [|[|[|i]]]; [vm_compute; discriminate..|].
    simpl in Hi. lia. }
  split; [exact H1|]. split; [exact H2|]. split; [reflexivity|].
  destruct (handshake_aborted_by_bad_frame 0 _ _ 2 _ [house_join "h2"] (mkMsg CLOSE None)
              (demo_ws [] []) H1 H2 H3 H4 eq_refl)
    as (w' & e & E & Ht & _ & _ & _ & Hc & _).
  exists w', e. split; [exact E|]. split; [exact Ht|]. apply Hc. left. reflexivity.
Defined.

Lemma handshake_without_connection_start_witness :
  event_dict "INIT_STATE" (VDict (manifest ["h1"; "h2"])) !! "d"
  = Some (VDict (manifest ["h1"; "h2"]))
  ∧ _connection_start (mkWs false false None None (VStr "token") 30000
                         ([] : list string) 5%Z [] [] []) = None
  ∧ ∃ w' e,
      received_init 1 (event_dict "INIT_STATE" (VDict (manifest ["h1"; "h2"])))
        (demo_pre ++ demo_post)
        (mkWs false false None None (VStr "token") 30000 ([] : list string) 5%Z [] [] [])
      = (demo_post, w', Raised e)
      ∧ exc_class e = TypeError ∧ _ready w' = false.
Proof.
  assert (H1 : event_dict "INIT_STATE" (VDict (manifest ["h1"; "h2"])) !! "d"
               = Some (VDict (manifest ["h1"; "h2"]))) by (vm_compute; reflexivity).
  assert (H2 : py_len (default (VDict ∅) (manifest ["h1"; "h2"] !! "house_memberships"))
               = Some 2) by (vm_compute; reflexivity).
  assert (H4 : Forall (fun m => is_init_state m = false) (queued demo_pre)).
  { vm_compute. repeat constructor. }
  assert (H5 : Forall (fun m => int_eq (frame_op m) OP_CONNECTION_START = false)
                 (queued demo_pre)).
  { vm_compute. repeat constructor. }
  split; [exact H1|]. split; [reflexivity|].
  destruct (handshake_without_connection_start 0 _ _ 2 demo_pre demo_post
              (mkWs false false None None (VStr "token") 30000 ([] : list string)
                 5%Z [] [] [])
              H1 H2 demo_completes H4 H5 eq_refl) as (w' & e & E & Hc & _ & Hr & _).
  exists w', e. split; [exact E|]. split; [exact Hc|exact Hr].
Defined.

Lemma malformed_INIT_STATE_raises_witness :
  msg_type (event_frame "INIT_STATE" VNone) = TEXT
  ∧ msg_json (event_frame "INIT_STATE" VNone)
    = Some (VDict (event_dict "INIT_STATE" VNone))
  ∧ is_init_state (event_frame "INIT_STATE" VNone) = true
  ∧ (∀ dm, event_dict "INIT_STATE" VNone !! "d" ≠ Some (VDict dm))
  ∧ ∃ e, received_message 1 (event_frame "INIT_STATE" VNone) demo_post (demo_ws [] [])
         = (demo_post, emit (CallListeners "init") (demo_ws [] []), Raised e)
         ∧ exc_class e = AttributeError.
Proof.
  assert (H3 : is_init_state (event_frame "INIT_STATE" VNone) = true)
    by (vm_compute; reflexivity).
  assert (H4 : ∀ dm, event_dict "INIT_STATE" VNone !! "d" ≠ Some (VDict dm)).
  { intros dm. vm_compute. discriminate. }
  split; [reflexivity|]. split; [reflexivity|]. split; [exact H3|].
  split; [exact H4|].
  destruct (malformed_INIT_STATE_raises 0 (event_frame "INIT_STATE" VNone)
              (event_dict "INIT_STATE" VNone) demo_post (demo_ws [] [])
              eq_refl eq_refl H3 H4) as (e & He & Hc).
  exists e. split; [exact He|]. rewrite Hc. vm_compute. reflexivity.
Defined.

(** the same frame without the key [d] *)
Example INIT_STATE_without_payload_raises_KeyError :
  ∃ e, received_message 1
         (mkMsg TEXT (Some (VDict (<[ "op" := VInt OP_EVENT ]>
                                     {[ "e" := VStr "INIT_STATE" ]}))))
         demo_post (demo_ws [] [])
       = (demo_post, emit (CallListeners "init") (demo_ws [] []), Raised e)
       ∧ exc_class e = KeyError.
Proof. eexists. split; vm_compute; reflexivity. Qed.

Lemma run_creates_one_task_per_sleep_witness :
  _open (ws (demo_keep_alive [])) = true
  ∧ Forall (fun t => quiet t = true) [mkTick [RunTask 0 1] false; mkTick [] false]
  ∧ ∃ k', run [mkTick [RunTask 0 1] false; mkTick [] false] (demo_keep_alive [])
          = (k', Sleeping)
          ∧ List.length (tasks k') = 3.
Proof.
  assert (H2 : Forall (fun t => quiet t = true)
                 [mkTick [RunTask 0 1] false; mkTick [] false]).
  { repeat constructor. }
  split; [reflexivity|]. split; [exact H2|].
  destruct (run_creates_one_task_per_sleep [mkTick [RunTask 0 1] false; mkTick [] false]
              (demo_keep_alive []) eq_refl H2) as (k' & E & L & _).
  exists k'. split; [exact E|exact L].
Defined.

Lemma run_returns_when_closed_or_cancelled_witness :
  _open (ws (demo_keep_alive [])) = true
  ∧ Forall (fun t => quiet t = true) [mkTick [RunTask 0 1] false]
  ∧ ∃ k', run ([mkTick [RunTask 0 1] false]
               ++ mkTick ([RunTask 1 1] ++ [SetOpen false]) false :: [mkTick [] false])
            (demo_keep_alive [])
          = (k', Returned)
          ∧ List.length (tasks k') = 2 ∧ _active k' = true.
Proof.
  assert (H2 : Forall (fun t => quiet t = true) [mkTick [RunTask 0 1] false]).
  { repeat constructor. }
  split; [reflexivity|]. split; [exact H2|].
  exact (run_returns_when_closed_or_cancelled [mkTick [RunTask 0 1] false]
           [mkTick [] false] [RunTask 1 1]
           (mkTick ([RunTask 1 1] ++ [SetOpen false]) false) (demo_keep_alive [])
           eq_refl H2 eq_refl (or_introl eq_refl)).
Defined.

End GatewayFacts.
